(** * trio-parallel: the worker-process protocol, the worker cache and the
    dispatcher, embedded from the Python sources.

    Layout of the development, leaves first:
    - [Py]       exceptions, results and a small state-and-exception monad;
    - [Struct]   the two [struct] formats the framing uses ("!i" and "!Q");
    - [Pipes]    trio's stream interface, the fd-backed streams, and the framed
                 channel of [PosixWorkerProc] ([_send], [_recv], [_recv_exactly]);
    - [Envelope] the [outcome] library's [Value] / [Error];
    - [Worker]   the child-side loop [WorkerProcBase._work];
    - [Handle]   the host-side handle ([run_sync], [kill]);
    - [Deque], [Cache]  [ProcCache] of [_worker_processes.py];
    - [Impl]     [_impl.py]: the default limiter, [cache_scope], [run_sync];
    - [Toy], [ToyHost]  a small concrete worker and host for the examples;
    - [Wake], [CacheOps], [Scope]  [wake_up], runs of [pop], the whole
                 [cache_scope];
    - [Legacy], [ToyLegacy]  the limiter and dispatcher of
                 [_worker_processes.py], with a concrete instance;
    - [Pool], [ToyPool]  the dispatcher of [_impl.py] over workers: the
                 handle, the pipes and the child of [_proc.py] together,
                 with a concrete instance;
    then the properties, in the same order, and after them the further
    properties of each part. *)

From Stdlib Require Import ZArith List Lia String Bool QArith.
From Stdlib Require Import Strings.Byte.
From Equations Require Import Equations.
From stdpp Require Import gmap.
Import ListNotations.
Open Scope string_scope.
Open Scope Z_scope.
Open Scope list_scope.

(** Proofs inside sections may use every section hypothesis. *)
#[local] Unset Default Proof Using.

(* ===================================================================== *)
(** ** Python values the model needs: exceptions and results             *)
(* ===================================================================== *)

Module Py.

(** The exception classes the sources raise or catch, and those Python
    raises for them: [AttributeError] for an attribute an object does not
    have, [UnboundLocalError] for a local variable read before any
    assignment (given by the name of the variable).  [Cancelled] stands
    for [trio.Cancelled], a [BaseException]; [UserError] is any other class,
    given by its name and message. *)
Inductive PyExc : Type :=
| EndOfChannel (msg : string)
| BrokenWorkerError (msg : string)
| BrokenResourceError (msg : string)
| Cancelled
| RuntimeError (msg : string)
| ValueError (msg : string)
| TypeError (msg : string)
| IndexError (msg : string)
| LookupError
| AssertionError (msg : string)
| StructError (msg : string)
| EOFError
| AttributeError (msg : string)
| UnboundLocalError (variable : string)
| UserError (kind msg : string).

(** [isinstance(e, trio.EndOfChannel)], the test of the first [except]
    clause of [run_sync]. *)
Definition is_EndOfChannel (e : PyExc) : bool :=
  match e with EndOfChannel _ => true | _ => false end.

(** A computation either returns or raises. *)
Inductive Result (A : Type) : Type :=
| Ok (a : A)
| Raise (e : PyExc).
Arguments Ok {A} a.
Arguments Raise {A} e.

(** State passing with exceptions: the state reached when the exception
    was raised is kept, as a Python object mutated before a [raise] stays
    mutated. *)
Definition M (St A : Type) : Type := St -> Result A * St.

Definition ret {St A} (a : A) : M St A := fun s => (Ok a, s).
Definition raise {St A} (e : PyExc) : M St A := fun s => (Raise e, s).
Definition bind {St A B} (m : M St A) (k : A -> M St B) : M St B :=
  fun s => match m s with
           | (Ok a, s') => k a s'
           | (Raise e, s') => (Raise e, s')
           end.
(** Lift a pure fallible computation ([struct.pack], the codec). *)
Definition lift {St A} (r : Result A) : M St A := fun s => (r, s).
Definition get {St} : M St St := fun s => (Ok s, s).
Definition modify {St} (f : St -> St) : M St unit := fun s => (Ok tt, f s).

(** [try: body / except BaseException as e: handler(e)]. *)
Definition try_except {St A} (body : M St A) (handler : PyExc -> M St A) : M St A :=
  fun s => match body s with
           | (Ok a, s') => (Ok a, s')
           | (Raise e, s') => handler e s'
           end.

End Py.
Import Py.

Declare Scope py_scope.
Delimit Scope py_scope with py.
Notation "x <- m ;; k" := (bind m (fun x => k))
  (at level 100, m at next level, right associativity) : py_scope.
Notation "m ;;; k" := (bind m (fun _ => k))
  (at level 100, k at level 200, right associativity) : py_scope.

(** Python's [bytes] / [bytearray]. *)
Abbreviation bytes := (list byte).

(** [len(buf)] as a Python integer. *)
Definition len {A} (l : list A) : Z := Z.of_nat (length l).

(* ===================================================================== *)
(** ** [struct.pack] / [struct.unpack] for the formats "!i" and "!Q"     *)
(* ===================================================================== *)

Module Struct.

Definition byte_of_Z (z : Z) : byte :=
  match Byte.of_N (Z.to_N (z mod 256)) with
  | Some b => b
  | None => x00
  end.

Definition Z_of_byte (b : byte) : Z := Z.of_N (Byte.to_N b).

(** The [k] low-order base-256 digits of [v], most significant first. *)
Fixpoint be_bytes (k : nat) (v : Z) : bytes :=
  match k with
  | O => []
  | S k' => be_bytes k' (v / 256) ++ [byte_of_Z (v mod 256)]
  end.

(** The unsigned value of a big-endian byte string. *)
Definition be_value (bs : bytes) : Z :=
  fold_left (fun acc b => acc * 256 + Z_of_byte b) bs 0.

Definition INT_MIN : Z := - 2 ^ 31.
Definition INT_MAX : Z := 2 ^ 31 - 1.

(** [struct.pack("!i", n)]: four bytes, two's complement, network order;
    [struct.error] outside the range of a C int. *)
Definition pack_i (n : Z) : Result bytes :=
  if (INT_MIN <=? n) && (n <=? INT_MAX)
  then Ok (be_bytes 4 (n mod 2 ^ 32))
  else Raise (StructError "argument out of range").

(** [struct.pack("!Q", n)]: eight bytes, unsigned, network order. *)
Definition pack_Q (n : Z) : Result bytes :=
  if (0 <=? n) && (n <? 2 ^ 64)
  then Ok (be_bytes 8 n)
  else Raise (StructError "argument out of range").

(** [struct.unpack("!i", buf)]: needs exactly four bytes. *)
Definition unpack_i (buf : bytes) : Result Z :=
  if (length buf =? 4)%nat
  then let u := be_value buf in
       Ok (if u <? 2 ^ 31 then u else u - 2 ^ 32)
  else Raise (StructError "unpack requires a buffer of 4 bytes").

(** [struct.unpack("!Q", buf)]: needs exactly eight bytes. *)
Definition unpack_Q (buf : bytes) : Result Z :=
  if (length buf =? 8)%nat
  then Ok (be_value buf)
  else Raise (StructError "unpack requires a buffer of 8 bytes").

End Struct.
Import Struct.

(* ===================================================================== *)
(** ** Streams and the framed channel of [PosixWorkerProc]               *)
(* ===================================================================== *)

Module Pipes.

(** [trio.abc.ReceiveStream.receive_some(max_bytes)] and
    [trio.abc.SendStream.send_all(data)], the two operations the channel
    awaits on. *)
Class ReceiveStream (S : Type) := receive_some : Z -> M S bytes.
Class SendStream (S : Type) := send_all : bytes -> M S unit.

(** What the operating system does at one read of the pipe: it hands over
    some of the bytes that are there (a short read), or the awaiting task
    gets an exception (a cancellation, a broken resource). *)
Inductive ReadEv : Type :=
| Deliver (k : nat)
| ReadFails (e : PyExc).

(** The receiving [trio.lowlevel.FdStream]: the bytes the peer has written
    and that are not read yet, what the coming reads will do, and how many
    reads were made.  No byte pending means the peer closed the pipe. *)
Record FdRecvStream : Type := mkRecv {
  pending : bytes;
  schedule : list ReadEv;
  n_reads : nat
}.

(** [receive_some(max_bytes)] on the fd stream.  The count goes to
    [os.read] as a C [ssize_t]: the model is of the counts it accepts,
    those below [2 ^ 63], which the length of a buffer always is. *)
Definition fd_receive_some (max_bytes : Z) : M FdRecvStream bytes := fun s =>
  if max_bytes <? 1
  then (Raise (ValueError "max_bytes must be integer >= 1"), s)
  else match schedule s with
       | ReadFails e :: sch =>
           (Raise e, mkRecv (pending s) sch (S (n_reads s)))
       | Deliver k :: sch =>
           let m := Nat.min (Nat.max k 1) (Z.to_nat max_bytes) in
           (Ok (firstn m (pending s)),
            mkRecv (skipn m (pending s)) sch (S (n_reads s)))
       | [] =>
           let m := Z.to_nat max_bytes in
           (Ok (firstn m (pending s)),
            mkRecv (skipn m (pending s)) [] (S (n_reads s)))
       end.

#[export] Instance FdRecvStream_receive : ReceiveStream FdRecvStream :=
  fd_receive_some.

(** The sending [FdStream]: what went out at each [send_all], in order,
    and what each coming [send_all] will meet: nothing, or an exception
    (a cancellation, a broken pipe) after some of its bytes went out.
    [send_all] writes in a loop until all is written, so when it raises,
    fewer bytes than all have gone out, possibly none. *)
Record FdSendStream : Type := mkSend {
  written : list bytes;
  send_faults : list (option (nat * PyExc))
}.

(** The bytes of [data] that are out when [send_all] raises, the fault
    allowing for [k] bytes. *)
Definition partial_write (k : nat) (data : bytes) : list bytes :=
  match Nat.min k (Nat.pred (length data)) with
  | O => []
  | S m => [firstn (S m) data]
  end.

Definition fd_send_all (data : bytes) : M FdSendStream unit := fun s =>
  match send_faults s with
  | Some (k, e) :: fs => (Raise e, mkSend (written s ++ partial_write k data) fs)
  | None :: fs => (Ok tt, mkSend (written s ++ [data]) fs)
  | [] => (Ok tt, mkSend (written s ++ [data]) [])
  end.

#[export] Instance FdSendStream_send : SendStream FdSendStream := fd_send_all.

(** The bytes on the wire: the writes, back to back. *)
Definition wire (s : FdSendStream) : bytes := concat (written s).

Section Receive.
Context {S : Type} {RS : ReceiveStream S}.

(** The [while size:] loop of [_recv_exactly]; [result_bytes] is the
    bytearray filled so far.  Every turn that does not raise takes at
    least one byte off [size], which is what makes the loop end. *)
Equations? recv_loop (size : Z) (result_bytes : bytes) (s : S)
  : Result bytes * S by wf (Z.to_nat size) lt :=
recv_loop size result_bytes s with Z.eq_dec size 0 := {
  | left _ => (Ok result_bytes, s)
  | right _ with receive_some size s := {
    | (Raise e, s') => (Raise e, s')
    | (Ok partial_result, s') with Z.eq_dec (len partial_result) 0 := {
      | left _ =>
          (Raise (EndOfChannel "got end of file during message"), s')
      | right _ with Z_gt_dec (len partial_result) size := {
        | left _ => (Raise (RuntimeError "Oversized response"), s')
        | right _ =>
            recv_loop (size - len partial_result)
                      (result_bytes ++ partial_result) s' } } } }.
Proof. unfold len in *. lia. Qed.

Definition _recv_exactly (size : Z) : M S bytes := recv_loop size [].

Definition _recv : M S bytes :=
  (buf <- _recv_exactly 4 ;;
   size <- lift (unpack_i buf) ;;
   size <- (if size =? -1
            then buf <- _recv_exactly 8 ;; lift (unpack_Q buf)
            else ret size) ;;
   _recv_exactly size)%py.
End Receive.

Section Send.
Context {S : Type} {SS : SendStream S}.

Definition _send (buf : bytes) : M S unit :=
  (let n := len buf in
   if n >? 0x7FFFFFFF
   then pre_header <- lift (pack_i (-1)) ;;
        header <- lift (pack_Q n) ;;
        send_all pre_header ;;;
        send_all header ;;;
        send_all buf
   else header <- lift (pack_i n) ;;
        if n >? 16384
        then send_all header ;;; send_all buf
        else send_all (header ++ buf))%py.
End Send.

(** One message as it travels: what [_send] writes for it on a fresh
    stream.  The [Connection] objects of [multiprocessing] in the child use
    the same framing. *)
Definition frame (buf : bytes) : bytes :=
  wire (snd (_send buf (mkSend [] []))).

(** No coming read of the stream raises. *)
Definition is_deliver (ev : ReadEv) : bool :=
  match ev with Deliver _ => true | ReadFails _ => false end.
Definition fault_free (sch : list ReadEv) : bool := forallb is_deliver sch.

(** The signed and the unsigned reading of a big-endian byte string. *)
Definition be_signed (bs : bytes) : Z :=
  let u := be_value bs in
  if u <? 256 ^ len bs / 2 then u else u - 256 ^ len bs.
Definition be_unsigned (bs : bytes) : Z := be_value bs.

End Pipes.
Import Pipes.


(* ===================================================================== *)
(** ** The result envelope ([outcome.Value] / [outcome.Error])           *)
(* ===================================================================== *)

Module Envelope.

Inductive Outcome (Val : Type) : Type :=
| Value (v : Val)
| Error (e : PyExc).
Arguments Value {Val} v.
Arguments Error {Val} e.

(** [outcome.capture(sync_fn, *args)]: the value, or whatever was raised
    ([except BaseException]). *)
Definition capture {St Val} (m : M St Val) : M St (Outcome Val) :=
  fun s => match m s with
           | (Ok v, s') => (Ok (Value v), s')
           | (Raise e, s') => (Ok (Error e), s')
           end.

(** [result.unwrap()]: return the value or re-raise the exception. *)
Definition unwrap {Val} (o : Outcome Val) : Result Val :=
  match o with
  | Value v => Ok v
  | Error e => Raise e
  end.

(** The envelope of a call that has no effect: [capture] on a result. *)
Definition envelope_of {Val} (r : Result Val) : Outcome Val :=
  match r with
  | Ok v => Value v
  | Raise e => Error e
  end.

End Envelope.
Import Envelope.

(* ===================================================================== *)
(** ** The child process: [WorkerProcBase._work]                         *)
(* ===================================================================== *)

Module Worker.

(** [IDLE_TIMEOUT = 60 * 10] of [_proc.py]. *)
Definition IDLE_TIMEOUT : Z := 60 * 10.

(** What one [barrier.wait(timeout)] of the child meets: the host arrived
    (the child is woken), or the barrier is broken (aborted by a kill, or
    the wait timed out) and [BrokenBarrierError] is raised. *)
Inductive BarrierResult : Type :=
| Released
| Broken.

Section Work.
(** Callables, argument tuples and values, with what the child needs of
    them: calling, [inspect.iscoroutine], the name shown in the error
    message, and the codec of [multiprocessing]'s [Connection]. *)
Context {Fn Args Val : Type}.
Variable call : Fn -> Args -> Result Val.
Variable iscoroutine : Val -> bool.
Variable qualname : Fn -> string.
Variable loads_job : bytes -> Result (Fn * Args).
Variable dumps_outcome : Outcome Val -> Result bytes.

(** What the child does that the host or a test can observe. *)
Inductive Event : Type :=
| EvBarrierWait (timeout : Z)
| EvRecv
| EvClose (coroutine : Val)
| EvSend (result : Outcome Val).

(** The child's two pipe ends, message by message (the [Connection]
    object frames and unframes them), and its log.  An empty [inbox] at
    a [recv()] means the host end is closed. *)
Record WorkerSt : Type := mkWorker {
  inbox : list bytes;
  outbox : list bytes;
  log : list Event
}.

Definition emit (ev : Event) : M WorkerSt unit :=
  modify (fun w => mkWorker (inbox w) (outbox w) (log w ++ [ev])).

(** [recv_pipe.recv()]. *)
Definition pipe_recv : M WorkerSt (Fn * Args) := fun w =>
  match inbox w with
  | [] => (Raise EOFError, mkWorker [] (outbox w) (log w ++ [EvRecv]))
  | msg :: rest =>
      (loads_job msg, mkWorker rest (outbox w) (log w ++ [EvRecv]))
  end.

(** [send_pipe.send(result)]. *)
Definition pipe_send (result : Outcome Val) : M WorkerSt unit :=
  (buf <- lift (dumps_outcome result) ;;
   modify (fun w => mkWorker (inbox w) (outbox w ++ [buf])
                             (log w ++ [EvSend result])))%py.

Definition async_message (fn : Fn) : string :=
  ("trio-parallel worker expected a sync function, but " ++ qualname fn ++
   " appears to be asynchronous")%string.

Definition coroutine_checker (fn : Fn) (args : Args) : M WorkerSt Val :=
  (ret_ <- lift (call fn args) ;;
   if iscoroutine ret_
   then emit (EvClose ret_) ;;; raise (TypeError (async_message fn))
   else ret ret_)%py.

(** What [capture] of [coroutine_checker] comes to (see [capture_checker]
    below): the envelope of a job, and the coroutines closed on the way. *)
Definition job_outcome (fn : Fn) (args : Args) : Outcome Val :=
  match call fn args with
  | Ok v => if iscoroutine v
            then Error (TypeError (async_message fn))
            else Value v
  | Raise e => Error e
  end.
Definition job_closes (fn : Fn) (args : Args) : list Event :=
  match call fn args with
  | Ok v => if iscoroutine v then [EvClose v] else []
  | Raise _ => []
  end.

(** The body of the [while True:] loop once the barrier released. *)
Definition serve_one : M WorkerSt unit :=
  (job <- pipe_recv ;;
   result <- capture (coroutine_checker (fst job) (snd job)) ;;
   pipe_send result)%py.

(** [_work(barrier, recv_pipe, send_pipe)]: the barrier argument is what
    its successive waits will meet; past the end of the list nobody
    arrives any more and the wait times out. *)
Fixpoint _work (barrier : list BarrierResult) : M WorkerSt unit :=
  match barrier with
  | Released :: later =>
      (emit (EvBarrierWait IDLE_TIMEOUT) ;;; serve_one ;;; _work later)%py
  | Broken :: _ | [] =>
      emit (EvBarrierWait IDLE_TIMEOUT)
  end.

(** The exit code [multiprocessing] reports: 0 when the target returned,
    1 when it raised. *)
Definition exitcode (r : Result unit) : Z :=
  match r with Ok _ => 0 | Raise _ => 1 end.

Definition waits (l : list Event) : list Z :=
  flat_map (fun ev => match ev with EvBarrierWait t => [t] | _ => [] end) l.
End Work.

End Worker.
Import Worker.

(* ===================================================================== *)
(** ** The host-side handle: [WorkerProcBase] over [PosixWorkerProc]     *)
(* ===================================================================== *)

Module Handle.

(** The [multiprocessing.Barrier(2)] as the host reads and aborts it. *)
Record Barrier : Type := mkBarrier {
  n_waiting : nat;
  broken : bool
}.

Inductive Signal : Type := SIGKILL | SIGTERM.

(** The [multiprocessing.Process]: whether it has a [kill] method (it is
    missing before Python 3.7), and the signals sent to it. *)
Record Process : Type := mkProcess {
  proc_repr : string;
  has_kill : bool;
  signals : list Signal
}.

Record WorkerProc : Type := mkHandle {
  _barrier : Barrier;
  _proc : Process;
  _started : bool;
  _send_stream : FdSendStream;
  _recv_stream : FdRecvStream
}.

(** Run a stream operation on the stream the handle owns. *)
Definition on_send_stream {A} (m : M FdSendStream A) : M WorkerProc A :=
  fun h => let (r, s) := m (_send_stream h) in
           (r, mkHandle (_barrier h) (_proc h) (_started h) s (_recv_stream h)).
Definition on_recv_stream {A} (m : M FdRecvStream A) : M WorkerProc A :=
  fun h => let (r, s) := m (_recv_stream h) in
           (r, mkHandle (_barrier h) (_proc h) (_started h) (_send_stream h) s).

(** [self._barrier.abort()], then [self._proc.kill()], falling back to
    [terminate()] on [AttributeError].  A process that was never started
    has nothing to signal ([Process._popen] is [None]): [kill()] and then
    [terminate()] raise [AttributeError], and the second one leaves
    [kill]; the barrier is aborted by then. *)
Definition kill : M WorkerProc unit := fun h =>
  let aborted := mkBarrier (n_waiting (_barrier h)) true in
  if _started h
  then (Ok tt,
        mkHandle aborted
          (mkProcess (proc_repr (_proc h)) (has_kill (_proc h))
             (signals (_proc h) ++
              [if has_kill (_proc h) then SIGKILL else SIGTERM]))
          (_started h) (_send_stream h) (_recv_stream h))
  else (Raise (AttributeError "'NoneType' object has no attribute 'terminate'"),
        mkHandle aborted (_proc h) (_started h) (_send_stream h) (_recv_stream h)).

Definition killed (h : WorkerProc) : Prop :=
  broken (_barrier h) = true /\ signals (_proc h) <> [].

Definition died_unexpectedly (h : WorkerProc) : string :=
  (proc_repr (_proc h) ++ " died unexpectedly")%string.

Section RunSync.
Context {Fn Args Val : Type}.
(** [ForkingPickler.dumps] on a job and [ForkingPickler.loads] on a reply. *)
Variable dumps_job : Fn * Args -> Result bytes.
Variable loads_outcome : bytes -> Result (Outcome Val).

(** The [try:] block of [run_sync]. *)
Definition exchange (sync_fn : Fn) (args : Args) : M WorkerProc (Outcome Val) :=
  (buf <- lift (dumps_job (sync_fn, args)) ;;
   on_send_stream (_send buf) ;;;
   reply <- on_recv_stream _recv ;;
   lift (loads_outcome reply))%py.

Definition run_sync (sync_fn : Fn) (args : Args) : M WorkerProc Val :=
  (self <- get ;;
   if negb (n_waiting (_barrier self) =? 0)%nat
   then raise (AssertionError "Must first wake_up() the worker")
   else
     result <- try_except (exchange sync_fn args)
                 (fun e =>
                    if is_EndOfChannel e
                    then kill ;;; raise (BrokenWorkerError (died_unexpectedly self))
                    else kill ;;; raise e) ;;
     lift (unwrap result))%py.
End RunSync.

End Handle.

(* ===================================================================== *)
(** ** [collections.deque] and [ProcCache] ([_worker_processes.py])      *)
(* ===================================================================== *)

Module Deque.

(** A deque is written left to right: [append] and [pop] work on the
    right end, [appendleft] and [popleft] on the left end.  Both pops
    raise [IndexError] on an empty deque, here [None]. *)
Definition append {A} (d : list A) (x : A) : list A := d ++ [x].
Definition appendleft {A} (d : list A) (x : A) : list A := x :: d.
Definition popleft {A} (d : list A) : option (A * list A) :=
  match d with
  | [] => None
  | x :: rest => Some (x, rest)
  end.
Definition pop {A} (d : list A) : option (A * list A) :=
  match rev d with
  | [] => None
  | x :: rest => Some (x, rev rest)
  end.

Definition inspect {A} (a : A) : {b : A | a = b} := exist _ a eq_refl.

Lemma pop_shorter {A} (d d' : list A) (x : A) :
  pop d = Some (x, d') -> (length d' < length d)%nat.
Proof.
  unfold pop. intros E.
  destruct (rev d) as [|y r] eqn:R; [discriminate|].
  injection E as -> <-.
  rewrite length_rev, <- (length_rev d), R. simpl. lia.
Qed.

End Deque.

Module Cache.

Section ProcCache.
(** Handles, and what [proc.is_alive()] answers for each. *)
Context {H : Type}.
Variable is_alive : H -> bool.

(** [ProcCache.prune]: from the left (oldest) end, drop handles until a
    live one is met, which is put back; the [IndexError] of [popleft]
    on the emptied deque ends the loop. *)
Fixpoint prune (_cache : list H) : list H :=
  match _cache with
  | [] => []
  | proc :: rest =>
      if is_alive proc then Deque.appendleft rest proc else prune rest
  end.

(** [ProcCache.push]. *)
Definition push (_cache : list H) (proc : H) : list H :=
  Deque.append _cache proc.

(** [ProcCache.pop]: "Get live worker process or raise IndexError".
    The deque is mutated in place, so the handles popped before the
    [IndexError] stay removed. *)
Equations? pop (_cache : list H) : Result H * list H
  by wf (length _cache) lt :=
pop _cache with Deque.inspect (Deque.pop _cache) := {
  | exist _ None _ => (Raise (IndexError "pop from an empty deque"), _cache)
  | exist _ (Some (proc, rest)) E with is_alive proc := {
    | true => (Ok proc, rest)
    | false => pop rest } }.
Proof. eapply Deque.pop_shorter; eauto. Qed.

(** [ProcCache.__len__]. *)
Definition cache_len (_cache : list H) : Z := len _cache.
End ProcCache.

End Cache.

(* ===================================================================== *)
(** ** [_impl.py]: the default limiter, [cache_scope] and [run_sync]     *)
(* ===================================================================== *)

Module Impl.

(** The members of the [WorkerType] enum, as its docstring lists them. *)
Inductive WorkerType : Type := SPAWN | FORKSERVER | FORK.

(** A [trio.CapacityLimiter] object. *)
Record CapacityLimiter : Type := mkLimiter { total_tokens : Z }.

(** [DEFAULT_LIMIT = os.cpu_count() or 1]. *)
Definition DEFAULT_LIMIT (os_cpu_count : option N) : Z :=
  match os_cpu_count with
  | Some n => if (n =? 0)%N then 1 else Z.of_N n
  | None => 1
  end.

(** The state of one [trio.run]: the limiter objects that exist, by
    identity, and the run-local variable [_limiter_local]. *)
Record Run : Type := mkRun {
  limiters : gmap nat CapacityLimiter;
  _limiter_local : option nat
}.

Section Limiter.
Variable os_cpu_count : option N.

(** [_limiter_local.get()]: [LookupError] while the variable is unset. *)
Definition RunVar_get : M Run nat := fun r =>
  match _limiter_local r with
  | Some limiter => (Ok limiter, r)
  | None => (Raise LookupError, r)
  end.

Definition RunVar_set (limiter : nat) : M Run unit :=
  modify (fun r => mkRun (limiters r) (Some limiter)).

(** [trio.CapacityLimiter(total_tokens)]: a new object. *)
Definition CapacityLimiter_new (tokens : Z) : M Run nat := fun r =>
  if tokens <? 1
  then (Raise (ValueError "total_tokens must be >= 1"), r)
  else let limiter := fresh (dom (limiters r)) in
       (Ok limiter,
        mkRun (<[limiter := mkLimiter tokens]> (limiters r)) (_limiter_local r)).

Definition current_default_worker_limiter : M Run nat :=
  try_except RunVar_get
    (fun e => match e with
              | LookupError =>
                  (limiter <- CapacityLimiter_new (DEFAULT_LIMIT os_cpu_count) ;;
                   RunVar_set limiter ;;;
                   ret limiter)%py
              | _ => raise e
              end).
End Limiter.

(** A [retire] predicate: what its successive calls answer. *)
Definition Retire : Type := nat -> bool.

(** The argument objects [cache_scope] tests with [isinstance] and
    [callable]: anything may be passed. *)
Inductive WorkerTypeArg : Type :=
| Member (t : WorkerType)
| NotMember (repr : string).

Inductive RetireArg : Type :=
| Callable (f : Retire)
| NotCallable (repr : string).

(** [idle_timeout < 0]. *)
Definition Qltb (x y : Q) : bool := negb (Qle_bool y x).

Section Dispatcher.
(** Jobs and values; handles [W], the classes of handles, and the rest
    of the world [E] (the processes, the trio scheduler). *)
Context {Fn Args Val W WorkerClass E : Type}.
Variable os_cpu_count : option N.
(** [WORKER_MAP[worker_type][0]]; the table is built from
    [WORKER_PROC_MAP], which this source tree does not define. *)
Variable WORKER_MAP : WorkerType -> WorkerClass.

Record WorkerContext : Type := mkContext {
  idle_timeout : Q;
  retire : Retire;
  worker_class : WorkerClass;
  worker_cache : nat
}.

(** The host process: the run state, the value of [_worker_context_var]
    in the current task, the cache objects by identity (each one a deque
    of handles), and the environment. *)
Record Host : Type := mkHost {
  run : Run;
  _worker_context_var : WorkerContext;
  caches : gmap nat (list W);
  env : E
}.

Definition on_run {A} (m : M Run A) : M Host A := fun h =>
  let (r, x) := m (run h) in
  (r, mkHost x (_worker_context_var h) (caches h) (env h)).
Definition on_env {A} (m : M E A) : M Host A := fun h =>
  let (r, x) := m (env h) in
  (r, mkHost (run h) (_worker_context_var h) (caches h) x).

Definition cache_of (ctx : WorkerContext) (h : Host) : list W :=
  default [] (caches h !! worker_cache ctx).
Definition set_cache (ctx : WorkerContext) (c : list W) : M Host unit :=
  modify (fun h => mkHost (run h) (_worker_context_var h)
                          (<[worker_cache ctx := c]> (caches h)) (env h)).

(** *** [cache_scope], up to its [yield] *)

(** [worker_cache()]: a new, empty cache object. *)
Definition new_cache : M Host nat := fun h =>
  let c := fresh (dom (caches h)) in
  (Ok c, mkHost (run h) (_worker_context_var h) (<[c := []]> (caches h)) (env h)).

(** [_worker_context_var.set(ctx)]; the token remembers the old value. *)
Definition context_var_set (ctx : WorkerContext) : M Host WorkerContext :=
  fun h => (Ok (_worker_context_var h),
            mkHost (run h) ctx (caches h) (env h)).

Definition cache_scope_enter (timeout : Q) (retire_arg : RetireArg)
    (worker_type : WorkerTypeArg) : M Host (WorkerContext * WorkerContext) :=
  match worker_type with
  | NotMember _ =>
      raise (ValueError "worker_type must be a member of WorkerType")
  | Member wt =>
      if Qltb timeout 0
      then raise (ValueError "idle_timeout must be non-negative")
      else match retire_arg with
           | NotCallable _ =>
               raise (ValueError "retire must be callable (with no arguments)")
           | Callable f =>
               (let worker_class := WORKER_MAP wt in
                cache <- new_cache ;;
                let worker_context := mkContext timeout f worker_class cache in
                token <- context_var_set worker_context ;;
                ret (worker_context, token))%py
           end
  end.

(** *** [run_sync] *)

(** What the dispatcher awaits or calls and [_impl.py] takes from
    elsewhere: the handle class [ctx.worker_class] (an [AbstractWorker],
    bound through [WORKER_MAP]), the cache's [prune], trio's checkpoint and
    the limiter.  The dispatcher reads what a handle's [run_sync] answers
    as [None] or a result envelope ([while result is None],
    [result.unwrap()]); the handle of [_proc.py] above has an earlier shape
    of that method, which unwraps the envelope itself.  The last argument
    of [proc_run_sync] is the [shield] of the cancel scope the call is
    awaited in.

    The limiter is any async context manager (the docstring says so):
    [limiter_enter] is its [__aenter__]; [limiter_exit] is its [__aexit__],
    called with the exception that is leaving the block ([None] when the
    block ended normally) and answering whether its return value is true,
    which makes Python swallow that exception and go on after the block.
    A [trio.CapacityLimiter] always answers false. *)
Variable worker_new : WorkerClass -> Q -> Retire -> M E W.
Variable proc_run_sync : W -> Fn -> Args -> bool -> M E (option (Outcome Val)).
Variable is_alive : E -> W -> bool.
Variable cache_prune : list W -> M E (list W).
Variable checkpoint_if_cancelled : M E unit.
Variable limiter_enter : nat -> M E unit.
Variable limiter_exit : nat -> option PyExc -> M E bool.

(** Modelled from the spec: the cache class of a context ([WorkerCache]
    of [_abc.py], in the implementation that [WORKER_PROC_MAP] names) is
    not among the sources.  Its [pop] follows section 4.D: remove and
    return the most recently pushed live handle, skip handles discovered
    dead (their slots are dropped), raise a not-found condition (the
    [IndexError] the dispatcher catches) when empty.  That is the scan
    [ProcCache.pop] of [_worker_processes.py] makes; a handle is live when
    [is_alive] says so in the present state of the world. *)
Definition WorkerCache_pop (world : E) (cache : list W) : Result W * list W :=
  Cache.pop (is_alive world) cache.

(** Modelled from the spec: [append] of the same absent class is the
    [push(h)] of section 4.D, append [h] to the hot end. *)
Definition WorkerCache_append (cache : list W) (proc : W) : list W :=
  Cache.push cache proc.

(** [isinstance(e, IndexError)], the test of [except IndexError:]. *)
Definition is_IndexError (e : PyExc) : bool :=
  match e with IndexError _ => true | _ => false end.

(** [ctx.worker_cache.prune()]. *)
Definition prune_cache (ctx : WorkerContext) : M Host unit :=
  (h <- get ;;
   c <- on_env (cache_prune (cache_of ctx h)) ;;
   set_cache ctx c)%py.

(** [try: proc = ctx.worker_cache.pop()]
    [except IndexError: proc = ctx.worker_class(ctx.idle_timeout, ctx.retire)]. *)
Definition take_worker (ctx : WorkerContext) : M Host W := fun h =>
  match WorkerCache_pop (env h) (cache_of ctx h) with
  | (Ok proc, rest) => (Ok proc, snd (set_cache ctx rest h))
  | (Raise e, rest) =>
      if is_IndexError e
      then on_env (worker_new (worker_class ctx) (idle_timeout ctx) (retire ctx))
             (snd (set_cache ctx rest h))
      else (Raise e, snd (set_cache ctx rest h))
  end.

(** One turn of [while result is None:].  Beside what the turn gives,
    the handle the local variable [proc] is bound to when the turn is
    over ([bound] is its binding before the turn, [None] while it has
    none): the statements after the block read that variable. *)
Definition attempt (ctx : WorkerContext) (sync_fn : Fn) (args : Args)
    (cancellable : bool) (bound : option W) (h : Host)
  : Result (option (Outcome Val)) * option W * Host :=
  match on_env checkpoint_if_cancelled h with
  | (Raise e, ha) => (Raise e, bound, ha)
  | (Ok _, ha) =>
      match take_worker ctx ha with
      | (Raise e, hb) => (Raise e, bound, hb)
      | (Ok proc, hb) =>
          let (r, hc) :=
            on_env (proc_run_sync proc sync_fn args (negb cancellable)) hb in
          (r, Some proc, hc)
      end
  end.

(** The loop may go on for ever (a [retire] that is truthy at its first
    call makes every new worker answer [None]); [None] here means that
    [fuel] turns did not produce a result. *)
Fixpoint attempts (fuel : nat) (ctx : WorkerContext) (sync_fn : Fn)
    (args : Args) (cancellable : bool) (bound : option W) (h : Host)
  : option (Result (Outcome Val) * option W * Host) :=
  match fuel with
  | O => None
  | S fuel' =>
      match attempt ctx sync_fn args cancellable bound h with
      | (Raise e, bound', h') => Some (Raise e, bound', h')
      | (Ok None, bound', h') =>
          attempts fuel' ctx sync_fn args cancellable bound' h'
      | (Ok (Some result), bound', h') => Some (Ok result, bound', h')
      end
  end.

(** The body of [async with limiter:]: how it ends (with the envelope in
    [result], or by an exception), and the binding of [proc] then. *)
Definition limited (fuel : nat) (ctx : WorkerContext) (sync_fn : Fn)
    (args : Args) (cancellable : bool) (h : Host)
  : option (Result (Outcome Val) * option W * Host) :=
  match prune_cache ctx h with
  | (Raise e, h') => Some (Raise e, None, h')
  | (Ok _, h') => attempts fuel ctx sync_fn args cancellable None h'
  end.

(** [if limiter is None: limiter = current_default_worker_limiter()]. *)
Definition pick_limiter (limiter : option nat) : M Host nat :=
  match limiter with
  | None => on_run (current_default_worker_limiter os_cpu_count)
  | Some l => ret l
  end.

(** The two statements after the block, [ctx.worker_cache.append(proc)]
    and [return result.unwrap()].  [result] is an envelope when the block
    ended normally; when the block was left by an exception that the
    limiter swallowed, [result] is still [None] (here [None] too), and
    [proc] is unbound if no turn got as far as a handle. *)
Definition after_block (ctx : WorkerContext) (bound : option W)
    (result : option (Outcome Val)) : M Host Val :=
  match bound with
  | None => raise (UnboundLocalError "proc")
  | Some proc =>
      (h <- get ;;
       set_cache ctx (WorkerCache_append (cache_of ctx h) proc) ;;;
       match result with
       | None =>
           raise (AttributeError "'NoneType' object has no attribute 'unwrap'")
       | Some envelope => lift (unwrap envelope)
       end)%py
  end.

Definition run_sync (fuel : nat) (sync_fn : Fn) (args : Args)
    (cancellable : bool) (limiter : option nat) (h : Host)
  : option (Result Val * Host) :=
  match pick_limiter limiter h with
  | (Raise e, h0) => Some (Raise e, h0)
  | (Ok limiter, h0) =>
      let ctx := _worker_context_var h0 in
      match on_env (limiter_enter limiter) h0 with
      | (Raise e, h1) => Some (Raise e, h1)
      | (Ok _, h1) =>
          match limited fuel ctx sync_fn args cancellable h1 with
          | None => None
          | Some (Ok result, bound, h2) =>
              match on_env (limiter_exit limiter None) h2 with
              | (Raise e, h3) => Some (Raise e, h3)
              | (Ok _, h3) => Some (after_block ctx bound (Some result) h3)
              end
          | Some (Raise e, bound, h2) =>
              match on_env (limiter_exit limiter (Some e)) h2 with
              | (Raise e', h3) => Some (Raise e', h3)
              | (Ok true, h3) => Some (after_block ctx bound None h3)
              | (Ok false, h3) => Some (Raise e, h3)
              end
          end
      end
  end.
End Dispatcher.

End Impl.

(* ===================================================================== *)
(** ** A concrete worker and a concrete host, for the examples

    Callables are numbered: 0 squares its argument, 1 divides by zero, 2 is
    an [async def] (calling it gives a coroutine object, here the value
    1000), anything else returns its argument.  A job travels as two bytes
    and an envelope as two bytes. *)

Module Toy.

Definition call (fn : nat) (x : Z) : Result Z :=
  match fn with
  | 0%nat => Ok (x * x)
  | 1%nat => Raise (UserError "ZeroDivisionError" "division by zero")
  | 2%nat => Ok 1000
  | _ => Ok x
  end.
Definition iscoroutine (v : Z) : bool := v =? 1000.
Definition qualname (fn : nat) : string :=
  match fn with 2%nat => "async_fn" | _ => "fn" end.

Definition dumps_job (job : nat * Z) : Result bytes :=
  Ok [byte_of_Z (Z.of_nat (fst job)); byte_of_Z (snd job)].
Definition loads_job (buf : bytes) : Result (nat * Z) :=
  match buf with
  | [f; x] => Ok (Z.to_nat (Z_of_byte f), Z_of_byte x)
  | _ => Raise (UserError "UnpicklingError" "bad job")
  end.
Definition dumps_outcome (o : Outcome Z) : Result bytes :=
  match o with
  | Value v => Ok [x00; byte_of_Z v]
  | Error (TypeError _) => Ok [x01; x00]
  | Error _ => Ok [x02; x00]
  end.
Definition loads_outcome (buf : bytes) : Result (Outcome Z) :=
  match buf with
  | [x00; v] => Ok (Value (Z_of_byte v))
  | [x01; _] => Ok (Error (TypeError (async_message qualname 2%nat)))
  | [x02; _] => Ok (Error (UserError "ZeroDivisionError" "division by zero"))
  | _ => Raise (UserError "UnpicklingError" "bad envelope")
  end.

Definition work := _work call iscoroutine qualname loads_job dumps_outcome.

End Toy.

(** Handles are numbers; the environment counts the workers created so
    far.  A worker answers a job with the envelope of the call, except
    worker 13, which fails with [BrokenWorkerError]; worker 11 has
    exited.  Limiter 77 is a context manager whose [__aexit__] returns
    true; every other limiter returns false, as a [CapacityLimiter]. *)

Module ToyHost.

Definition worker_new (_ : unit) (_ : Q) (_ : Impl.Retire) : M nat nat :=
  fun created => (Ok created, Datatypes.S created).
Definition proc_run_sync (proc : nat) (fn : nat) (x : Z) (shield : bool)
  : M nat (option (Outcome Z)) :=
  if (proc =? 13)%nat
  then raise (BrokenWorkerError "worker 13 died unexpectedly")
  else ret (Some (envelope_of (Toy.call fn x))).
Definition is_alive (_ : nat) (proc : nat) : bool := negb (proc =? 11)%nat.
Definition cache_prune (c : list nat) : M nat (list nat) := ret c.
Definition checkpoint_if_cancelled : M nat unit := ret tt.
Definition limiter_enter (_ : nat) : M nat unit := ret tt.
Definition limiter_exit (limiter : nat) (_ : option PyExc) : M nat bool :=
  ret (limiter =? 77)%nat.

Definition run_sync :=
  @Impl.run_sync nat Z Z nat unit nat (Some 4%N) worker_new proc_run_sync
    is_alive cache_prune checkpoint_if_cancelled limiter_enter limiter_exit.

(** The default context, its cache (object 0) holding the given handles. *)
Definition host (cache : list nat) : @Impl.Host nat unit nat :=
  Impl.mkHost (Impl.mkRun ∅ None)
    (Impl.mkContext 600 (fun _ => false) tt 0%nat)
    {[ 0%nat := cache ]} 100%nat.

Definition cache_after (r : option (Result Z * @Impl.Host nat unit nat))
  : option (list nat) :=
  match r with
  | Some (_, h) => Impl.caches h !! 0%nat
  | None => None
  end.

End ToyHost.

(* ===================================================================== *)
(** ** More of the handle: [wake_up] and the process object             *)
(* ===================================================================== *)

Module Wake.
Import Handle.

(** The handle together with what [wake_up] does to the process object:
    how many times [self._proc.start()] was called and how many times
    [self._proc.join()] ran. *)
Record Started : Type := mkStarted {
  handle : WorkerProc;
  starts : nat;
  joins : nat
}.

Definition mark_started (h : WorkerProc) : WorkerProc :=
  mkHandle (_barrier h) (_proc h) true (_send_stream h) (_recv_stream h).

(** [if not self._started: self._proc.start(); self._started = True].
    [start] is what [start()] meets if it is called: nothing, or an
    exception (the operating system refuses the process).  The flag is
    set after the call, so a [start()] that raised leaves it unset. *)
Definition start_process (start : option PyExc) : M Started unit := fun s =>
  if _started (handle s)
  then (Ok tt, s)
  else match start with
       | Some e => (Raise e, mkStarted (handle s) (S (starts s)) (joins s))
       | None =>
           (Ok tt, mkStarted (mark_started (handle s)) (S (starts s)) (joins s))
       end.

(** The [try: self._barrier.wait(timeout)] and its [except] clause.
    [wait] is what the wait meets and [alive] what
    [self._proc.is_alive()] answers if it is asked. *)
Definition barrier_wait (wait : BarrierResult) (alive : bool) : M Started unit :=
  fun s =>
    match wait with
    | Released => (Ok tt, s)
    | Broken =>
        if alive
        then match kill (handle s) with
             | (Ok _, h') =>
                 (Raise (BrokenWorkerError (died_unexpectedly h')),
                  mkStarted h' (starts s) (S (joins s)))
             | (Raise e, h') => (Raise e, mkStarted h' (starts s) (joins s))
             end
        else (Raise (BrokenWorkerError (died_unexpectedly (handle s))), s)
    end.

(** [wake_up(timeout)]. *)
Definition wake_up (start : option PyExc) (wait : BarrierResult) (alive : bool)
  : M Started unit :=
  (start_process start ;;; barrier_wait wait alive)%py.

(** A caller that wakes the worker again and again, whatever each call
    raised. *)
Fixpoint wake_ups (calls : list (option PyExc * BarrierResult * bool))
    (s : Started) : Started :=
  match calls with
  | [] => s
  | (start, wait, alive) :: later =>
      wake_ups later (snd (wake_up start wait alive s))
  end.

End Wake.

(* ===================================================================== *)
(** ** Successive [pop]s of a [ProcCache]                                *)
(* ===================================================================== *)

Module CacheOps.

(** [n] successive [pop]s, stopping at the first [IndexError]: the
    handles obtained, in the order obtained, and the cache left. *)
Fixpoint pops {H : Type} (is_alive : H -> bool) (n : nat) (_cache : list H)
  : list H * list H :=
  match n with
  | O => ([], _cache)
  | Datatypes.S k =>
      match Cache.pop is_alive _cache with
      | (Ok proc, rest) =>
          let (procs, left) := pops is_alive k rest in (proc :: procs, left)
      | (Raise _, rest) => ([], rest)
      end
  end.

End CacheOps.

(* ===================================================================== *)
(** ** [_impl.py]: the whole of [cache_scope]                            *)
(* ===================================================================== *)

Module Scope.
Import Impl.

Section CacheScope.
Context {W WorkerClass E : Type}.
Variable WORKER_MAP : WorkerType -> WorkerClass.
(** [await worker_context.worker_cache.clear()], a method of the cache
    class: what it leaves in the cache it is called on. *)
Variable cache_clear : list W -> M E (list W).

(** The [finally:] block: [_worker_context_var.reset(token)], then the
    cache of the scope is cleared. *)
Definition cache_scope_exit (worker_context token : @WorkerContext WorkerClass)
  : M (@Host W WorkerClass E) unit :=
  (modify (fun h => mkHost (run h) token (caches h) (env h)) ;;;
   h <- get ;;
   c <- on_env (cache_clear (cache_of worker_context h)) ;;
   set_cache worker_context c)%py.

(** [async with cache_scope(idle_timeout, retire, worker_type): body].
    The body runs at the [yield]; the [finally:] block runs whether the
    body returned or raised, and what it raises itself takes over. *)
Definition cache_scope {A} (timeout : Q) (retire_arg : RetireArg)
    (worker_type : WorkerTypeArg) (body : M (@Host W WorkerClass E) A)
  : M (@Host W WorkerClass E) A :=
  fun h =>
    match cache_scope_enter WORKER_MAP timeout retire_arg worker_type h with
    | (Raise e, h1) => (Raise e, h1)
    | (Ok (worker_context, token), h1) =>
        let (r, h2) := body h1 in
        match cache_scope_exit worker_context token h2 with
        | (Ok _, h3) => (r, h3)
        | (Raise e, h3) => (Raise e, h3)
        end
    end.
End CacheScope.

End Scope.

(* ===================================================================== *)
(** ** [_worker_processes.py]: the earlier limiter and dispatcher        *)
(* ===================================================================== *)

Module Legacy.

(** [DEFAULT_LIMIT = os.cpu_count()]: here without a fallback. *)
Definition DEFAULT_LIMIT (os_cpu_count : option N) : option N := os_cpu_count.

(** The state of one [trio.run] as this module sees it: the limiter
    objects that exist and the module's own run-local variable,
    [_limiter_local = trio.lowlevel.RunVar("proc_limiter")], an object
    of [_worker_processes.py] that [_impl.py] neither reads nor sets. *)
Record Run : Type := mkRun {
  limiters : gmap nat Impl.CapacityLimiter;
  _limiter_local : option nat
}.

Definition RunVar_get : M Run nat := fun r =>
  match _limiter_local r with
  | Some limiter => (Ok limiter, r)
  | None => (Raise LookupError, r)
  end.

Definition RunVar_set (limiter : nat) : M Run unit :=
  modify (fun r => mkRun (limiters r) (Some limiter)).

(** [trio.CapacityLimiter(total_tokens)] on what [os.cpu_count()] gave:
    a new object; trio refuses what is not an integer with [TypeError]
    and what is below 1 with [ValueError]. *)
Definition CapacityLimiter_of (tokens : option N) : M Run nat := fun r =>
  match tokens with
  | None => (Raise (TypeError "total_tokens must be an int or math.inf"), r)
  | Some n =>
      if (n <? 1)%N
      then (Raise (ValueError "total_tokens must be >= 1"), r)
      else let limiter := fresh (dom (limiters r)) in
           (Ok limiter,
            mkRun (<[limiter := Impl.mkLimiter (Z.of_N n)]> (limiters r))
                  (_limiter_local r))
  end.

Definition current_default_process_limiter (os_cpu_count : option N) : M Run nat :=
  try_except RunVar_get
    (fun e => match e with
              | LookupError =>
                  (limiter <- CapacityLimiter_of (DEFAULT_LIMIT os_cpu_count) ;;
                   RunVar_set limiter ;;;
                   ret limiter)%py
              | _ => raise e
              end).

Definition is_BrokenResourceError (e : PyExc) : bool :=
  match e with BrokenResourceError _ => true | _ => false end.

Section Dispatcher.
(** Handles [W] and the world [E] (the processes, the trio scheduler);
    [is_alive] is what [proc.is_alive()] answers in a state of the world,
    [spawn] is [await trio.to_thread.run_sync(WorkerProc)], and a handle's
    [run_sync] returns the job's value or raises. *)
Context {Fn Args Val W E : Type}.
Variable os_cpu_count : option N.
Variable is_alive : E -> W -> bool.
Variable spawn : M E W.
Variable proc_run_sync : W -> Fn -> Args -> bool -> M E Val.
Variable limiter_enter : nat -> M E unit.
Variable limiter_exit : nat -> M E unit.

(** The process: the run state, the global [PROC_CACHE], the world. *)
Record Host : Type := mkHost {
  run : Run;
  PROC_CACHE : list W;
  world : E
}.

Definition on_run {A} (m : M Run A) : M Host A := fun h =>
  let (r, x) := m (run h) in (r, mkHost x (PROC_CACHE h) (world h)).
Definition on_world {A} (m : M E A) : M Host A := fun h =>
  let (r, x) := m (world h) in (r, mkHost (run h) (PROC_CACHE h) x).

(** [PROC_CACHE.prune()]. *)
Definition prune_cache : M Host unit :=
  modify (fun h => mkHost (run h)
                     (Cache.prune (is_alive (world h)) (PROC_CACHE h)) (world h)).

(** [try: proc = PROC_CACHE.pop()]
    [except IndexError: proc = await trio.to_thread.run_sync(WorkerProc)]. *)
Definition take_worker : M Host W := fun h =>
  match Cache.pop (is_alive (world h)) (PROC_CACHE h) with
  | (Ok proc, rest) => (Ok proc, mkHost (run h) rest (world h))
  | (Raise (IndexError _), rest) => on_world spawn (mkHost (run h) rest (world h))
  | (Raise e, rest) => (Raise e, mkHost (run h) rest (world h))
  end.

(** [finally: if proc.is_alive(): PROC_CACHE.push(proc)]. *)
Definition put_back (proc : W) (h : Host) : Host :=
  if is_alive (world h) proc
  then mkHost (run h) (Cache.push (PROC_CACHE h) proc) (world h)
  else h.

(** One turn of [while True:]: [Some v] is [return v], [None] is the
    [pass] after [BrokenResourceError], which goes round again. *)
Definition turn (sync_fn : Fn) (args : Args) (cancellable : bool)
  : M Host (option Val) :=
  (proc <- take_worker ;;
   fun h =>
     let (r, h1) := on_world (proc_run_sync proc sync_fn args (negb cancellable)) h in
     let h2 := put_back proc h1 in
     match r with
     | Ok v => (Ok (Some v), h2)
     | Raise e => if is_BrokenResourceError e
                  then (Ok None, h2)
                  else (Raise e, h2)
     end)%py.

Fixpoint turns (fuel : nat) (sync_fn : Fn) (args : Args) (cancellable : bool)
    (h : Host) : option (Result Val * Host) :=
  match fuel with
  | O => None
  | Datatypes.S fuel' =>
      match turn sync_fn args cancellable h with
      | (Raise e, h') => Some (Raise e, h')
      | (Ok None, h') => turns fuel' sync_fn args cancellable h'
      | (Ok (Some v), h') => Some (Ok v, h')
      end
  end.

(** [if limiter is None: limiter = current_default_process_limiter()]. *)
Definition pick_limiter (limiter : option nat) : M Host nat :=
  match limiter with
  | None => on_run (current_default_process_limiter os_cpu_count)
  | Some l => ret l
  end.

Definition to_process_run_sync (fuel : nat) (sync_fn : Fn) (args : Args)
    (cancellable : bool) (limiter : option nat) (h : Host)
  : option (Result Val * Host) :=
  match pick_limiter limiter h with
  | (Raise e, h0) => Some (Raise e, h0)
  | (Ok limiter, h0) =>
      match on_world (limiter_enter limiter) h0 with
      | (Raise e, h1) => Some (Raise e, h1)
      | (Ok _, h1) =>
          match turns fuel sync_fn args cancellable (snd (prune_cache h1)) with
          | None => None
          | Some (body, h2) =>
              match on_world (limiter_exit limiter) h2 with
              | (Raise e, h3) => Some (Raise e, h3)
              | (Ok _, h3) => Some (body, h3)
              end
          end
      end
  end.
End Dispatcher.

End Legacy.

(** Handles are numbers; the world is the number of workers spawned so
    far and the handles whose process has exited.  Worker 13 has timed
    out: its pipe is closed and the call finds its process gone. *)

Module ToyLegacy.

Record World : Type := mkWorld { spawned : nat; exited : list nat }.

Definition is_alive (w : World) (proc : nat) : bool :=
  negb (existsb (Nat.eqb proc) (exited w)).
Definition spawn : M World nat := fun w =>
  (Ok (spawned w), mkWorld (Datatypes.S (spawned w)) (exited w)).
Definition proc_run_sync (proc fn : nat) (x : Z) (shield : bool) : M World Z :=
  fun w =>
    if (proc =? 13)%nat
    then (Raise (BrokenResourceError "worker 13 timed out"),
          mkWorld (spawned w) (13%nat :: exited w))
    else (Toy.call fn x, w).
Definition limiter_enter (_ : nat) : M World unit := ret tt.
Definition limiter_exit (_ : nat) : M World unit := ret tt.

Definition to_process_run_sync :=
  @Legacy.to_process_run_sync nat Z Z nat World (Some 4%N) is_alive spawn
    proc_run_sync limiter_enter limiter_exit.

Definition host (cache : list nat) : @Legacy.Host nat World :=
  Legacy.mkHost (Legacy.mkRun ∅ None) cache (mkWorld 100 []).

End ToyLegacy.

(* ===================================================================== *)
(** ** Predicates the properties are stated with                         *)
(* ===================================================================== *)

Section Predicates.
Context {Fn Args Val : Type}.
Variable call : Fn -> Args -> Result Val.
Variable iscoroutine : Val -> bool.
Variable qualname : Fn -> string.
Variable loads_job : bytes -> Result (Fn * Args).
Variable dumps_outcome : Outcome Val -> Result bytes.

(** A job as it comes (pickled), what it is, and its pickled envelope. *)
Definition well_coded (j : bytes * (Fn * Args) * bytes) : Prop :=
  let '(msg, (fn, args), reply) := j in
  loads_job msg = Ok (fn, args) /\
  dumps_outcome (job_outcome call iscoroutine qualname fn args) = Ok reply.
End Predicates.

Section Frames.
Import Impl.
Context {W WorkerClass E : Type}.

(** What a step leaves alone: the context variable, the run state, and
    every cache but the one of [ctx]. *)
Definition framed (ctx : @WorkerContext WorkerClass)
    (h h' : @Host W WorkerClass E) : Prop :=
  _worker_context_var h' = _worker_context_var h /\
  run h' = run h /\
  forall c, c <> worker_cache ctx -> caches h' !! c = caches h !! c.
End Frames.

Section ClaimedLoop.
Context {Val : Type}.

(** Two things the spec says of a worker loop, as properties of a loop
    [work] given by what it does on a barrier and a worker state.  With
    a [retire] that is truthy at its first call the worker exits before
    its first job-wait: it returns having waited on nothing and read
    nothing.  With an idle timeout [t], every barrier wait is made with
    [t]. *)
Definition retires_when_asked (retire : Impl.Retire)
    (work : list BarrierResult -> M (@WorkerSt Val) unit) : Prop :=
  retire 0%nat = true -> forall barrier w, work barrier w = (Ok tt, w).

Definition polls_with (t : Q)
    (work : list BarrierResult -> M (@WorkerSt Val) unit) : Prop :=
  forall barrier jobs,
    Forall (fun timeout => (inject_Z timeout == t)%Q)
      (waits (log (snd (work barrier (mkWorker jobs [] []))))).
End ClaimedLoop.

(* ===================================================================== *)
(** ** The worker class and the cache class behind the dispatcher        *)
(* ===================================================================== *)

Module Pool.
Import Handle.

Section WorkerClass.
(** Jobs and values with the codec on both sides, and the state [T] of
    the trio runtime (the limiters, what is cancelled). *)
Context {Fn Args Val T : Type}.
Variable call : Fn -> Args -> Result Val.
Variable iscoroutine : Val -> bool.
Variable qualname : Fn -> string.
Variable loads_job : bytes -> Result (Fn * Args).
Variable dumps_outcome : Outcome Val -> Result bytes.
Variable dumps_job : Fn * Args -> Result bytes.
Variable loads_outcome : bytes -> Result (Outcome Val).
Variable os_cpu_count : option N.
Variable checkpoint_if_cancelled : M T unit.
Variable limiter_enter : nat -> M T unit.
Variable limiter_exit : nat -> option PyExc -> M T bool.

(** One worker: the handle of [_proc.py] on the host side (with the
    counts of [Wake]), what [start()] will meet, the messages the child
    has read from its end of the request pipe, and the two values the
    constructor was given. *)
Record Worker : Type := mkPoolWorker {
  state : Wake.Started;
  start_fault : option PyExc;
  requests : list bytes;
  idle_timeout : Q;
  retire : Impl.Retire
}.

Definition handle_of (w : Worker) : WorkerProc := Wake.handle (state w).

Definition on_state {A} (m : M Wake.Started A) : M Worker A := fun w =>
  let (r, s) := m (state w) in
  (r, mkPoolWorker s (start_fault w) (requests w) (idle_timeout w) (retire w)).

Definition on_handle {A} (m : M WorkerProc A) : M Worker A :=
  on_state (fun s => let (r, h) := m (Wake.handle s) in
                     (r, Wake.mkStarted h (Wake.starts s) (Wake.joins s))).

(** The child process at the other end: it runs [_work] of [_proc.py],
    and has been released from the barrier once for each message that
    reached it.  What it has done so far is that loop on those messages;
    [replies] is what it has sent back. *)
Definition child (requests : list bytes) : Result unit * @WorkerSt Val :=
  _work call iscoroutine qualname loads_job dumps_outcome
    (repeat Released (length requests)) (mkWorker requests [] []).

Definition replies (requests : list bytes) : list bytes :=
  outbox (snd (child requests)).

(** What the child's [Connection] reads from the request pipe: one
    message, framed as [_send] frames it. *)
Definition unframe (data : bytes) : Result bytes :=
  fst (_recv (mkRecv data [] 0)).

(** The two halves of the [try] block of [WorkerProcBase.run_sync]:
    [await self._send(ForkingPickler.dumps((sync_fn, args)))], giving
    here the bytes that went out, and
    [result = ForkingPickler.loads(await self._recv())]. *)
Definition send_job (sync_fn : Fn) (args : Args) : M WorkerProc bytes := fun h =>
  match (buf <- lift (dumps_job (sync_fn, args)) ;;
         on_send_stream (_send buf))%py h with
  | (Ok _, h1) =>
      (Ok (skipn (length (wire (_send_stream h))) (wire (_send_stream h1))), h1)
  | (Raise e, h1) => (Raise e, h1)
  end.

Definition recv_result : M WorkerProc (Outcome Val) :=
  (reply <- on_recv_stream _recv ;; lift (loads_outcome reply))%py.

(** Between the two, the child: released and with the message in its
    pipe, it goes through one more turn of its loop, and what it sends
    arrives framed at the host's end of the result pipe.  A message that
    did not arrive whole is not read. *)
Definition child_turn (sent : bytes) : M Worker unit := fun w =>
  match unframe sent with
  | Raise _ => (Ok tt, w)
  | Ok msg =>
      let answered := skipn (length (replies (requests w)))
                            (replies (requests w ++ [msg])) in
      let h := handle_of w in
      let s := _recv_stream h in
      (Ok tt,
       mkPoolWorker
         (Wake.mkStarted
            (mkHandle (_barrier h) (_proc h) (_started h) (_send_stream h)
               (mkRecv (pending s ++ concat (map frame answered))
                       (schedule s) (n_reads s)))
            (Wake.starts (state w)) (Wake.joins (state w)))
         (start_fault w) (requests w ++ [msg]) (idle_timeout w) (retire w))
  end.

Definition exchange (sync_fn : Fn) (args : Args) : M Worker (Outcome Val) :=
  (sent <- on_handle (send_job sync_fn args) ;;
   child_turn sent ;;;
   on_handle recv_result)%py.

(** A process is alive once started, until its barrier is broken (it
    left after an idle timeout, or the barrier was aborted) or it was
    signalled. *)
Definition alive (w : Worker) : bool :=
  _started (handle_of w) && negb (broken (_barrier (handle_of w))) &&
  match signals (_proc (handle_of w)) with [] => true | _ => false end.

(** Modelled from the spec: the handle class that the dispatcher creates
    with [ctx.worker_class(ctx.idle_timeout, ctx.retire)], an entry of
    [WORKER_PROC_MAP], is not among the sources; [WorkerProcBase] of
    [_proc.py] takes other arguments, and its [run_sync] needs a worker
    that was woken before.  The [run_sync] of the absent class is put
    together from sections 4.C and 4.F with the steps of
    [WorkerProcBase]: the worker is woken ([wake]: start the process if
    it is not started, wait on the barrier), the job is sent framed, the
    framed response is awaited and decoded.  Section 4.C has the handle
    return the value or re-raise; the dispatcher of [_impl.py] goes on
    while what the handle returned is [None] and calls [unwrap()] on it
    afterwards, so the class it is written for hands over the envelope,
    and the unwrapping is the dispatcher's (4.F, result delivery).  A
    worker found stale when woken, its barrier broken while it was idle,
    makes the call answer [None], on which the dispatcher takes another
    worker (4.F e).  On a framing end of file the handle is killed and
    [BrokenWorkerError] raised; on any other failure of the exchange the
    handle is killed and the failure propagates (4.C). *)
Definition run_sync (sync_fn : Fn) (args : Args)
  : M Worker (option (Outcome Val)) := fun w =>
  let wait := if broken (_barrier (handle_of w)) then Broken else Released in
  match on_state (Wake.wake_up (start_fault w) wait false) w with
  | (Raise e, w1) =>
      if _started (handle_of w1) then (Ok None, w1) else (Raise e, w1)
  | (Ok _, w1) =>
      let self := handle_of w1 in
      try_except
        (result <- exchange sync_fn args ;; ret (Some result))%py
        (fun e =>
           if is_EndOfChannel e
           then (on_handle kill ;;;
                 raise (BrokenWorkerError (died_unexpectedly self)))%py
           else (on_handle kill ;;; raise e)%py)
        w1
  end.

(** The world of the dispatcher: the workers by identity, and the
    runtime. *)
Record World : Type := mkWorld {
  workers : gmap nat Worker;
  trio : T
}.

Definition on_trio {A} (m : M T A) : M World A := fun ws =>
  let (r, t) := m (trio ws) in (r, mkWorld (workers ws) t).

(** Modelled from the spec: the constructor of the same absent class
    (4.F b, a fresh handle with the kind, the idle timeout and the retire
    predicate of the context).  It does what [WorkerProcBase.__init__]
    does: a barrier, two pipes, a process that is not started. *)
Definition new_worker (timeout : Q) (rt : Impl.Retire) : Worker :=
  mkPoolWorker
    (Wake.mkStarted
       (mkHandle (mkBarrier 0 false)
          (mkProcess "trio-parallel worker process" true []) false
          (mkSend [] []) (mkRecv [] [] 0))
       0 0)
    None [] timeout rt.

Definition worker_new (kind : Impl.WorkerType) (timeout : Q) (rt : Impl.Retire)
  : M World nat := fun ws =>
  let proc := fresh (dom (workers ws)) in
  (Ok proc, mkWorld (<[proc := new_worker timeout rt]> (workers ws)) (trio ws)).

(** [proc.run_sync(sync_fn, *args)] on the handle [proc]; whether a
    cancellation can reach the call (the [shield]) shows in what the
    reads of its stream meet. *)
Definition proc_run_sync (proc : nat) (sync_fn : Fn) (args : Args)
    (shield : bool) : M World (option (Outcome Val)) := fun ws =>
  match workers ws !! proc with
  | None => (Raise (RuntimeError "no such worker"), ws)
  | Some w =>
      let (r, w') := run_sync sync_fn args w in
      (r, mkWorld (<[proc := w']> (workers ws)) (trio ws))
  end.

Definition is_alive (ws : World) (proc : nat) : bool :=
  match workers ws !! proc with
  | None => false
  | Some w => alive w
  end.

(** Modelled from the spec: [prune] of the absent cache class, by
    section 4.D: starting at the cold end, remove dead handles until a
    live handle is seen or the cache is empty.  That is [ProcCache.prune]
    of [_worker_processes.py]. *)
Definition cache_prune (cache : list nat) : M World (list nat) := fun ws =>
  (Ok (Cache.prune (is_alive ws) cache), ws).

(** [run_sync] of [_impl.py] over these workers. *)
Definition dispatch :=
  @Impl.run_sync Fn Args Val nat Impl.WorkerType World os_cpu_count
    worker_new proc_run_sync is_alive cache_prune
    (on_trio checkpoint_if_cancelled)
    (fun limiter => on_trio (limiter_enter limiter))
    (fun limiter exc => on_trio (limiter_exit limiter exc)).

(** A worker in working order: started or able to start, its barrier
    whole, its pipes empty and sound, and a child that has served every
    job it was sent. *)
Definition healthy (w : Worker) : Prop :=
  (_started (handle_of w) = true \/ start_fault w = None) /\
  broken (_barrier (handle_of w)) = false /\
  send_faults (_send_stream (handle_of w)) = [] /\
  pending (_recv_stream (handle_of w)) = [] /\
  fault_free (schedule (_recv_stream (handle_of w))) = true /\
  exists js,
    Forall (well_coded call iscoroutine qualname loads_job dumps_outcome) js /\
    requests w = map (fun j => fst (fst j)) js.
End WorkerClass.

End Pool.

(** The pool over the toy worker.  The runtime state is whether the
    caller is cancelled; limiter 77 is a context manager whose
    [__aexit__] returns true, every other limiter returns false, as a
    [CapacityLimiter] does. *)

Module ToyPool.

Definition checkpoint_if_cancelled : M bool unit := fun cancelled =>
  if cancelled then (Raise Cancelled, cancelled) else (Ok tt, cancelled).
Definition limiter_enter (_ : nat) : M bool unit := ret tt.
Definition limiter_exit (limiter : nat) (_ : option PyExc) : M bool bool :=
  ret (limiter =? 77)%nat.

Definition World := @Pool.World bool.

Definition dispatch :=
  @Pool.dispatch nat Z Z bool Toy.call Toy.iscoroutine Toy.qualname
    Toy.loads_job Toy.dumps_outcome Toy.dumps_job Toy.loads_outcome
    (Some 4%N) checkpoint_if_cancelled limiter_enter limiter_exit.

(** A started worker with sound, empty pipes, whose reads come in
    pieces of at most three bytes. *)
Definition idle_worker : Pool.Worker :=
  Pool.mkPoolWorker
    (Wake.mkStarted
       (Handle.mkHandle (Handle.mkBarrier 0 false)
          (Handle.mkProcess "worker" true []) true
          (mkSend [] []) (mkRecv [] [Deliver 3] 0))
       1 0)
    None [] 600 (fun _ => false).

(** The same worker when the caller will be cancelled while it waits
    for the reply. *)
Definition doomed_worker : Pool.Worker :=
  Pool.mkPoolWorker
    (Wake.mkStarted
       (Handle.mkHandle (Handle.mkBarrier 0 false)
          (Handle.mkProcess "worker" true []) true
          (mkSend [] []) (mkRecv [] [ReadFails Cancelled] 0))
       1 0)
    None [] 600 (fun _ => false).

(** The default context, its cache (object 0) holding the given
    handles, over the given workers. *)
Definition host (cache : list nat) (workers : gmap nat Pool.Worker)
  : @Impl.Host nat Impl.WorkerType World :=
  Impl.mkHost (Impl.mkRun ∅ None)
    (Impl.mkContext 600 (fun _ => false) Impl.SPAWN 0%nat)
    {[ 0%nat := cache ]} (Pool.mkWorld workers false).

End ToyPool.

(* ===================================================================== *)
(** * Properties                                                         *)
(* ===================================================================== *)

(** ** Big-endian packing *)

Section StructFacts.

Lemma Z_of_byte_range (b : byte) : 0 <= Z_of_byte b < 256.
Proof.
  unfold Z_of_byte. pose proof (Byte.to_N_bounded b). lia.
Qed.

Lemma Z_of_byte_of_Z (z : Z) : Z_of_byte (byte_of_Z z) = z mod 256.
Proof.
  unfold Z_of_byte, byte_of_Z.
  assert (Hr : 0 <= z mod 256 < 256) by (apply Z.mod_pos_bound; lia).
  destruct (Byte.of_N (Z.to_N (z mod 256))) as [b|] eqn:E.
  - apply Byte.to_of_N in E. rewrite E. lia.
  - apply Byte.of_N_None_iff in E. lia.
Qed.

Lemma be_value_snoc (bs : bytes) (b : byte) :
  be_value (bs ++ [b]) = be_value bs * 256 + Z_of_byte b.
Proof. unfold be_value. rewrite fold_left_app. reflexivity. Qed.

Lemma length_be_bytes (k : nat) (v : Z) : length (be_bytes k v) = k.
Proof.
  revert v. induction k as [|k IH]; intros v; simpl; [reflexivity|].
  rewrite List.length_app, IH. simpl. lia.
Qed.

Lemma be_value_be_bytes (k : nat) :
  forall v, 0 <= v < 256 ^ Z.of_nat k -> be_value (be_bytes k v) = v.
Proof.
  induction k as [|k IH]; intros v Hv.
  - simpl in *. unfold be_value. simpl. lia.
  - cbn [be_bytes]. rewrite be_value_snoc, Z_of_byte_of_Z, IH.
    + rewrite Z.mod_mod by lia.
      pose proof (Z.div_mod v 256 ltac:(lia)). lia.
    + rewrite Nat2Z.inj_succ, Z.pow_succ_r in Hv by lia.
      split; [apply Z.div_pos; lia|].
      apply Z.div_lt_upper_bound; lia.
Qed.

(** [unpack] undoes [pack] on the whole range of each format. *)
Lemma unpack_pack_i (n : Z) :
  INT_MIN <= n <= INT_MAX ->
  exists h, pack_i n = Ok h /\ length h = 4%nat /\ unpack_i h = Ok n.
Proof.
  unfold INT_MIN, INT_MAX. intros Hn. unfold pack_i, INT_MIN, INT_MAX.
  replace ((- 2 ^ 31 <=? n) && (n <=? 2 ^ 31 - 1)) with true
    by (symmetry; apply andb_true_iff; split; apply Z.leb_le; lia).
  eexists. split; [reflexivity|]. split; [apply length_be_bytes|].
  unfold unpack_i. rewrite length_be_bytes. simpl Nat.eqb. cbv iota.
  rewrite (be_value_be_bytes 4) by (apply Z.mod_pos_bound; lia).
  f_equal.
  destruct (Z_lt_dec n 0) as [Hneg|Hpos].
  - assert (E : n mod 2 ^ 32 = n + 2 ^ 32).
    { symmetry. apply (Z.mod_unique n (2 ^ 32) (-1)); lia. }
    rewrite E. destruct (Z.ltb_spec (n + 2 ^ 32) (2 ^ 31)); lia.
  - rewrite Z.mod_small by lia.
    destruct (Z.ltb_spec n (2 ^ 31)); lia.
Qed.

Lemma unpack_pack_Q (n : Z) :
  0 <= n < 2 ^ 64 ->
  exists h, pack_Q n = Ok h /\ length h = 8%nat /\ unpack_Q h = Ok n.
Proof.
  intros Hn. unfold pack_Q.
  replace ((0 <=? n) && (n <? 2 ^ 64)) with true
    by (symmetry; apply andb_true_iff; split;
        [apply Z.leb_le | apply Z.ltb_lt]; lia).
  eexists. split; [reflexivity|]. split; [apply length_be_bytes|].
  unfold unpack_Q. rewrite length_be_bytes. simpl Nat.eqb. cbv iota.
  rewrite (be_value_be_bytes 8) by (exact Hn). reflexivity.
Qed.

End StructFacts.

(** ** The receive loop *)

Section ReceiveFacts.
Context {S : Type} {RS : ReceiveStream S}.

(** One turn of the loop, as the source reads. *)
Lemma recv_loop_step (size : Z) (acc : bytes) (s : S) :
  recv_loop size acc s =
  if Z.eq_dec size 0 then (Ok acc, s)
  else match receive_some size s with
       | (Raise e, s') => (Raise e, s')
       | (Ok partial_result, s') =>
           if Z.eq_dec (len partial_result) 0
           then (Raise (EndOfChannel "got end of file during message"), s')
           else if Z_gt_dec (len partial_result) size
                then (Raise (RuntimeError "Oversized response"), s')
                else recv_loop (size - len partial_result)
                               (acc ++ partial_result) s'
       end.
Proof.
  simp recv_loop.
  destruct (Z.eq_dec size 0); simp recv_loop; [reflexivity|].
  destruct (receive_some size s) as [[p|e] s']; simp recv_loop; [|reflexivity].
  destruct (Z.eq_dec (len p) 0); simp recv_loop; [reflexivity|].
  destruct (Z_gt_dec (len p) size); simp recv_loop; reflexivity.
Qed.

(** With nothing to read for, nothing is read: the stream is not touched. *)
Lemma recv_exactly_zero (s : S) : _recv_exactly 0 s = (Ok [], s).
Proof. unfold _recv_exactly. rewrite recv_loop_step. reflexivity. Qed.
End ReceiveFacts.

(** ** Reading from a pipe that holds the bytes *)

Section FdFacts.

Lemma fault_free_tail (ev : ReadEv) (sch : list ReadEv) :
  fault_free (ev :: sch) = true -> fault_free sch = true.
Proof. unfold fault_free. simpl. intros H. apply andb_true_iff in H. tauto. Qed.

(** However the operating system cuts the reads, the loop gathers
    exactly the [n] bytes asked for and leaves the rest in the pipe. *)
Lemma recv_loop_fd (n : nat) :
  forall (data acc rest : bytes) (sch : list ReadEv) (r : nat),
    length data = n -> fault_free sch = true ->
    exists sch' r',
      recv_loop (Z.of_nat n) acc (mkRecv (data ++ rest) sch r) =
        (Ok (acc ++ data), mkRecv rest sch' r') /\
      fault_free sch' = true.
Proof.
  induction n as [n IH] using lt_wf_ind.
  intros data acc rest sch r Hlen Hff.
  rewrite recv_loop_step.
  destruct (Z.eq_dec (Z.of_nat n) 0) as [Hz|Hnz].
  - assert (n = 0%nat) by lia. subst n.
    destruct data; [|discriminate]. simpl. rewrite app_nil_r. eauto.
  - unfold receive_some, FdRecvStream_receive, fd_receive_some.
    destruct (Z.ltb_spec (Z.of_nat n) 1) as [|_]; [lia|].
    cbn [schedule pending n_reads].
    assert (Hstep : forall m sch1, (1 <= m <= n)%nat -> fault_free sch1 = true ->
      exists sch' r',
        (if Z.eq_dec (len (firstn m (data ++ rest))) 0
         then (Raise (EndOfChannel "got end of file during message"),
               mkRecv (skipn m (data ++ rest)) sch1 (Datatypes.S r))
         else if Z_gt_dec (len (firstn m (data ++ rest))) (Z.of_nat n)
              then (Raise (RuntimeError "Oversized response"),
                    mkRecv (skipn m (data ++ rest)) sch1 (Datatypes.S r))
              else recv_loop (Z.of_nat n - len (firstn m (data ++ rest)))
                     (acc ++ firstn m (data ++ rest))
                     (mkRecv (skipn m (data ++ rest)) sch1 (Datatypes.S r))) =
        (Ok (acc ++ data), mkRecv rest sch' r') /\ fault_free sch' = true).
    { intros m sch1 Hm Hff1.
      assert (Hf : firstn m (data ++ rest) = firstn m data).
      { rewrite firstn_app. replace (m - length data)%nat with 0%nat by lia.
        rewrite firstn_0, app_nil_r. reflexivity. }
      assert (Hs : skipn m (data ++ rest) = skipn m data ++ rest).
      { rewrite skipn_app. replace (m - length data)%nat with 0%nat by lia.
        reflexivity. }
      assert (Hl : len (firstn m data) = Z.of_nat m).
      { unfold len. rewrite List.length_firstn. lia. }
      rewrite Hf, Hs, Hl.
      destruct (Z.eq_dec (Z.of_nat m) 0); [lia|].
      destruct (Z_gt_dec (Z.of_nat m) (Z.of_nat n)); [lia|].
      replace (Z.of_nat n - Z.of_nat m) with (Z.of_nat (n - m)) by lia.
      destruct (IH (n - m)%nat ltac:(lia) (skipn m data) (acc ++ firstn m data)
                   rest sch1 (Datatypes.S r)) as (sch' & r' & E & F).
      - rewrite List.length_skipn. lia.
      - exact Hff1.
      - exists sch', r'. split; [|exact F].
        rewrite E. rewrite <- app_assoc, firstn_skipn. reflexivity. }
    destruct sch as [|[k|e] sch1].
    + apply Hstep; [lia|reflexivity].
    + apply Hstep; [lia|]. eapply fault_free_tail; eauto.
    + discriminate Hff.
Qed.

Lemma recv_exactly_fd (data rest : bytes) (sch : list ReadEv) (r : nat) :
  fault_free sch = true ->
  exists sch' r',
    _recv_exactly (len data) (mkRecv (data ++ rest) sch r) =
      (Ok data, mkRecv rest sch' r') /\
    fault_free sch' = true.
Proof.
  intros Hff. unfold _recv_exactly, len.
  destruct (recv_loop_fd (length data) data [] rest sch r eq_refl Hff)
    as (sch' & r' & E & F).
  eauto.
Qed.

End FdFacts.

(** ** The framing: what [_send] writes and what [_recv] reads back *)

Section FramingFacts.

Lemma unpack_i_signed (h : bytes) :
  length h = 4%nat -> unpack_i h = Ok (be_signed h).
Proof.
  intros Hl. unfold unpack_i, be_signed, len. rewrite Hl. reflexivity.
Qed.

Lemma pack_i_minus_one : pack_i (-1) = Ok [xff; xff; xff; xff].
Proof. reflexivity. Qed.

Lemma recv_frame_short (h buf rest : bytes) (sch : list ReadEv) (r : nat) :
  length h = 4%nat -> unpack_i h = Ok (len buf) ->
  fault_free sch = true ->
  exists sch' r',
    _recv (mkRecv (h ++ buf ++ rest) sch r) = (Ok buf, mkRecv rest sch' r') /\
    fault_free sch' = true.
Proof.
  intros Hl Hu Hff. unfold _recv, bind.
  destruct (recv_exactly_fd h (buf ++ rest) sch r Hff) as (s1 & r1 & E1 & F1).
  unfold len in E1. rewrite Hl in E1. change (Z.of_nat 4) with 4 in E1.
  rewrite E1. unfold lift. rewrite Hu.
  destruct (Z.eqb_spec (len buf) (-1)) as [Hneg|_]; [unfold len in Hneg; lia|].
  unfold ret.
  destruct (recv_exactly_fd buf rest s1 r1 F1) as (s2 & r2 & E2 & F2).
  rewrite E2. eauto.
Qed.

Lemma recv_frame_long (pre ext buf rest : bytes) (sch : list ReadEv) (r : nat) :
  length pre = 4%nat -> unpack_i pre = Ok (-1) ->
  length ext = 8%nat -> unpack_Q ext = Ok (len buf) ->
  fault_free sch = true ->
  exists sch' r',
    _recv (mkRecv (pre ++ ext ++ buf ++ rest) sch r) =
      (Ok buf, mkRecv rest sch' r') /\
    fault_free sch' = true.
Proof.
  intros Hl Hu Hl8 Hu8 Hff. unfold _recv, bind.
  destruct (recv_exactly_fd pre (ext ++ buf ++ rest) sch r Hff)
    as (s1 & r1 & E1 & F1).
  unfold len in E1. rewrite Hl in E1. change (Z.of_nat 4) with 4 in E1.
  rewrite E1. unfold lift. rewrite Hu.
  change (-1 =? -1) with true. cbv beta iota.
  destruct (recv_exactly_fd ext (buf ++ rest) s1 r1 F1) as (s2 & r2 & E2 & F2).
  unfold len in E2. rewrite Hl8 in E2. change (Z.of_nat 8) with 8 in E2.
  rewrite E2, Hu8.
  destruct (recv_exactly_fd buf rest s2 r2 F2) as (s3 & r3 & E3 & F3).
  rewrite E3. eauto.
Qed.

(** What [_send] hands to [send_all], by the size of the payload. *)
Lemma send_long (buf ext : bytes) (w0 : list bytes) :
  len buf > 0x7FFFFFFF -> pack_Q (len buf) = Ok ext ->
  _send buf (mkSend w0 []) =
    (Ok tt, mkSend (((w0 ++ [[xff; xff; xff; xff]]) ++ [ext]) ++ [buf]) []).
Proof.
  intros Hn Hp. unfold _send.
  destruct (Z.gtb_spec (len buf) 0x7FFFFFFF) as [_|]; [|lia].
  unfold bind, lift. rewrite pack_i_minus_one, Hp. reflexivity.
Qed.

Lemma send_medium (buf h : bytes) (w0 : list bytes) :
  len buf <= 0x7FFFFFFF -> len buf > 16384 -> pack_i (len buf) = Ok h ->
  _send buf (mkSend w0 []) = (Ok tt, mkSend ((w0 ++ [h]) ++ [buf]) []).
Proof.
  intros Hn Hm Hp. unfold _send.
  destruct (Z.gtb_spec (len buf) 0x7FFFFFFF) as [|_]; [lia|].
  unfold bind, lift. rewrite Hp.
  destruct (Z.gtb_spec (len buf) 16384) as [_|]; [|lia].
  reflexivity.
Qed.

Lemma send_short (buf h : bytes) (w0 : list bytes) :
  len buf <= 16384 -> pack_i (len buf) = Ok h ->
  _send buf (mkSend w0 []) = (Ok tt, mkSend (w0 ++ [h ++ buf]) []).
Proof.
  intros Hm Hp. unfold _send.
  destruct (Z.gtb_spec (len buf) 0x7FFFFFFF) as [|_]; [lia|].
  unfold bind, lift. rewrite Hp.
  destruct (Z.gtb_spec (len buf) 16384) as [|_]; [lia|].
  reflexivity.
Qed.

End FramingFacts.

(** The layout of a frame and its reading, in one statement. *)
Lemma frame_facts (buf : bytes) (w0 : list bytes) :
  len buf < 2 ^ 64 ->
  exists writes header,
    _send buf (mkSend w0 []) = (Ok tt, mkSend (w0 ++ writes) []) /\
    concat writes = header ++ buf /\
    (len buf <= 2 ^ 31 - 1 ->
       length header = 4%nat /\ be_signed header = len buf) /\
    (len buf > 2 ^ 31 - 1 ->
       exists pre ext, header = pre ++ ext /\
         length pre = 4%nat /\ be_signed pre = -1 /\
         length ext = 8%nat /\ be_unsigned ext = len buf) /\
    (len buf = 0 -> writes = [[x00; x00; x00; x00]]) /\
    (forall rest sch r, fault_free sch = true ->
       exists sch' r',
         _recv (mkRecv (concat writes ++ rest) sch r) =
           (Ok buf, mkRecv rest sch' r') /\
         fault_free sch' = true).
Proof.
  intros Hmax.
  assert (Hpos : 0 <= len buf) by (unfold len; lia).
  destruct (Z_le_gt_dec (len buf) 0x7FFFFFFF) as [Hsmall|Hbig].
  - destruct (unpack_pack_i (len buf)) as (h & Hp & Hl & Hu);
      [unfold INT_MIN, INT_MAX; lia|].
    assert (Hsigned : be_signed h = len buf).
    { rewrite (unpack_i_signed h Hl) in Hu. injection Hu as Hu. exact Hu. }
    assert (Hrecv : forall rest sch r, fault_free sch = true ->
              exists sch' r',
                _recv (mkRecv ((h ++ buf) ++ rest) sch r) =
                  (Ok buf, mkRecv rest sch' r') /\
                fault_free sch' = true).
    { intros rest sch r Hff. rewrite <- app_assoc.
      destruct (recv_frame_short h buf rest sch r Hl Hu Hff) as (s' & r' & E & F).
      eauto. }
    destruct (Z_le_gt_dec (len buf) 16384) as [Hshort|Hmed].
    + exists [h ++ buf], h.
      split; [apply send_short; assumption|].
      split; [simpl; apply app_nil_r|].
      split; [intros _; auto|].
      split; [intros; lia|].
      split.
      * intros Hz. unfold len in Hz.
        destruct buf; [|simpl in Hz; lia].
        rewrite app_nil_r. f_equal.
        vm_compute in Hp. injection Hp as <-. reflexivity.
      * simpl concat. rewrite app_nil_r. exact Hrecv.
    + exists [h; buf], h.
      split; [rewrite (send_medium buf h w0) by assumption;
              rewrite <- app_assoc; reflexivity|].
      split; [simpl; rewrite app_nil_r; reflexivity|].
      split; [intros _; auto|].
      split; [intros; lia|].
      split; [intros; lia|].
      simpl concat. rewrite app_nil_r. exact Hrecv.
  - destruct (unpack_pack_Q (len buf)) as (ext & Hp & Hl & Hu); [lia|].
    exists [[xff; xff; xff; xff]; ext; buf], ([xff; xff; xff; xff] ++ ext).
    split; [rewrite (send_long buf ext w0) by assumption;
            rewrite <- !app_assoc; reflexivity|].
    split; [simpl; rewrite app_nil_r; reflexivity|].
    split; [intros; lia|].
    split.
    { intros _. exists [xff; xff; xff; xff], ext.
      repeat split; try reflexivity; try assumption.
      unfold unpack_Q in Hu. rewrite Hl in Hu. simpl in Hu.
      unfold be_unsigned. congruence. }
    split; [intros; lia|].
    intros rest sch r Hff.
    destruct (recv_frame_long [xff; xff; xff; xff] ext buf rest sch r
                eq_refl eq_refl Hl Hu Hff) as (s' & r' & E & F).
    exists s', r'. split; [|exact F]. rewrite <- E. f_equal. f_equal.
    simpl. rewrite app_nil_r, <- app_assoc. reflexivity.
Qed.


(** C3.  For every payload [buf] of length [n] sent on the framed channel
    (a Python buffer is shorter than 2^64 bytes): the bytes written are a
    header followed by exactly the payload.  If [n <= 2^31 - 1] the header
    is four bytes whose big-endian signed reading is [n]; if [n > 2^31 - 1]
    it is four bytes reading [-1] followed by eight bytes whose big-endian
    unsigned reading is [n].  An empty payload goes out as one write of the
    zero header and nothing else.  And [_recv] on a pipe that holds these
    bytes returns the payload, whatever the cut of the reads, and leaves
    what follows in the pipe. *)
Theorem send_frame_layout_round_trip (buf : bytes) (w0 : list bytes) :
  len buf < 2 ^ 64 ->
  exists writes header,
    _send buf (mkSend w0 []) = (Ok tt, mkSend (w0 ++ writes) []) /\
    concat writes = header ++ buf /\
    (len buf <= 2 ^ 31 - 1 ->
       length header = 4%nat /\ be_signed header = len buf) /\
    (len buf > 2 ^ 31 - 1 ->
       exists pre ext, header = pre ++ ext /\
         length pre = 4%nat /\ be_signed pre = -1 /\
         length ext = 8%nat /\ be_unsigned ext = len buf) /\
    (len buf = 0 -> writes = [[x00; x00; x00; x00]]) /\
    (forall rest sch r, fault_free sch = true ->
       exists sch' r',
         _recv (mkRecv (concat writes ++ rest) sch r) =
           (Ok buf, mkRecv rest sch' r')).
Proof.
  intros Hmax.
  destruct (frame_facts buf w0 Hmax)
    as (writes & header & Hsend & Hcat & Hshort & Hlong & Hzero & Hrecv).
  exists writes, header. repeat (split; [assumption|]).
  intros rest sch r Hff.
  destruct (Hrecv rest sch r Hff) as (sch' & r' & E & _). eauto.
Qed.

Lemma send_frame_layout_round_trip_witness :
  exists writes header,
    _send [x61; x62; x63] (mkSend [] []) = (Ok tt, mkSend ([] ++ writes) []) /\
    concat writes = header ++ [x61; x62; x63] /\
    (len [x61; x62; x63] <= 2 ^ 31 - 1 ->
       length header = 4%nat /\ be_signed header = len [x61; x62; x63]) /\
    (len [x61; x62; x63] > 2 ^ 31 - 1 ->
       exists pre ext, header = pre ++ ext /\
         length pre = 4%nat /\ be_signed pre = -1 /\
         length ext = 8%nat /\ be_unsigned ext = len [x61; x62; x63]) /\
    (len [x61; x62; x63] = 0 -> writes = [[x00; x00; x00; x00]]) /\
    (forall rest sch r, fault_free sch = true ->
       exists sch' r',
         _recv (mkRecv (concat writes ++ rest) sch r) =
           (Ok [x61; x62; x63], mkRecv rest sch' r')).
Proof. apply (send_frame_layout_round_trip [x61; x62; x63] []). reflexivity. Defined.

(** The three shapes of a frame on small payloads, and a read cut in pieces. *)
Example send_three_bytes :
  _send [x61; x62; x63] (mkSend [] []) =
  (Ok tt, mkSend [[x00; x00; x00; x03; x61; x62; x63]] []).
Proof. reflexivity. Qed.

Example send_empty :
  _send [] (mkSend [] []) = (Ok tt, mkSend [[x00; x00; x00; x00]] []).
Proof. reflexivity. Qed.

Example recv_three_bytes_cut :
  _recv (mkRecv [x00; x00; x00; x03; x61; x62; x63; x07] [Deliver 2; Deliver 5] 0) =
  (Ok [x61; x62; x63], mkRecv [x07] [] 3).
Proof. vm_compute. reflexivity. Qed.

Example recv_truncated :
  fst (_recv (mkRecv [x00; x00; x00; x03; x61] [] 0)) =
  Raise (EndOfChannel "got end of file during message").
Proof. vm_compute. reflexivity. Qed.

(** What [_send] writes does not depend on what was written before. *)
Lemma send_appends (buf : bytes) (w0 : list bytes) :
  _send buf (mkSend w0 []) =
  (fst (_send buf (mkSend [] [])),
   mkSend (w0 ++ written (snd (_send buf (mkSend [] [])))) []).
Proof.
  unfold _send, bind, lift.
  destruct (len buf >? 2147483647).
  - rewrite pack_i_minus_one.
    destruct (pack_Q (len buf)); cbn; rewrite ?app_nil_r, <- ?app_assoc; reflexivity.
  - destruct (pack_i (len buf)); [|cbn; rewrite app_nil_r; reflexivity].
    destruct (len buf >? 16384); cbn; rewrite <- ?app_assoc; reflexivity.
Qed.

Lemma send_then_frame (buf : bytes) (w0 : list bytes) :
  len buf < 2 ^ 64 ->
  exists writes,
    _send buf (mkSend w0 []) = (Ok tt, mkSend (w0 ++ writes) []) /\
    concat writes = frame buf.
Proof.
  intros Hmax.
  destruct (frame_facts buf [] Hmax) as (writes & header & Hsend & _).
  exists writes. rewrite send_appends. unfold frame, wire.
  rewrite Hsend. split; reflexivity.
Qed.

Lemma recv_frame (buf rest : bytes) (sch : list ReadEv) (r : nat) :
  len buf < 2 ^ 64 -> fault_free sch = true ->
  exists sch' r',
    _recv (mkRecv (frame buf ++ rest) sch r) = (Ok buf, mkRecv rest sch' r') /\
    fault_free sch' = true.
Proof.
  intros Hmax Hff.
  destruct (frame_facts buf [] Hmax)
    as (writes & header & Hsend & _ & _ & _ & _ & Hrecv).
  unfold frame, wire. rewrite Hsend. simpl. apply Hrecv. exact Hff.
Qed.

(** C10.  [_recv_exactly(0)] returns an empty buffer and leaves the stream
    as it was: no [receive_some] is made (for every stream, and on an fd
    stream the count of reads stays the same).  So once the four header
    bytes of a frame were read as zero, [_recv] returns the empty payload
    from the very state the header left, and a pipe that holds the zero
    header and then ends gives the empty payload, not a framing-EOF. *)
Theorem recv_exactly_zero_no_read :
  (forall (S : Type) (RS : ReceiveStream S) (s : S),
     _recv_exactly 0 s = (Ok [], s)) /\
  (forall s : FdRecvStream,
     n_reads (snd (_recv_exactly 0 s)) = n_reads s) /\
  (forall (S : Type) (RS : ReceiveStream S) (s0 s : S),
     _recv_exactly 4 s0 = (Ok [x00; x00; x00; x00], s) ->
     _recv s0 = (Ok [], s)) /\
  (forall (sch : list ReadEv) (r : nat),
     fault_free sch = true ->
     fst (_recv (mkRecv [x00; x00; x00; x00] sch r)) = Ok []).
Proof.
  split; [intros; apply recv_exactly_zero|].
  split; [intros s; rewrite recv_exactly_zero; reflexivity|].
  split.
  - intros S RS s0 s H. unfold _recv, bind. rewrite H.
    unfold lift. simpl. apply recv_exactly_zero.
  - intros sch r Hff.
    destruct (recv_frame_short [x00; x00; x00; x00] [] [] sch r
                eq_refl eq_refl Hff) as (sch' & r' & E & _).
    simpl in E. rewrite E. reflexivity.
Qed.

Example recv_zero_frame_then_eof :
  _recv (mkRecv [x00; x00; x00; x00] [] 0) = (Ok [], mkRecv [] [] 1).
Proof. vm_compute. reflexivity. Qed.

(** ** The child loop *)

Section WorkFacts.
Context {Fn Args Val : Type}.
Variable call : Fn -> Args -> Result Val.
Variable iscoroutine : Val -> bool.
Variable qualname : Fn -> string.
Variable loads_job : bytes -> Result (Fn * Args).
Variable dumps_outcome : Outcome Val -> Result bytes.

Local Abbreviation checker := (coroutine_checker call iscoroutine qualname).
Local Abbreviation serve := (serve_one call iscoroutine qualname loads_job dumps_outcome).
Local Abbreviation work := (_work call iscoroutine qualname loads_job dumps_outcome).

Local Abbreviation job_outcome := (Worker.job_outcome call iscoroutine qualname).
Local Abbreviation job_closes := (Worker.job_closes call iscoroutine).

Lemma capture_checker (fn : Fn) (args : Args) (w : @WorkerSt Val) :
  capture (checker fn args) w =
  (Ok (job_outcome fn args),
   mkWorker (inbox w) (outbox w) (log w ++ job_closes fn args)).
Proof.
  unfold capture, coroutine_checker, job_outcome, job_closes, bind, lift.
  destruct w as [i o l].
  destruct (call fn args) as [v|e]; cbn.
  - destruct (iscoroutine v); cbn; rewrite ?app_nil_r; reflexivity.
  - rewrite app_nil_r. reflexivity.
Qed.

(** One job from the pipe: it is decoded, run under [capture], and its
    envelope is sent. *)
Lemma serve_one_job (w : @WorkerSt Val) (msg reply : bytes) (rest : list bytes)
    (fn : Fn) (args : Args) :
  inbox w = msg :: rest ->
  loads_job msg = Ok (fn, args) ->
  dumps_outcome (job_outcome fn args) = Ok reply ->
  serve w =
  (Ok tt,
   mkWorker rest (outbox w ++ [reply])
     (log w ++ [EvRecv] ++ job_closes fn args ++ [EvSend (job_outcome fn args)])).
Proof.
  intros Hin Hjob Hdump. unfold serve_one, bind, pipe_recv.
  rewrite Hin, Hjob. cbn [fst snd].
  rewrite capture_checker. unfold pipe_send, bind, lift, modify. rewrite Hdump.
  cbn. rewrite <- !app_assoc. reflexivity.
Qed.

(** The loop after a served job is the loop again, on what is left. *)
Lemma work_released (later : list BarrierResult) (w : @WorkerSt Val)
    (msg reply : bytes) (rest : list bytes) (fn : Fn) (args : Args) :
  inbox w = msg :: rest ->
  loads_job msg = Ok (fn, args) ->
  dumps_outcome (job_outcome fn args) = Ok reply ->
  work (Released :: later) w =
  work later
    (mkWorker rest (outbox w ++ [reply])
       (log w ++ [EvBarrierWait IDLE_TIMEOUT; EvRecv] ++ job_closes fn args ++
        [EvSend (job_outcome fn args)])).
Proof.
  intros Hin Hjob Hdump. cbn [_work]. unfold bind at 1. unfold emit, modify.
  unfold bind at 1.
  erewrite serve_one_job; [|exact Hin|exact Hjob|exact Hdump].
  cbn. rewrite <- !app_assoc. reflexivity.
Qed.

#[local] Arguments waits : simpl never.

Lemma waits_app (l l' : list (@Event Val)) :
  waits (l ++ l') = waits l ++ waits l'.
Proof. unfold waits. apply flat_map_app. Qed.

Lemma waits_job_closes (fn : Fn) (args : Args) : waits (job_closes fn args) = [].
Proof.
  unfold job_closes. destruct (call fn args) as [v|]; [|reflexivity].
  destruct (iscoroutine v); reflexivity.
Qed.

(** Serving a job waits on no barrier. *)
Lemma serve_one_log (w : @WorkerSt Val) :
  exists l', log (snd (serve w)) = log w ++ l' /\ waits l' = [].
Proof.
  unfold serve_one, bind, pipe_recv.
  destruct (inbox w) as [|msg rest].
  - exists [EvRecv]. split; reflexivity.
  - destruct (loads_job msg) as [[fn args]|e].
    + cbn [fst snd]. rewrite capture_checker.
      unfold pipe_send, bind, lift, modify.
      destruct (dumps_outcome (job_outcome fn args)).
      * exists ([EvRecv] ++ job_closes fn args ++ [EvSend (job_outcome fn args)]).
        split; [cbn; rewrite <- !app_assoc; reflexivity|].
        rewrite !waits_app, waits_job_closes. reflexivity.
      * exists ([EvRecv] ++ job_closes fn args).
        split; [cbn; rewrite <- !app_assoc; reflexivity|].
        rewrite !waits_app, waits_job_closes. reflexivity.
    + exists [EvRecv]. split; reflexivity.
Qed.

(** Every barrier wait of the loop is made with [IDLE_TIMEOUT]. *)
Lemma work_waits (barrier : list BarrierResult) :
  forall w : @WorkerSt Val,
    Forall (fun t => t = IDLE_TIMEOUT) (waits (log w)) ->
    Forall (fun t => t = IDLE_TIMEOUT) (waits (log (snd (work barrier w)))).
Proof.
  assert (Hlast : forall w : @WorkerSt Val,
            Forall (fun t => t = IDLE_TIMEOUT) (waits (log w)) ->
            Forall (fun t => t = IDLE_TIMEOUT)
              (waits (log w ++ [EvBarrierWait IDLE_TIMEOUT]))).
  { intros w Hw. rewrite waits_app. apply Forall_app. split; [exact Hw|].
    repeat constructor. }
  induction barrier as [|[|] later IH]; intros w Hw.
  - apply Hlast, Hw.
  - cbn [_work]. unfold bind at 1. unfold emit, modify. unfold bind at 1.
    set (w1 := mkWorker (inbox w) (outbox w) (log w ++ [EvBarrierWait IDLE_TIMEOUT])).
    destruct (serve_one_log w1) as (l' & Hl & Hn).
    destruct (serve w1) as [[[]|e] w2]; cbn [snd] in *.
    + apply IH. rewrite Hl, waits_app, Hn, app_nil_r. apply Hlast, Hw.
    + rewrite Hl, waits_app, Hn, app_nil_r. apply Hlast, Hw.
  - apply Hlast, Hw.
Qed.

(** A broken barrier ends the loop by [return]: exit code 0. *)
Lemma work_broken (later : list BarrierResult) (w : @WorkerSt Val) :
  work (Broken :: later) w =
  (Ok tt, mkWorker (inbox w) (outbox w) (log w ++ [EvBarrierWait IDLE_TIMEOUT])).
Proof. reflexivity. Qed.

End WorkFacts.

(** ** The handle *)

Module HandleFacts.
Import Handle.

Section Facts.
Context {Fn Args Val : Type}.
Variable dumps_job : Fn * Args -> Result bytes.
Variable loads_outcome : bytes -> Result (Outcome Val).

Local Abbreviation exchange := (Handle.exchange dumps_job loads_outcome).
Local Abbreviation run_sync := (Handle.run_sync dumps_job loads_outcome).

(** On a started handle [kill] goes through: the barrier is aborted and
    the process signalled. *)
Lemma kill_killed (h : WorkerProc) :
  _started h = true -> fst (kill h) = Ok tt /\ killed (snd (kill h)).
Proof.
  intros Hs. unfold kill, killed. rewrite Hs. cbn.
  split; [reflexivity|]. split; [reflexivity|].
  destruct (signals (_proc h)); discriminate.
Qed.

(** On a handle that was never started it aborts the barrier and raises:
    there is no process to signal. *)
Lemma kill_never_started (h : WorkerProc) :
  _started h = false ->
  (exists msg, fst (kill h) = Raise (AttributeError msg)) /\
  broken (_barrier (snd (kill h))) = true /\
  _proc (snd (kill h)) = _proc h.
Proof.
  intros Hs. unfold kill. rewrite Hs. cbn.
  split; [eexists; reflexivity|]. split; reflexivity.
Qed.

(** What [kill] leaves alone: the streams and the started flag. *)
Lemma kill_streams (h : WorkerProc) :
  _send_stream (snd (kill h)) = _send_stream h /\
  _recv_stream (snd (kill h)) = _recv_stream h /\
  _started (snd (kill h)) = _started h.
Proof. unfold kill. destruct (_started h); repeat split. Qed.

(** The failed assertion: raised before the [try], so nothing is killed. *)
Lemma run_sync_not_woken (h : WorkerProc) (fn : Fn) (args : Args) :
  n_waiting (_barrier h) <> 0%nat ->
  run_sync fn args h =
  (Raise (AssertionError "Must first wake_up() the worker"), h).
Proof.
  intros Hn. unfold Handle.run_sync, bind, get.
  destruct (Nat.eqb_spec (n_waiting (_barrier h)) 0); [contradiction|].
  reflexivity.
Qed.

(** [run_sync] by what its [try] block did. *)
Lemma run_sync_by_exchange (h : WorkerProc) (fn : Fn) (args : Args) :
  n_waiting (_barrier h) = 0%nat ->
  run_sync fn args h =
  match exchange fn args h with
  | (Ok result, h1) => (unwrap result, h1)
  | (Raise e, h1) =>
      match kill h1 with
      | (Ok _, h2) =>
          (Raise (if is_EndOfChannel e
                  then BrokenWorkerError (died_unexpectedly h)
                  else e),
           h2)
      | (Raise e', h2) => (Raise e', h2)
      end
  end.
Proof.
  intros Hn. unfold Handle.run_sync, bind, get. rewrite Hn. cbn [Nat.eqb negb].
  unfold try_except.
  destruct (exchange fn args h) as [[o|e] h1]; [reflexivity|].
  destruct (is_EndOfChannel e); unfold raise;
    destruct (kill h1) as [[[]|e'] h2]; reflexivity.
Qed.

(** The [try] block touches the streams only. *)
Lemma exchange_started (h h1 : WorkerProc) (fn : Fn) (args : Args)
    (r : Result (Outcome Val)) :
  exchange fn args h = (r, h1) ->
  _started h1 = _started h /\ _barrier h1 = _barrier h /\ _proc h1 = _proc h.
Proof.
  unfold Handle.exchange, bind, lift, on_send_stream, on_recv_stream.
  destruct (dumps_job (fn, args)) as [buf|e].
  2:{ intros Heq. injection Heq as _ <-. repeat split. }
  destruct (_send buf (_send_stream h)) as [[[]|e] s1].
  2:{ intros Heq. injection Heq as _ <-. repeat split. }
  cbn [_recv_stream _send_stream _barrier _proc _started].
  destruct (_recv (_recv_stream h)) as [[reply|e] s2].
  2:{ intros Heq. injection Heq as _ <-. repeat split. }
  intros Heq. injection Heq as _ <-. repeat split.
Qed.

(** Where the [try] block can fail: the pickling, the send, the
    receive, the unpickling; each failure is the block's. *)
Lemma exchange_dumps_fails (h : WorkerProc) (fn : Fn) (args : Args) (e : PyExc) :
  dumps_job (fn, args) = Raise e -> exchange fn args h = (Raise e, h).
Proof. intros H. unfold Handle.exchange, bind, lift. rewrite H. reflexivity. Qed.

Lemma exchange_send_fails (h h1 : WorkerProc) (fn : Fn) (args : Args)
    (buf : bytes) (e : PyExc) :
  dumps_job (fn, args) = Ok buf ->
  on_send_stream (_send buf) h = (Raise e, h1) ->
  exchange fn args h = (Raise e, h1).
Proof.
  intros Hd Hs. unfold Handle.exchange, bind, lift. rewrite Hd, Hs. reflexivity.
Qed.

Lemma exchange_recv_fails (h h1 h2 : WorkerProc) (fn : Fn) (args : Args)
    (buf : bytes) (e : PyExc) :
  dumps_job (fn, args) = Ok buf ->
  on_send_stream (_send buf) h = (Ok tt, h1) ->
  on_recv_stream _recv h1 = (Raise e, h2) ->
  exchange fn args h = (Raise e, h2).
Proof.
  intros Hd Hs Hr. unfold Handle.exchange, bind, lift.
  rewrite Hd, Hs, Hr. reflexivity.
Qed.

Lemma exchange_loads_fails (h h1 h2 : WorkerProc) (fn : Fn) (args : Args)
    (buf reply : bytes) (e : PyExc) :
  dumps_job (fn, args) = Ok buf ->
  on_send_stream (_send buf) h = (Ok tt, h1) ->
  on_recv_stream _recv h1 = (Ok reply, h2) ->
  loads_outcome reply = Raise e ->
  exchange fn args h = (Raise e, h2).
Proof.
  intros Hd Hs Hr Hl. unfold Handle.exchange, bind, lift.
  rewrite Hd, Hs, Hr, Hl. reflexivity.
Qed.

(** A live worker on a sound pipe: the job goes out framed, the reply
    that is in the pipe comes back and is unpickled. *)
Lemma exchange_healthy (b : Barrier) (p : Process) (st : bool)
    (w0 : list bytes) (rest : bytes) (sch : list ReadEv) (r : nat)
    (fn : Fn) (args : Args) (payload reply : bytes) (o : Outcome Val) :
  dumps_job (fn, args) = Ok payload -> len payload < 2 ^ 64 ->
  len reply < 2 ^ 64 -> fault_free sch = true ->
  loads_outcome reply = Ok o ->
  exists writes sch' r',
    exchange fn args
      (mkHandle b p st (mkSend w0 []) (mkRecv (frame reply ++ rest) sch r)) =
    (Ok o, mkHandle b p st (mkSend (w0 ++ writes) []) (mkRecv rest sch' r')) /\
    concat writes = frame payload /\ fault_free sch' = true.
Proof.
  intros Hd Hp Hr Hff Hl.
  destruct (send_then_frame payload w0 Hp) as (writes & Hsend & Hcat).
  destruct (recv_frame reply rest sch r Hr Hff) as (sch' & r' & Hrecv & Hff').
  exists writes, sch', r'. split; [|split; assumption].
  unfold Handle.exchange, bind, lift. rewrite Hd.
  unfold on_send_stream. cbn [_send_stream]. rewrite Hsend.
  unfold on_recv_stream. cbn [_recv_stream _barrier _proc _started _send_stream].
  rewrite Hrecv. rewrite Hl. reflexivity.
Qed.

End Facts.
End HandleFacts.

(** ** The cache *)

Section CacheFacts.
Context {H : Type}.
Variable is_alive : H -> bool.

Local Abbreviation pop := (Cache.pop is_alive).
Local Abbreviation dead := (fun p : H => is_alive p = false).

Lemma deque_pop_snoc (d : list H) (x : H) :
  Deque.pop (d ++ [x]) = Some (x, d).
Proof.
  unfold Deque.pop. rewrite rev_app_distr. simpl.
  rewrite rev_involutive. reflexivity.
Qed.

(** Pushing is appending at the right end, in the order of the pushes. *)
Lemma pushes_app (c l : list H) : fold_left Cache.push l c = c ++ l.
Proof.
  revert c. induction l as [|x l IH]; intros c; simpl.
  - symmetry. apply app_nil_r.
  - rewrite IH. unfold Cache.push, Deque.append.
    rewrite <- app_assoc. reflexivity.
Qed.

(** One turn of the [while True:] loop of [pop]. *)
Lemma pop_step (c : list H) :
  pop c =
  match Deque.pop c with
  | None => (Raise (IndexError "pop from an empty deque"), c)
  | Some (proc, rest) => if is_alive proc then (Ok proc, rest) else pop rest
  end.
Proof.
  simp pop. generalize (Deque.inspect (Deque.pop c)).
  intros [[[p rest]|] E]; simp pop; [|rewrite E; reflexivity].
  destruct (is_alive p) eqn:Hp; unfold Cache.pop_unfold_clause_1_clause_2;
    rewrite E, Hp; reflexivity.
Qed.

Lemma pop_snoc (c : list H) (x : H) :
  pop (c ++ [x]) = if is_alive x then (Ok x, c) else pop c.
Proof. rewrite pop_step, deque_pop_snoc. reflexivity. Qed.

Lemma pop_empty : pop [] = (Raise (IndexError "pop from an empty deque"), []).
Proof. rewrite pop_step. reflexivity. Qed.

(** The scan, on every cache: either some handle is live, and the most
    recently pushed such handle is returned while it and the dead ones
    pushed after it leave the cache; or none is, and the scan empties
    the cache and ends in [IndexError]. *)
Lemma pop_scan (c : list H) :
  (exists older h newer,
      c = older ++ h :: newer /\ is_alive h = true /\ Forall dead newer /\
      pop c = (Ok h, older)) \/
  (Forall dead c /\
   pop c = (Raise (IndexError "pop from an empty deque"), [])).
Proof.
  induction c as [|x c IH] using rev_ind.
  - right. split; [constructor|apply pop_empty].
  - rewrite pop_snoc. destruct (is_alive x) eqn:Hx.
    + left. exists c, x, [].
      split; [reflexivity|]. split; [exact Hx|].
      split; [constructor|reflexivity].
    + destruct IH as [(older & h & newer & -> & Hh & Hd & Hp)|[Hd Hp]].
      * left. exists older, h, (newer ++ [x]).
        split; [rewrite <- app_assoc; reflexivity|].
        split; [exact Hh|]. split; [|exact Hp].
        apply Forall_app. split; [exact Hd|]. constructor; [exact Hx|constructor].
      * right. split; [|exact Hp].
        apply Forall_app. split; [exact Hd|]. constructor; [exact Hx|constructor].
Qed.
End CacheFacts.

(** C7.  For every cache state (every sequence of pushed handles, with
    what [is_alive] answers for each): either [pop] returns the most
    recently pushed live handle [h], having removed it together with the
    dead handles pushed after it (which are dropped, not returned), and
    leaves the handles pushed before [h] in place; or no handle is live
    (the cache is empty, or the scan empties it) and [pop] raises
    [IndexError]. *)
Theorem pop_returns_most_recent_live {H : Type} (is_alive : H -> bool)
    (_cache : list H) :
  (exists older h newer,
      _cache = fold_left Cache.push newer (Cache.push older h) /\
      is_alive h = true /\
      Forall (fun p => is_alive p = false) newer /\
      Cache.pop is_alive _cache = (Ok h, older)) \/
  (Forall (fun p => is_alive p = false) _cache /\
   exists msg,
     Cache.pop is_alive _cache = (Raise (IndexError msg), [])).
Proof.
  destruct (pop_scan is_alive _cache)
    as [(older & h & newer & E & Hh & Hd & Hp)|[Hd Hp]].
  - left. exists older, h, newer. rewrite pushes_app.
    unfold Cache.push, Deque.append. rewrite <- app_assoc.
    repeat split; assumption.
  - right. split; [exact Hd|]. eexists. exact Hp.
Qed.

(** Three handles pushed in the order 1, 2, 3, of which only 1 and 2 are
    alive: [pop] gives 2 and leaves 1. *)
Example pop_skips_dead :
  Cache.pop (fun p => (p <? 3)%nat)
    (Cache.push (Cache.push (Cache.push [] 1%nat) 2%nat) 3%nat) =
  (Ok 2%nat, [1%nat]).
Proof. reflexivity. Qed.

Example pop_all_dead :
  Cache.pop (fun _ : nat => false) [1%nat; 2%nat] =
  (Raise (IndexError "pop from an empty deque"), []).
Proof. reflexivity. Qed.

(** ** The default limiter *)

Section LimiterFacts.
Import Impl.
Variable os_cpu_count : option N.

Local Abbreviation limiter_of := (current_default_worker_limiter os_cpu_count).

Lemma DEFAULT_LIMIT_positive : 1 <= DEFAULT_LIMIT os_cpu_count.
Proof.
  unfold DEFAULT_LIMIT. destruct os_cpu_count as [n|]; [|lia].
  destruct (N.eqb_spec n 0); lia.
Qed.

(** The first call of a run: a new object, of the default capacity,
    stored in the run-local variable. *)
Lemma limiter_created (r : Run) :
  _limiter_local r = None ->
  let l := fresh (dom (limiters r)) in
  limiter_of r =
    (Ok l, mkRun (<[l := mkLimiter (DEFAULT_LIMIT os_cpu_count)]> (limiters r))
                 (Some l)) /\
  limiters r !! l = None.
Proof.
  intros Hnone l. split.
  - unfold current_default_worker_limiter, try_except, RunVar_get.
    rewrite Hnone. unfold bind, CapacityLimiter_new.
    pose proof DEFAULT_LIMIT_positive.
    destruct (Z.ltb_spec (DEFAULT_LIMIT os_cpu_count) 1); [lia|].
    reflexivity.
  - apply not_elem_of_dom. apply is_fresh.
Qed.

(** Any later call: the stored object, and nothing changes. *)
Lemma limiter_reused (r : Run) (l : nat) :
  _limiter_local r = Some l -> limiter_of r = (Ok l, r).
Proof.
  intros Hsome. unfold current_default_worker_limiter, try_except, RunVar_get.
  rewrite Hsome. reflexivity.
Qed.
End LimiterFacts.

(** C9.  Within one run, [current_default_worker_limiter()] is idempotent:
    a call returns a limiter object and leaves a state in which every
    further call returns that same object (by identity) and changes
    nothing.  The object is created lazily: when the run-local variable is
    unset the call allocates a new object (one that did not exist) whose
    [total_tokens] is the detected CPU count, or 1 when the count is
    unavailable; when it is set the call allocates nothing. *)
Theorem default_limiter_idempotent (os_cpu_count : option N) (r : Impl.Run) :
  exists limiter r1,
    Impl.current_default_worker_limiter os_cpu_count r = (Ok limiter, r1) /\
    (forall k : nat,
       Impl.current_default_worker_limiter os_cpu_count
         (Nat.iter k
            (fun s => snd (Impl.current_default_worker_limiter os_cpu_count s))
            r1) =
       (Ok limiter, r1)) /\
    (Impl._limiter_local r = None ->
       Impl.limiters r !! limiter = None /\
       Impl.limiters r1 !! limiter =
         Some (Impl.mkLimiter
                 match os_cpu_count with
                 | Some n => if (n =? 0)%N then 1 else Z.of_N n
                 | None => 1
                 end) /\
       (forall l, l <> limiter -> Impl.limiters r1 !! l = Impl.limiters r !! l)) /\
    (forall l, Impl._limiter_local r = Some l -> limiter = l /\ r1 = r).
Proof.
  assert (Hiter : forall limiter r1,
            Impl.current_default_worker_limiter os_cpu_count r1 = (Ok limiter, r1) ->
            forall k : nat,
              Impl.current_default_worker_limiter os_cpu_count
                (Nat.iter k
                   (fun s => snd (Impl.current_default_worker_limiter os_cpu_count s))
                   r1) =
              (Ok limiter, r1)).
  { intros limiter r1 Hfix k. induction k as [|k IH]; [exact Hfix|].
    simpl. rewrite IH. simpl. exact Hfix. }
  destruct (Impl._limiter_local r) as [l|] eqn:Hl.
  - exists l, r. pose proof (limiter_reused os_cpu_count r l Hl) as Hre.
    split; [exact Hre|]. split; [apply Hiter; exact Hre|].
    split; [discriminate|]. intros l' E. injection E as <-. split; reflexivity.
  - destruct (limiter_created os_cpu_count r Hl) as [Hnew Hfresh].
    eexists _, _. split; [exact Hnew|].
    split; [apply Hiter; apply limiter_reused; reflexivity|].
    split; [|discriminate].
    intros _. split; [exact Hfresh|]. cbn. split.
    + rewrite lookup_insert_eq. reflexivity.
    + intros l' Hne. rewrite lookup_insert_ne by congruence. reflexivity.
Qed.

(** Two CPUs detected, then none: capacities 2 and 1; the second call of
    a run gives the object of the first. *)
Example limiter_two_cpus :
  let r0 := Impl.mkRun ∅ None in
  let '(l1, r1) := Impl.current_default_worker_limiter (Some 2%N) r0 in
  let '(l2, r2) := Impl.current_default_worker_limiter (Some 2%N) r1 in
  l1 = l2 /\ r1 = r2 /\
  (match l1 with
   | Ok l => Impl.limiters r1 !! l
   | Raise _ => None
   end) = Some (Impl.mkLimiter 2).
Proof. vm_compute. repeat split. Qed.

Example limiter_no_cpu_count :
  Impl.DEFAULT_LIMIT None = 1 /\ Impl.DEFAULT_LIMIT (Some 8%N) = 8.
Proof. split; reflexivity. Qed.

(** ** [cache_scope] *)

Section ScopeFacts.
Import Impl.
Context {W WorkerClass E : Type}.
Variable WORKER_MAP : WorkerType -> WorkerClass.

Local Abbreviation enter := (@cache_scope_enter W WorkerClass E WORKER_MAP).

Lemma Qltb_lt (x y : Q) : Qltb x y = true <-> (x < y)%Q.
Proof.
  unfold Qltb. rewrite negb_true_iff. split.
  - intros Hb. apply Qnot_le_lt. intros Hle.
    apply Qle_bool_iff in Hle. congruence.
  - intros Hlt. destruct (Qle_bool y x) eqn:Hb; [|reflexivity].
    apply Qle_bool_iff in Hb. exfalso. exact (Qlt_not_le _ _ Hlt Hb).
Qed.

(** Each of the three checks fails with [ValueError] and touches nothing. *)
Lemma enter_not_member (timeout : Q) (retire_arg : RetireArg) (repr : string)
    (h : Host) :
  enter timeout retire_arg (NotMember repr) h =
  (Raise (ValueError "worker_type must be a member of WorkerType"), h).
Proof. reflexivity. Qed.

Lemma enter_negative (timeout : Q) (retire_arg : RetireArg) (wt : WorkerType)
    (h : Host) :
  (timeout < 0)%Q ->
  enter timeout retire_arg (Member wt) h =
  (Raise (ValueError "idle_timeout must be non-negative"), h).
Proof.
  intros Hneg. unfold cache_scope_enter.
  apply Qltb_lt in Hneg. rewrite Hneg. reflexivity.
Qed.

Lemma enter_not_callable (timeout : Q) (repr : string) (wt : WorkerType)
    (h : Host) :
  ~ (timeout < 0)%Q ->
  enter timeout (NotCallable repr) (Member wt) h =
  (Raise (ValueError "retire must be callable (with no arguments)"), h).
Proof.
  intros Hnn. unfold cache_scope_enter.
  destruct (Qltb timeout 0) eqn:Hb; [apply Qltb_lt in Hb; contradiction|].
  reflexivity.
Qed.

(** With valid arguments the scope is entered: a new empty cache, the
    new context bound; the environment (the workers) is as before. *)
Lemma enter_valid (timeout : Q) (f : Retire) (wt : WorkerType) (h : Host) :
  ~ (timeout < 0)%Q ->
  let c := fresh (dom (caches h)) in
  let ctx := mkContext timeout f (WORKER_MAP wt) c in
  enter timeout (Callable f) (Member wt) h =
  (Ok (ctx, _worker_context_var h),
   mkHost (run h) ctx (<[c := []]> (caches h)) (env h)).
Proof.
  intros Hnn c ctx. unfold cache_scope_enter.
  destruct (Qltb timeout 0) eqn:Hb; [apply Qltb_lt in Hb; contradiction|].
  reflexivity.
Qed.
End ScopeFacts.

(** C8.  Opening a cache scope with an invalid argument (a [worker_type]
    that is not a member of [WorkerType], a negative [idle_timeout], or a
    [retire] that is not callable) raises [ValueError] at scope entry, and
    the host is exactly as before: no cache and no context were created,
    no worker was created, and the environment, where any work of a worker
    would show, is untouched. *)
Theorem cache_scope_invalid_argument {W WorkerClass E : Type}
    (WORKER_MAP : Impl.WorkerType -> WorkerClass)
    (timeout : Q) (retire_arg : Impl.RetireArg)
    (worker_type : Impl.WorkerTypeArg) (h : @Impl.Host W WorkerClass E) :
  (exists repr, worker_type = Impl.NotMember repr) \/
  (timeout < 0)%Q \/
  (exists repr, retire_arg = Impl.NotCallable repr) ->
  exists msg,
    Impl.cache_scope_enter WORKER_MAP timeout retire_arg worker_type h =
    (Raise (ValueError msg), h).
Proof.
  intros Hinvalid.
  destruct worker_type as [wt|repr].
  2: { eexists. apply enter_not_member. }
  destruct (Qlt_le_dec timeout 0) as [Hneg|Hnn].
  { eexists. apply enter_negative. exact Hneg. }
  destruct retire_arg as [f|repr].
  2: { eexists. apply enter_not_callable. apply Qle_not_lt. exact Hnn. }
  exfalso. destruct Hinvalid as [[repr Hm]|[Hneg|[repr Hc]]].
  - discriminate.
  - exact (Qlt_not_le _ _ Hneg Hnn).
  - discriminate.
Qed.

Lemma cache_scope_invalid_argument_witness :
  exists msg,
    Impl.cache_scope_enter (W := nat) (E := unit) (fun _ => tt)
      (-1 # 10) (Impl.Callable (fun _ => false)) (Impl.Member Impl.SPAWN)
      (Impl.mkHost (Impl.mkRun ∅ None)
         (Impl.mkContext 600 (fun _ => false) tt 0%nat) ∅ tt) =
    (Raise (ValueError msg),
     Impl.mkHost (Impl.mkRun ∅ None)
       (Impl.mkContext 600 (fun _ => false) tt 0%nat) ∅ tt).
Proof.
  apply (cache_scope_invalid_argument (W := nat) (E := unit) (fun _ => tt)
           (-1 # 10) (Impl.Callable (fun _ => false)) (Impl.Member Impl.SPAWN)).
  right. left. reflexivity.
Defined.

Example cache_scope_bad_retire :
  fst (Impl.cache_scope_enter (W := nat) (E := unit) (fun _ => tt)
         (1 # 10) (Impl.NotCallable "3") (Impl.Member Impl.FORK)
         (Impl.mkHost (Impl.mkRun ∅ None)
            (Impl.mkContext 600 (fun _ => false) tt 0%nat) ∅ tt)) =
  Raise (ValueError "retire must be callable (with no arguments)").
Proof. reflexivity. Qed.

(** ** The dispatcher *)

Section DispatchFacts.
Import Impl.
Context {Fn Args Val W WorkerClass E : Type}.
Variable os_cpu_count : option N.
Variable worker_new : WorkerClass -> Q -> Retire -> M E W.
Variable proc_run_sync : W -> Fn -> Args -> bool -> M E (option (Outcome Val)).
Variable is_alive : E -> W -> bool.
Variable cache_prune : list W -> M E (list W).
Variable checkpoint_if_cancelled : M E unit.
Variable limiter_enter : nat -> M E unit.
Variable limiter_exit : nat -> option PyExc -> M E bool.

Local Abbreviation Host := (@Impl.Host W WorkerClass E).
Local Abbreviation Ctx := (@Impl.WorkerContext WorkerClass).
Local Abbreviation take := (@take_worker W WorkerClass E worker_new is_alive).
Local Abbreviation attempt :=
  (@Impl.attempt Fn Args Val W WorkerClass E worker_new proc_run_sync
     is_alive checkpoint_if_cancelled).
Local Abbreviation attempts :=
  (@Impl.attempts Fn Args Val W WorkerClass E worker_new proc_run_sync
     is_alive checkpoint_if_cancelled).
Local Abbreviation prune :=
  (@Impl.prune_cache W WorkerClass E cache_prune).
Local Abbreviation limited :=
  (@Impl.limited Fn Args Val W WorkerClass E worker_new proc_run_sync
     is_alive cache_prune checkpoint_if_cancelled).
Local Abbreviation dispatch :=
  (@Impl.run_sync Fn Args Val W WorkerClass E os_cpu_count worker_new
     proc_run_sync is_alive cache_prune checkpoint_if_cancelled limiter_enter
     limiter_exit).

(** The environment's operations do not reach the caches. *)
Lemma on_env_caches {A} (m : M E A) (h h' : Host) (r : Result A) :
  on_env m h = (r, h') -> caches h' = caches h.
Proof.
  unfold on_env. destruct (m (env h)) as [r0 e0].
  intros Heq. injection Heq as <- <-. reflexivity.
Qed.

Lemma cache_of_env {A} (m : M E A) (ctx : Ctx) (h h' : Host) (r : Result A) :
  on_env m h = (r, h') -> cache_of ctx h' = cache_of ctx h.
Proof. intros Heq. unfold cache_of. rewrite (on_env_caches m h h' r Heq). reflexivity. Qed.

Lemma cache_of_set (ctx : Ctx) (c : list W) (h : Host) :
  cache_of ctx (snd (set_cache ctx c h)) = c.
Proof. unfold cache_of, set_cache, modify. cbn. rewrite lookup_insert_eq. reflexivity. Qed.

(** Taking a worker, by what the scan of the cache meets: the most
    recently appended live handle, which is taken while it and the dead
    handles appended after it leave the cache; or no live handle, and
    then the cache is emptied and a worker is made with the class, the
    timeout and the predicate of the context. *)
Lemma take_worker_scan (ctx : Ctx) (h : Host) :
  (exists older p newer,
      cache_of ctx h = older ++ p :: newer /\
      is_alive (env h) p = true /\
      Forall (fun q => is_alive (env h) q = false) newer /\
      take ctx h = (Ok p, snd (set_cache ctx older h))) \/
  (Forall (fun q => is_alive (env h) q = false) (cache_of ctx h) /\
   take ctx h =
   on_env (worker_new (worker_class ctx) (idle_timeout ctx) (retire ctx))
     (snd (set_cache ctx [] h))).
Proof.
  unfold take_worker, WorkerCache_pop.
  destruct (pop_scan (is_alive (env h)) (cache_of ctx h))
    as [(older & p & newer & Hc & Hp & Hd & Hpop)|[Hd Hpop]]; rewrite Hpop.
  - left. exists older, p, newer. repeat split; assumption.
  - right. split; [exact Hd|]. reflexivity.
Qed.

(** Taking a worker shortens the cache from its right end or leaves it
    alone; a new worker is not in the cache. *)
Lemma take_worker_cache (ctx : Ctx) (h h' : Host) (r : Result W) :
  take ctx h = (r, h') ->
  exists k, cache_of ctx h' = firstn k (cache_of ctx h).
Proof.
  destruct (take_worker_scan ctx h)
    as [(older & p & newer & Hc & _ & _ & Ht)|[_ Ht]]; rewrite Ht.
  - intros Heq.
    assert (Hh : h' = snd (set_cache ctx older h)) by congruence.
    exists (length older).
    rewrite Hh, cache_of_set, Hc, firstn_app, Nat.sub_diag, firstn_all. simpl.
    rewrite app_nil_r. reflexivity.
  - intros Heq. exists 0%nat.
    rewrite (cache_of_env _ ctx _ _ _ Heq), cache_of_set. reflexivity.
Qed.

(** One turn never adds to the cache. *)
Lemma attempt_cache (ctx : Ctx) (fn : Fn) (args : Args) (c : bool)
    (bound bound' : option W) (h h' : Host)
    (r : Result (option (Outcome Val))) :
  attempt ctx fn args c bound h = (r, bound', h') ->
  exists k, cache_of ctx h' = firstn k (cache_of ctx h).
Proof.
  unfold Impl.attempt.
  destruct (on_env checkpoint_if_cancelled h) as [[[]|e] ha] eqn:Hck;
    pose proof (cache_of_env _ ctx _ _ _ Hck) as Ha.
  2: { intros Heq. injection Heq as _ _ <-.
       exists (length (cache_of ctx h)). rewrite Ha, firstn_all. reflexivity. }
  destruct (take ctx ha) as [[proc|e] hb] eqn:Htake;
    destruct (take_worker_cache ctx ha hb _ Htake) as [k Hk].
  - destruct (on_env (proc_run_sync proc fn args (negb c)) hb)
      as [rr hc] eqn:Hrun.
    intros Heq. injection Heq as _ _ <-.
    exists k. rewrite (cache_of_env _ ctx _ _ _ Hrun), Hk, Ha. reflexivity.
  - intros Heq. injection Heq as _ _ <-.
    exists k. rewrite Hk, Ha. reflexivity.
Qed.

(** So the loop, however many turns it takes, only ever shortens the
    cache from its right end. *)
Lemma attempts_cache (ctx : Ctx) (fn : Fn) (args : Args) (c : bool)
    (fuel : nat) :
  forall (bound bound' : option W) (h h' : Host) (r : Result (Outcome Val)),
    attempts fuel ctx fn args c bound h = Some (r, bound', h') ->
    exists k, cache_of ctx h' = firstn k (cache_of ctx h).
Proof.
  induction fuel as [|fuel IH]; intros bound bound' h h' r; [discriminate|].
  cbn [Impl.attempts].
  destruct (attempt ctx fn args c bound h) as [[[[o|]|e] b1] h1] eqn:Hat;
    destruct (attempt_cache ctx fn args c _ _ h h1 _ Hat) as [k Hk].
  - intros Heq. injection Heq as _ _ <-. eauto.
  - intros Hrest. destruct (IH _ _ h1 h' r Hrest) as [k' Hk'].
    exists (Nat.min k' k). rewrite Hk', Hk. apply firstn_firstn.
  - intros Heq. injection Heq as _ _ <-. eauto.
Qed.

(** *** What a call leaves alone *)

Lemma framed_refl (ctx : Ctx) (h : Host) : framed ctx h h.
Proof. repeat split. Qed.

Lemma framed_trans (ctx : Ctx) (h1 h2 h3 : Host) :
  framed ctx h1 h2 -> framed ctx h2 h3 -> framed ctx h1 h3.
Proof.
  intros (A1 & B1 & C1) (A2 & B2 & C2). repeat split; try congruence.
  intros c Hc. rewrite (C2 c Hc). apply C1. exact Hc.
Qed.

Lemma framed_env {A} (ctx : Ctx) (m : M E A) (h h' : Host) (r : Result A) :
  on_env m h = (r, h') -> framed ctx h h'.
Proof.
  unfold on_env. destruct (m (env h)) as [r0 e0].
  intros Heq. injection Heq as <- <-. repeat split.
Qed.

Lemma framed_set (ctx : Ctx) (c : list W) (h : Host) :
  framed ctx h (snd (set_cache ctx c h)).
Proof.
  repeat split. intros c' Hc. cbn. apply lookup_insert_ne. congruence.
Qed.

Lemma framed_take (ctx : Ctx) (h h' : Host) (r : Result W) :
  take ctx h = (r, h') -> framed ctx h h'.
Proof.
  destruct (take_worker_scan ctx h)
    as [(older & p & newer & _ & _ & _ & Ht)|[_ Ht]]; rewrite Ht.
  - intros Heq.
    assert (Hh : h' = snd (set_cache ctx older h)) by congruence.
    rewrite Hh. apply framed_set.
  - intros Heq. eapply framed_trans; [apply framed_set|].
    eapply framed_env. exact Heq.
Qed.

Lemma framed_attempt (ctx : Ctx) (fn : Fn) (args : Args) (c : bool)
    (bound bound' : option W) (h h' : Host)
    (r : Result (option (Outcome Val))) :
  attempt ctx fn args c bound h = (r, bound', h') -> framed ctx h h'.
Proof.
  unfold Impl.attempt.
  destruct (on_env checkpoint_if_cancelled h) as [[[]|e] ha] eqn:Hck;
    pose proof (framed_env ctx _ _ _ _ Hck) as F1.
  2: { intros Heq. injection Heq as _ _ <-. exact F1. }
  destruct (take ctx ha) as [[proc|e] hb] eqn:Htake;
    pose proof (framed_take ctx _ _ _ Htake) as F2.
  2: { intros Heq. injection Heq as _ _ <-. eapply framed_trans; eauto. }
  destruct (on_env (proc_run_sync proc fn args (negb c)) hb) as [rr hc] eqn:Hrun.
  pose proof (framed_env ctx _ _ _ _ Hrun) as F3.
  intros Heq. injection Heq as _ _ <-.
  exact (framed_trans _ _ _ _ (framed_trans _ _ _ _ F1 F2) F3).
Qed.

Lemma framed_attempts (ctx : Ctx) (fn : Fn) (args : Args) (c : bool)
    (fuel : nat) :
  forall (bound bound' : option W) (h h' : Host) (r : Result (Outcome Val)),
    attempts fuel ctx fn args c bound h = Some (r, bound', h') ->
    framed ctx h h'.
Proof.
  induction fuel as [|fuel IH]; intros bound bound' h h' r; [discriminate|].
  cbn [Impl.attempts].
  destruct (attempt ctx fn args c bound h) as [[[[o|]|e] b1] h1] eqn:Hat;
    pose proof (framed_attempt ctx fn args c _ _ h h1 _ Hat) as F1.
  - intros Heq. injection Heq as _ _ <-. exact F1.
  - intros Hrest. eapply framed_trans; [exact F1|]. eapply IH; eauto.
  - intros Heq. injection Heq as _ _ <-. exact F1.
Qed.

Lemma framed_prune (ctx : Ctx) (h h' : Host) (r : Result unit) :
  prune ctx h = (r, h') -> framed ctx h h'.
Proof.
  unfold prune_cache, bind, get.
  destruct (on_env (cache_prune (cache_of ctx h)) h) as [[c|e] h1] eqn:Hp;
    pose proof (framed_env ctx _ _ _ _ Hp) as F1.
  - intros Heq.
    assert (h' = snd (set_cache ctx c h1)) as ->
      by (unfold set_cache, modify in *; cbn in *; congruence).
    eapply framed_trans; [exact F1|apply framed_set].
  - intros Heq. injection Heq as <- <-. exact F1.
Qed.

Lemma framed_limited (ctx : Ctx) (fn : Fn) (args : Args) (c : bool)
    (fuel : nat) (bound : option W) (h h' : Host) (r : Result (Outcome Val)) :
  limited fuel ctx fn args c h = Some (r, bound, h') -> framed ctx h h'.
Proof.
  unfold Impl.limited.
  destruct (prune ctx h) as [[[]|e] h2] eqn:Hpr;
    pose proof (framed_prune ctx _ _ _ Hpr) as F2.
  - intros Hloop. eapply framed_trans; [exact F2|].
    eapply framed_attempts; eauto.
  - intros Heq. injection Heq as _ _ <-. exact F2.
Qed.

Lemma framed_after_block (ctx : Ctx) (bound : option W)
    (result : option (Outcome Val)) (h : Host) :
  framed ctx h (snd (after_block ctx bound result h)).
Proof.
  unfold after_block. destruct bound as [proc|]; [|apply framed_refl].
  unfold bind, get. cbn.
  destruct result as [o|]; apply framed_set.
Qed.

(** The whole call, from the state the limiter was picked in. *)
Lemma framed_dispatch_from (fuel : nat) (fn : Fn) (args : Args) (c : bool)
    (limiter : option nat) (l : nat) (h h0 h' : Host) (r : Result Val) :
  pick_limiter os_cpu_count limiter h = (Ok l, h0) ->
  dispatch fuel fn args c limiter h = Some (r, h') ->
  framed (_worker_context_var h0) h0 h'.
Proof.
  intros Hpick. unfold Impl.run_sync. rewrite Hpick.
  set (ctx := _worker_context_var h0).
  destruct (on_env (limiter_enter l) h0) as [[[]|e] h1] eqn:Hen;
    pose proof (framed_env ctx _ _ _ _ Hen) as F1.
  2: { intros Heq. injection Heq as <- <-. exact F1. }
  destruct (Impl.limited _ _ _ _ _ fuel ctx fn args c h1)
    as [[[body bound] h3]|] eqn:Hloop; [|discriminate].
  pose proof (framed_limited ctx fn args c fuel _ _ _ _ Hloop) as F3.
  pose proof (framed_trans _ _ _ _ F1 F3) as F13.
  destruct body as [o|e].
  - destruct (on_env (limiter_exit l None) h3) as [[b|e] h4] eqn:Hex;
      pose proof (framed_env ctx _ _ _ _ Hex) as F4.
    + intros Heq.
      assert (h' = snd (after_block ctx bound (Some o) h4)) as ->
        by (injection Heq as Heq; rewrite Heq; reflexivity).
      eapply framed_trans; [exact F13|].
      eapply framed_trans; [exact F4|]. apply framed_after_block.
    + intros Heq. injection Heq as _ <-. eapply framed_trans; eauto.
  - destruct (on_env (limiter_exit l (Some e)) h3) as [[[|]|e'] h4] eqn:Hex;
      pose proof (framed_env ctx _ _ _ _ Hex) as F4.
    + intros Heq.
      assert (h' = snd (after_block ctx bound None h4)) as ->
        by (injection Heq as Heq; rewrite Heq; reflexivity).
      eapply framed_trans; [exact F13|].
      eapply framed_trans; [exact F4|]. apply framed_after_block.
    + intros Heq. injection Heq as _ <-. eapply framed_trans; eauto.
    + intros Heq. injection Heq as _ <-. eapply framed_trans; eauto.
Qed.

(** *** The loop when no handle ever answers *)

Lemma attempts_never_end (ctx : Ctx) (fn : Fn) (args : Args) (c : bool) :
  (forall e, fst (checkpoint_if_cancelled e) = Ok tt) ->
  (forall cls t rt e, exists w, fst (worker_new cls t rt e) = Ok w) ->
  (forall w sh e, fst (proc_run_sync w fn args sh e) = Ok None) ->
  forall (fuel : nat) (bound : option W) (h : Host),
    attempts fuel ctx fn args c bound h = None.
Proof.
  intros Hck Hnew Hrun. induction fuel as [|fuel IH]; intros bound h;
    [reflexivity|].
  cbn [Impl.attempts]. unfold Impl.attempt.
  unfold on_env at 1. specialize (Hck (env h)).
  destruct (checkpoint_if_cancelled (env h)) as [rc e1]. cbn in Hck. subst rc.
  destruct (take ctx _) as [rt hb] eqn:Htake.
  assert (exists proc, rt = Ok proc) as [proc ->].
  { revert Htake.
    destruct (take_worker_scan ctx
                (mkHost (run h) (_worker_context_var h) (caches h) e1))
      as [(older & p & newer & _ & _ & _ & Ht)|[_ Ht]]; rewrite Ht.
    - intros Heq. injection Heq as <- _. eauto.
    - unfold on_env. cbn [env set_cache modify snd].
      destruct (Hnew (worker_class ctx) (idle_timeout ctx) (retire ctx) e1)
        as [w Hw].
      destruct (worker_new _ _ _ e1) as [rw e2]. cbn in Hw. subst rw.
      intros Heq. injection Heq as <- _. eauto. }
  unfold on_env. specialize (Hrun proc (negb c) (env hb)).
  destruct (proc_run_sync proc fn args (negb c) (env hb)) as [rr e3].
  cbn in Hrun. subst rr. apply IH.
Qed.

(** *** The call by its steps *)

(** One turn, by its three steps. *)
Lemma attempt_steps (ctx : Ctx) (fn : Fn) (args : Args) (c : bool)
    (bound : option W) (h ha hb hc : Host) (proc : W)
    (r : Result (option (Outcome Val))) :
  on_env checkpoint_if_cancelled h = (Ok tt, ha) ->
  take ctx ha = (Ok proc, hb) ->
  on_env (proc_run_sync proc fn args (negb c)) hb = (r, hc) ->
  attempt ctx fn args c bound h = (r, Some proc, hc).
Proof.
  intros Hck Htake Hrun. unfold Impl.attempt.
  rewrite Hck, Htake, Hrun. reflexivity.
Qed.

(** The call, by its steps, once the loop has ended. *)
Lemma dispatch_steps (fuel : nat) (fn : Fn) (args : Args) (c : bool)
    (limiter : option nat) (l : nat) (h h0 h1 h2 h3 : Host)
    (body : Result (Outcome Val)) (bound : option W) :
  pick_limiter os_cpu_count limiter h = (Ok l, h0) ->
  on_env (limiter_enter l) h0 = (Ok tt, h1) ->
  prune (_worker_context_var h0) h1 = (Ok tt, h2) ->
  attempts fuel (_worker_context_var h0) fn args c None h2 =
    Some (body, bound, h3) ->
  dispatch fuel fn args c limiter h =
  match body with
  | Ok result =>
      match on_env (limiter_exit l None) h3 with
      | (Raise e, h4) => Some (Raise e, h4)
      | (Ok _, h4) =>
          Some (after_block (_worker_context_var h0) bound (Some result) h4)
      end
  | Raise e =>
      match on_env (limiter_exit l (Some e)) h3 with
      | (Raise e', h4) => Some (Raise e', h4)
      | (Ok true, h4) =>
          Some (after_block (_worker_context_var h0) bound None h4)
      | (Ok false, h4) => Some (Raise e, h4)
      end
  end.
Proof.
  intros Hpick Henter Hprune Hloop. unfold Impl.run_sync.
  rewrite Hpick, Henter. unfold Impl.limited. rewrite Hprune, Hloop.
  destruct body; reflexivity.
Qed.

Lemma after_block_bound (ctx : Ctx) (proc : W) (o : Outcome Val) (h : Host) :
  after_block ctx (Some proc) (Some o) h =
  (unwrap o, snd (set_cache ctx (cache_of ctx h ++ [proc]) h)).
Proof. reflexivity. Qed.

(** A clean return: the handle goes back to the right end of the cache
    and the envelope is unwrapped. *)
Lemma dispatch_clean (fuel : nat) (fn : Fn) (args : Args) (c : bool)
    (limiter : option nat) (l : nat) (h h0 h1 h2 ha hb hc h4 : Host)
    (proc : W) (o : Outcome Val) (suppress : bool) :
  pick_limiter os_cpu_count limiter h = (Ok l, h0) ->
  on_env (limiter_enter l) h0 = (Ok tt, h1) ->
  prune (_worker_context_var h0) h1 = (Ok tt, h2) ->
  on_env checkpoint_if_cancelled h2 = (Ok tt, ha) ->
  take (_worker_context_var h0) ha = (Ok proc, hb) ->
  on_env (proc_run_sync proc fn args (negb c)) hb = (Ok (Some o), hc) ->
  on_env (limiter_exit l None) hc = (Ok suppress, h4) ->
  dispatch (S fuel) fn args c limiter h =
    Some (unwrap o,
          snd (set_cache (_worker_context_var h0)
                 (cache_of (_worker_context_var h0) hb ++ [proc]) h4)).
Proof.
  intros Hpick Henter Hprune Hck Htake Hrun Hexit.
  pose proof (attempt_steps _ fn args c None h2 ha hb hc proc _ Hck Htake Hrun)
    as Hat.
  assert (Hloop : attempts (S fuel) (_worker_context_var h0) fn args c None h2 =
                  Some (Ok o, Some proc, hc)).
  { cbn [Impl.attempts]. rewrite Hat. reflexivity. }
  rewrite (dispatch_steps _ fn args c limiter l h h0 h1 h2 hc _ _
             Hpick Henter Hprune Hloop), Hexit.
  rewrite after_block_bound.
  rewrite (cache_of_env _ _ _ _ _ Hexit), (cache_of_env _ _ _ _ _ Hrun).
  reflexivity.
Qed.

(** A failure inside the loop, under a limiter that lets it pass: the
    call raises it, and the cache is what the loop left, the pruned cache
    shortened by the handles taken; nothing was appended. *)
Lemma dispatch_failure (fuel : nat) (fn : Fn) (args : Args) (c : bool)
    (limiter : option nat) (l : nat) (h h0 h1 h2 h3 h4 : Host) (e : PyExc)
    (bound : option W) :
  pick_limiter os_cpu_count limiter h = (Ok l, h0) ->
  on_env (limiter_enter l) h0 = (Ok tt, h1) ->
  prune (_worker_context_var h0) h1 = (Ok tt, h2) ->
  attempts fuel (_worker_context_var h0) fn args c None h2 =
    Some (Raise e, bound, h3) ->
  on_env (limiter_exit l (Some e)) h3 = (Ok false, h4) ->
  dispatch fuel fn args c limiter h = Some (Raise e, h4) /\
  cache_of (_worker_context_var h0) h4 = cache_of (_worker_context_var h0) h3 /\
  exists k, cache_of (_worker_context_var h0) h4 =
            firstn k (cache_of (_worker_context_var h0) h2).
Proof.
  intros Hpick Henter Hprune Hloop Hexit.
  rewrite (dispatch_steps _ fn args c limiter l h h0 h1 h2 h3 _ _
             Hpick Henter Hprune Hloop), Hexit.
  destruct (attempts_cache _ fn args c fuel _ _ h2 h3 _ Hloop) as [k Hk].
  pose proof (cache_of_env _ (_worker_context_var h0) _ _ _ Hexit) as Hc.
  split; [reflexivity|]. split; [exact Hc|].
  exists k. rewrite Hc. exact Hk.
Qed.

(** [if limiter is None: ...] never fails: the default limiter is made
    with at least one token. *)
Lemma pick_limiter_ok (limiter : option nat) (h : Host) :
  exists l h0,
    pick_limiter os_cpu_count limiter h = (Ok l, h0) /\
    _worker_context_var h0 = _worker_context_var h /\
    caches h0 = caches h /\ env h0 = env h /\
    (limiter <> None \/ _limiter_local (run h) <> None -> run h0 = run h).
Proof.
  unfold pick_limiter. destruct limiter as [l|].
  - exists l, h. repeat split.
  - unfold on_run.
    destruct (_limiter_local (run h)) as [l0|] eqn:Hl.
    + rewrite (limiter_reused os_cpu_count (run h) l0 Hl).
      eexists _, _. repeat split.
    + destruct (limiter_created os_cpu_count (run h) Hl) as [Hnew _].
      rewrite Hnew. eexists _, _. repeat split.
      intros [Hn|Hn]; contradiction.
Qed.
End DispatchFacts.


(** C6.  When calling [fn] on [args] in the worker gives a coroutine object
    [c]: the worker closes [c], the [TypeError] raised is captured into
    the [Error] envelope, the envelope is sent, and the loop goes on with
    the next barrier wait (it does not exit; the rest of its inbox is
    there to serve).  On the host, the handle that receives this envelope
    raises that [TypeError] to the caller as the result's own exception,
    and nothing is killed. *)
Theorem coroutine_is_closed_and_reported {Fn Args Val : Type}
    (call : Fn -> Args -> Result Val) (iscoroutine : Val -> bool)
    (qualname : Fn -> string)
    (loads_job : bytes -> Result (Fn * Args))
    (dumps_outcome : Outcome Val -> Result bytes)
    (dumps_job : Fn * Args -> Result bytes)
    (loads_outcome : bytes -> Result (Outcome Val))
    (fn : Fn) (args : Args) (c : Val) (msg payload reply : bytes) :
  call fn args = Ok c -> iscoroutine c = true ->
  loads_job msg = Ok (fn, args) ->
  dumps_outcome (Error (TypeError (async_message qualname fn))) = Ok reply ->
  loads_outcome reply = Ok (Error (TypeError (async_message qualname fn))) ->
  dumps_job (fn, args) = Ok payload ->
  len payload < 2 ^ 64 -> len reply < 2 ^ 64 ->
  (forall (later : list BarrierResult) (w : @WorkerSt Val) (rest : list bytes),
     inbox w = msg :: rest ->
     _work call iscoroutine qualname loads_job dumps_outcome (Released :: later) w =
     _work call iscoroutine qualname loads_job dumps_outcome later
       (mkWorker rest (outbox w ++ [reply])
          (log w ++ [EvBarrierWait IDLE_TIMEOUT; EvRecv; EvClose c;
                     EvSend (Error (TypeError (async_message qualname fn)))]))) /\
  (forall (b : Handle.Barrier) (p : Handle.Process) (st : bool)
          (w0 : list bytes) (rest : bytes) (sch : list ReadEv) (r : nat),
     Handle.n_waiting b = 0%nat -> fault_free sch = true ->
     exists h',
       Handle.run_sync dumps_job loads_outcome fn args
         (Handle.mkHandle b p st (mkSend w0 [])
            (mkRecv (frame reply ++ rest) sch r)) =
       (Raise (TypeError (async_message qualname fn)), h') /\
       Handle._barrier h' = b /\ Handle._proc h' = p).
Proof.
  intros Hcall Hco Hjob Hdump Hload Hpay Hlp Hlr.
  assert (Hout : job_outcome call iscoroutine qualname fn args =
                 Error (TypeError (async_message qualname fn))).
  { unfold job_outcome. rewrite Hcall, Hco. reflexivity. }
  assert (Hcl : job_closes call iscoroutine fn args = [EvClose c]).
  { unfold job_closes. rewrite Hcall, Hco. reflexivity. }
  split.
  - intros later w rest Hin.
    rewrite (work_released call iscoroutine qualname loads_job dumps_outcome
               later w msg reply rest fn args Hin Hjob);
      [|rewrite Hout; exact Hdump].
    rewrite Hout, Hcl. reflexivity.
  - intros b p st w0 rest sch r Hn Hff.
    destruct (HandleFacts.exchange_healthy dumps_job loads_outcome b p st w0 rest
                sch r fn args payload reply _ Hpay Hlp Hlr Hff Hload)
      as (writes & sch' & r' & Hex & _ & _).
    eexists. rewrite HandleFacts.run_sync_by_exchange by exact Hn.
    rewrite Hex. cbn. repeat split.
Qed.

Lemma coroutine_is_closed_and_reported_witness :
  snd (Toy.work [Released; Released; Broken]
         (mkWorker [[x02; x05]; [x00; x07]] [] [])) =
  mkWorker [] [[x01; x00]; [x00; x31]]
    [EvBarrierWait 600; EvRecv; EvClose 1000;
     EvSend (Error (TypeError (async_message Toy.qualname 2%nat)));
     EvBarrierWait 600; EvRecv; EvSend (Value 49);
     EvBarrierWait 600].
Proof.
  pose proof (coroutine_is_closed_and_reported Toy.call Toy.iscoroutine
                Toy.qualname Toy.loads_job Toy.dumps_outcome Toy.dumps_job
                Toy.loads_outcome 2%nat 5 1000 [x02; x05] [x02; x05] [x01; x00]
                eq_refl eq_refl eq_refl eq_refl eq_refl eq_refl eq_refl eq_refl)
    as [Hwork _].
  unfold Toy.work.
  rewrite (Hwork [Released; Broken] (mkWorker [[x02; x05]; [x00; x07]] [] [])
             [[x00; x07]] eq_refl).
  reflexivity.
Defined.





(** Two jobs under any [retire], and the waits of a worker released
    once. *)
Example work_two_jobs :
  Toy.work [Released; Released; Broken]
    (mkWorker [[x00; x07]; [x00; x03]] [] []) =
  (Ok tt,
   mkWorker [] [[x00; x31]; [x00; x09]]
     [EvBarrierWait 600; EvRecv; EvSend (Value 49);
      EvBarrierWait 600; EvRecv; EvSend (Value 9);
      EvBarrierWait 600]).
Proof. vm_compute. reflexivity. Qed.

Example work_waits_600 :
  waits (log (snd (Toy.work [Released; Broken] (mkWorker [[x00; x07]] [] [])))) =
    [600; 600].
Proof. reflexivity. Qed.

Lemma unwrap_envelope_of {Val : Type} (r : Result Val) :
  unwrap (envelope_of r) = r.
Proof. destruct r; reflexivity. Qed.


(* ===================================================================== *)
(** * Further properties of the framed channel                           *)
(* ===================================================================== *)

Section ReceiveInvariant.
Context {S : Type} {RS : ReceiveStream S}.

(** The loop returns only when it has gathered exactly what was asked
    for, on any stream, also one that hands over too much or too little. *)
Lemma recv_loop_length (n : nat) :
  forall (size : Z) (acc buf : bytes) (s s' : S),
    Z.to_nat size = n ->
    recv_loop size acc s = (Ok buf, s') ->
    len buf = len acc + size.
Proof.
  induction n as [n IH] using lt_wf_ind.
  intros size acc buf s s' Hn. rewrite recv_loop_step.
  destruct (Z.eq_dec size 0) as [->|Hnz].
  - intros Heq. injection Heq as <- <-. lia.
  - destruct (receive_some size s) as [[p|e] s1]; [|discriminate].
    destruct (Z.eq_dec (len p) 0); [discriminate|].
    destruct (Z_gt_dec (len p) size); [discriminate|].
    intros Hrec.
    assert (Hp : 0 <= len p) by (unfold len; lia).
    apply (IH (Z.to_nat (size - len p)) ltac:(lia)) in Hrec; [|reflexivity].
    rewrite Hrec. unfold len. rewrite List.length_app. lia.
Qed.
End ReceiveInvariant.

(** X1.  Whatever the stream does (short reads, too many bytes, failures),
    [_recv_exactly(size)] returns a buffer only when the buffer holds
    exactly [size] bytes; in particular it never returns for a negative
    [size]. *)
Theorem recv_exactly_returns_exact_size {S : Type} {RS : ReceiveStream S}
    (size : Z) (s s' : S) (buf : bytes) :
  _recv_exactly size s = (Ok buf, s') -> len buf = size /\ 0 <= size.
Proof.
  intros H. unfold _recv_exactly in H.
  apply (recv_loop_length (Z.to_nat size) size [] buf s s' eq_refl) in H.
  change (len (@nil byte)) with 0 in H. rewrite Z.add_0_l in H.
  split; [exact H|]. rewrite <- H. unfold len. lia.
Qed.

Lemma recv_exactly_returns_exact_size_witness :
  len [x61; x62] = 2 /\ 0 <= 2.
Proof.
  apply (recv_exactly_returns_exact_size 2
           (mkRecv [x61; x62; x63] [Deliver 1] 0) (mkRecv [x63] [] 2)).
  vm_compute. reflexivity.
Defined.

Section Truncated.

Lemma recv_loop_truncated (n : nat) :
  forall (data acc : bytes) (sch : list ReadEv) (r : nat) (size : Z),
    length data = n -> fault_free sch = true -> len data < size ->
    exists sch' r',
      recv_loop size acc (mkRecv data sch r) =
      (Raise (EndOfChannel "got end of file during message"),
       mkRecv [] sch' r').
Proof.
  induction n as [n IH] using lt_wf_ind.
  intros data acc sch r size Hlen Hff Hshort.
  assert (Hpos : 0 <= len data) by (unfold len; lia).
  rewrite recv_loop_step.
  destruct (Z.eq_dec size 0) as [|_]; [lia|].
  unfold receive_some, FdRecvStream_receive, fd_receive_some.
  destruct (Z.ltb_spec size 1) as [|_]; [lia|].
  cbn [schedule pending n_reads].
  assert (Hstep : forall m sch1, (1 <= m)%nat -> fault_free sch1 = true ->
    exists sch' r',
      (if Z.eq_dec (len (firstn m data)) 0
       then (Raise (EndOfChannel "got end of file during message"),
             mkRecv (skipn m data) sch1 (Datatypes.S r))
       else if Z_gt_dec (len (firstn m data)) size
            then (Raise (RuntimeError "Oversized response"),
                  mkRecv (skipn m data) sch1 (Datatypes.S r))
            else recv_loop (size - len (firstn m data)) (acc ++ firstn m data)
                   (mkRecv (skipn m data) sch1 (Datatypes.S r))) =
      (Raise (EndOfChannel "got end of file during message"),
       mkRecv [] sch' r')).
  { intros m sch1 Hm Hff1.
    assert (Hl : len (firstn m data) = Z.of_nat (Nat.min m (length data))).
    { unfold len. rewrite List.length_firstn. reflexivity. }
    destruct data as [|x data'].
    - rewrite firstn_nil, skipn_nil. simpl. eauto.
    - rewrite Hl.
      destruct (Z.eq_dec (Z.of_nat (Nat.min m (length (x :: data')))) 0)
        as [Hz|_]; [simpl in Hz; lia|].
      destruct (Z_gt_dec (Z.of_nat (Nat.min m (length (x :: data')))) size)
        as [Hgt|_]; [unfold len in Hshort; lia|].
      apply (IH (length (skipn m (x :: data')))).
      + rewrite List.length_skipn. simpl in *. lia.
      + reflexivity.
      + exact Hff1.
      + unfold len in *. rewrite List.length_skipn. lia. }
  destruct sch as [|[k|e] sch1].
  - apply Hstep; [lia|reflexivity].
  - apply Hstep; [lia|]. eapply fault_free_tail; eauto.
  - discriminate Hff.
Qed.

End Truncated.

(** X2.  When the pipe holds fewer bytes than asked for and then ends (the
    peer closed it), [_recv_exactly] reads what is there and raises
    [EndOfChannel], whatever the cut of the reads; the short data is not
    returned.  This is for a count that [os.read] accepts, one below
    [2 ^ 63]: a larger one, which an extended header can name, is
    refused by the read itself. *)
Theorem recv_exactly_short_pipe (data : bytes) (sch : list ReadEv) (r : nat)
    (size : Z) :
  fault_free sch = true -> len data < size -> size < 2 ^ 63 ->
  exists sch' r',
    _recv_exactly size (mkRecv data sch r) =
    (Raise (EndOfChannel "got end of file during message"), mkRecv [] sch' r').
Proof.
  intros Hff Hshort _. unfold _recv_exactly.
  apply (recv_loop_truncated (length data)); auto.
Qed.

Lemma recv_exactly_short_pipe_witness :
  exists sch' r',
    _recv_exactly 4 (mkRecv [x00; x00] [Deliver 1] 0) =
    (Raise (EndOfChannel "got end of file during message"), mkRecv [] sch' r').
Proof.
  apply (recv_exactly_short_pipe [x00; x00] [Deliver 1] 0 4); reflexivity.
Defined.

(** X3.  The send policy: a payload of at most 16384 bytes goes out in one
    [send_all] holding header and payload together; a longer one is never
    copied, it is the last of two writes (three when the length needs the
    extended header). *)
Theorem send_write_policy (buf : bytes) (w0 : list bytes) :
  len buf < 2 ^ 64 ->
  exists writes,
    _send buf (mkSend w0 []) = (Ok tt, mkSend (w0 ++ writes) []) /\
    (len buf <= 16384 -> writes = [frame buf]) /\
    (16384 < len buf <= 0x7FFFFFFF ->
       exists header, writes = [header; buf] /\ length header = 4%nat) /\
    (0x7FFFFFFF < len buf ->
       exists pre ext, writes = [pre; ext; buf] /\
         length pre = 4%nat /\ length ext = 8%nat).
Proof.
  intros Hmax.
  assert (Hpos : 0 <= len buf) by (unfold len; lia).
  destruct (Z_le_gt_dec (len buf) 0x7FFFFFFF) as [Hsmall|Hbig].
  - destruct (unpack_pack_i (len buf)) as (h & Hp & Hl & _);
      [unfold INT_MIN, INT_MAX; lia|].
    destruct (Z_le_gt_dec (len buf) 16384) as [Hshort|Hmed].
    + exists [h ++ buf]. split; [apply send_short; assumption|].
      split; [|split; intros; lia].
      intros _. unfold frame, wire.
      rewrite (send_short buf h []) by assumption. simpl.
      rewrite app_nil_r. reflexivity.
    + exists [h; buf].
      split; [rewrite (send_medium buf h w0) by assumption;
              rewrite <- app_assoc; reflexivity|].
      split; [intros; lia|]. split; [|intros; lia].
      intros _. exists h. split; [reflexivity|exact Hl].
  - destruct (unpack_pack_Q (len buf)) as (ext & Hp & Hl & _); [lia|].
    exists [[xff; xff; xff; xff]; ext; buf].
    split; [rewrite (send_long buf ext w0) by assumption;
            rewrite <- !app_assoc; reflexivity|].
    split; [intros; lia|]. split; [intros; lia|].
    intros _. exists [xff; xff; xff; xff], ext. repeat split. exact Hl.
Qed.

Lemma send_write_policy_witness :
  exists writes,
    _send [x61] (mkSend [[x07]] []) = (Ok tt, mkSend ([[x07]] ++ writes) []) /\
    (len [x61] <= 16384 -> writes = [frame [x61]]) /\
    (16384 < len [x61] <= 0x7FFFFFFF ->
       exists header, writes = [header; [x61]] /\ length header = 4%nat) /\
    (0x7FFFFFFF < len [x61] ->
       exists pre ext, writes = [pre; ext; [x61]] /\
         length pre = 4%nat /\ length ext = 8%nat).
Proof. apply (send_write_policy [x61] [[x07]]). reflexivity. Defined.

Lemma wire_snoc (w : list bytes) (fs fs' : list (option (nat * PyExc)))
    (d : bytes) :
  wire (mkSend (w ++ [d]) fs) = wire (mkSend w fs') ++ d.
Proof. unfold wire. cbn. rewrite concat_app. simpl. rewrite app_nil_r. reflexivity. Qed.

(** One [send_all] of some bytes: all of them go out, or it raises with
    a part of them out that is not all. *)
Lemma send_all_cases (data : bytes) (s : FdSendStream) :
  data <> [] ->
  (fst (fd_send_all data s) = Ok tt /\
   wire (snd (fd_send_all data s)) = wire s ++ data) \/
  (exists e sent rest,
     fst (fd_send_all data s) = Raise e /\
     wire (snd (fd_send_all data s)) = wire s ++ sent /\
     data = sent ++ rest /\ rest <> []).
Proof.
  intros Hne. unfold fd_send_all. destruct s as [w fs].
  destruct fs as [|[[k e]|] fs]; cbn [send_faults written fst snd].
  - left. split; [reflexivity|apply wire_snoc].
  - right. unfold partial_write.
    destruct (Nat.min k (Nat.pred (length data))) as [|m] eqn:Hm.
    + exists e, [], data. rewrite app_nil_r.
      repeat split; [unfold wire; cbn; rewrite app_nil_r; reflexivity|exact Hne].
    + exists e, (firstn (S m) data), (skipn (S m) data).
      split; [reflexivity|]. split; [apply wire_snoc|].
      split; [symmetry; apply firstn_skipn|].
      intros Hnil. apply (f_equal (@length byte)) in Hnil.
      rewrite List.length_skipn in Hnil. simpl in Hnil.
      destruct data as [|b data]; [contradiction|]. simpl in *. lia.
  - left. split; [reflexivity|apply wire_snoc].
Qed.

(** X4.  What [_send] leaves on the wire is always a beginning of the
    frame: whatever the stream does, the bytes that went out are the
    frame's first bytes, all of them exactly when [_send] returns and
    fewer when it raises.  (A header may then be out without its payload:
    a failed send leaves the pipe out of step, which is why [run_sync]
    kills the worker.) *)
Theorem send_leaves_prefix_of_frame (buf : bytes) (s : FdSendStream) :
  len buf < 2 ^ 64 ->
  exists sent rest,
    wire (snd (_send buf s)) = wire s ++ sent /\
    frame buf = sent ++ rest /\
    (fst (_send buf s) = Ok tt -> rest = []) /\
    (forall e, fst (_send buf s) = Raise e -> rest <> []).
Proof.
  intros Hmax.
  assert (Hpos : 0 <= len buf) by (unfold len; lia).
  assert (Hone : forall d : bytes, d <> [] ->
            exists sent rest,
              wire (snd (fd_send_all d s)) = wire s ++ sent /\
              d = sent ++ rest /\
              (fst (fd_send_all d s) = Ok tt -> rest = []) /\
              (forall e, fst (fd_send_all d s) = Raise e -> rest <> [])).
  { intros d Hd.
    destruct (send_all_cases d s Hd) as [[Hr Hw]|(e & sent & rest & Hr & Hw & Hs & Hn)].
    - exists d, []. rewrite app_nil_r, Hr. repeat split; [exact Hw|].
      intros e He. discriminate.
    - exists sent, rest. rewrite Hr. repeat split; try assumption.
      + intros He. discriminate.
      + intros _ _. exact Hn. }
  assert (Htwo : forall (a b : bytes) (s0 : FdSendStream), a <> [] -> b <> [] ->
            exists sent rest,
              wire (snd (bind (send_all a) (fun _ => send_all b) s0)) =
                wire s0 ++ sent /\
              a ++ b = sent ++ rest /\
              (fst (bind (send_all a) (fun _ => send_all b) s0) = Ok tt ->
               rest = []) /\
              (forall e, fst (bind (send_all a) (fun _ => send_all b) s0) = Raise e ->
                         rest <> [])).
  { intros a b s0 Ha Hb. unfold bind, send_all, FdSendStream_send.
    destruct (send_all_cases a s0 Ha)
      as [[Hr Hw]|(e & sent & rest & Hr & Hw & Hs & Hn)];
      destruct (fd_send_all a s0) as [ra s1]; cbn [fst snd] in *; subst ra.
    - destruct (send_all_cases b s1 Hb)
        as [[Hr2 Hw2]|(e & sent & rest & Hr2 & Hw2 & Hs2 & Hn2)];
        destruct (fd_send_all b s1) as [rb s2]; cbn [fst snd] in *; subst rb.
      + exists (a ++ b), []. rewrite app_nil_r, Hw2, Hw, app_assoc.
        repeat split. intros e He. discriminate.
      + exists (a ++ sent), rest. rewrite Hw2, Hw, Hs2, !app_assoc.
        repeat split; [intros He; discriminate|intros _ _; exact Hn2].
    - cbn [fst snd]. exists sent, (rest ++ b). rewrite Hw, Hs, app_assoc.
      repeat split; [intros He; discriminate|].
      intros _ _ Hnil. apply app_eq_nil in Hnil. tauto. }
  destruct (Z_le_gt_dec (len buf) 0x7FFFFFFF) as [Hsmall|Hbig].
  - destruct (unpack_pack_i (len buf)) as (h & Hp & Hl & _);
      [unfold INT_MIN, INT_MAX; lia|].
    assert (Hh : h <> []) by (intros ->; discriminate).
    destruct (Z_le_gt_dec (len buf) 16384) as [Hshort|Hmed].
    + assert (Hframe : frame buf = h ++ buf).
      { unfold frame, wire. rewrite (send_short buf h []) by assumption.
        simpl. apply app_nil_r. }
      rewrite Hframe. unfold _send.
      destruct (Z.gtb_spec (len buf) 0x7FFFFFFF) as [|_]; [lia|].
      unfold bind at 1, lift. rewrite Hp.
      destruct (Z.gtb_spec (len buf) 16384) as [|_]; [lia|].
      apply Hone. intros Hnil. apply app_eq_nil in Hnil. tauto.
    + assert (Hframe : frame buf = h ++ buf).
      { unfold frame, wire. rewrite (send_medium buf h []) by assumption.
        simpl. rewrite app_nil_r. reflexivity. }
      rewrite Hframe. unfold _send.
      destruct (Z.gtb_spec (len buf) 0x7FFFFFFF) as [|_]; [lia|].
      unfold bind at 1, lift. rewrite Hp.
      destruct (Z.gtb_spec (len buf) 16384) as [_|]; [|lia].
      apply Htwo; [exact Hh|]. intros ->. unfold len in Hmed. simpl in Hmed. lia.
  - destruct (unpack_pack_Q (len buf)) as (ext & Hp & Hl & _); [lia|].
    assert (Hext : ext <> []) by (intros ->; discriminate).
    assert (Hbuf : buf <> []).
    { intros ->. unfold len in Hbig. simpl in Hbig. lia. }
    assert (Hframe : frame buf = [xff; xff; xff; xff] ++ ext ++ buf).
    { unfold frame, wire. rewrite (send_long buf ext []) by assumption.
      simpl. rewrite app_nil_r. reflexivity. }
    assert (Hsend : _send buf s =
              match fd_send_all [xff; xff; xff; xff] s with
              | (Ok _, s1) => bind (send_all ext) (fun _ => send_all buf) s1
              | (Raise e, s1) => (Raise e, s1)
              end).
    { unfold _send.
      destruct (Z.gtb_spec (len buf) 0x7FFFFFFF) as [_|]; [|lia].
      unfold bind at 1, lift. rewrite pack_i_minus_one.
      unfold bind at 1. rewrite Hp. reflexivity. }
    rewrite Hframe, Hsend.
    destruct (send_all_cases [xff; xff; xff; xff] s ltac:(discriminate))
      as [[Hr Hw]|(e & sent & rest & Hr & Hw & Hs & Hn)];
      destruct (fd_send_all [xff; xff; xff; xff] s) as [[[]|ea] s1];
      cbn [fst snd] in *; try discriminate.
    + destruct (Htwo ext buf s1 Hext Hbuf) as (sent & rest & Hw2 & Hs2 & Hok & Hbad).
      exists ([xff; xff; xff; xff] ++ sent), rest.
      rewrite Hw2, Hw, Hs2, !app_assoc. repeat split; assumption.
    + cbn [fst snd]. exists sent, (rest ++ ext ++ buf). rewrite Hw, Hs, !app_assoc.
      repeat split; [intros He; discriminate|].
      intros _ _ Hnil. apply app_eq_nil in Hnil. tauto.
Qed.

Lemma send_leaves_prefix_of_frame_witness :
  exists sent rest,
    wire (snd (_send [x61; x62; x63] (mkSend [] [Some (5%nat, Cancelled)]))) =
      wire (mkSend [] [Some (5%nat, Cancelled)]) ++ sent /\
    frame [x61; x62; x63] = sent ++ rest /\
    (fst (_send [x61; x62; x63] (mkSend [] [Some (5%nat, Cancelled)])) = Ok tt ->
     rest = []) /\
    (forall e,
       fst (_send [x61; x62; x63] (mkSend [] [Some (5%nat, Cancelled)])) = Raise e ->
       rest <> []).
Proof.
  apply (send_leaves_prefix_of_frame [x61; x62; x63]
           (mkSend [] [Some (5%nat, Cancelled)])).
  reflexivity.
Defined.

(** A cancellation after five bytes of the seven of a frame: the header
    and one byte of the payload are out. *)
Example send_cancelled_midway :
  _send [x61; x62; x63] (mkSend [] [Some (5%nat, Cancelled)]) =
  (Raise Cancelled, mkSend [[x00; x00; x00; x03; x61]] []).
Proof. reflexivity. Qed.

(** X5.  Messages keep their order and their boundaries: two payloads
    sent one after the other are read back, by two [_recv], as the first
    and then the second, whatever the cut of the reads, and what follows
    them stays in the pipe. *)
Theorem two_messages_in_order (a b rest : bytes) (sch : list ReadEv) (r : nat) :
  len a < 2 ^ 64 -> len b < 2 ^ 64 -> fault_free sch = true ->
  exists sent sch' r',
    bind (_send a) (fun _ => _send b) (mkSend [] []) = (Ok tt, sent) /\
    bind _recv (fun x => bind _recv (fun y => ret (x, y)))
      (mkRecv (wire sent ++ rest) sch r) =
    (Ok (a, b), mkRecv rest sch' r').
Proof.
  intros Ha Hb Hff.
  destruct (send_then_frame a [] Ha) as (wa & Hsa & Hca).
  destruct (send_then_frame b ([] ++ wa) Hb) as (wb & Hsb & Hcb).
  destruct (recv_frame a (frame b ++ rest) sch r Ha Hff) as (s1 & r1 & E1 & F1).
  destruct (recv_frame b rest s1 r1 Hb F1) as (s2 & r2 & E2 & _).
  exists (mkSend (([] ++ wa) ++ wb) []), s2, r2.
  split.
  - unfold bind. rewrite Hsa. exact Hsb.
  - unfold wire. cbn [written]. rewrite !concat_app, Hca, Hcb. simpl.
    rewrite <- app_assoc. unfold bind. rewrite E1, E2. reflexivity.
Qed.

Lemma two_messages_in_order_witness :
  exists sent sch' r',
    bind (_send [x61]) (fun _ => _send []) (mkSend [] []) = (Ok tt, sent) /\
    bind _recv (fun x => bind _recv (fun y => ret (x, y)))
      (mkRecv (wire sent ++ [x09]) [Deliver 3] 0) =
    (Ok ([x61], []), mkRecv [x09] sch' r').
Proof.
  apply (two_messages_in_order [x61] [] [x09] [Deliver 3] 0); reflexivity.
Defined.

(* ===================================================================== *)
(** * Further properties of the child loop                               *)
(* ===================================================================== *)

Section WorkMore.
Context {Fn Args Val : Type}.
Variable call : Fn -> Args -> Result Val.
Variable iscoroutine : Val -> bool.
Variable qualname : Fn -> string.
Variable loads_job : bytes -> Result (Fn * Args).
Variable dumps_outcome : Outcome Val -> Result bytes.

Local Abbreviation work := (_work call iscoroutine qualname loads_job dumps_outcome).
Local Abbreviation outcome := (job_outcome call iscoroutine qualname).

Lemma work_serves_all (js : list (bytes * (Fn * Args) * bytes)) :
  forall (later : list BarrierResult) (w : @WorkerSt Val) (rest : list bytes),
    Forall (well_coded call iscoroutine qualname loads_job dumps_outcome) js ->
    inbox w = map (fun j => fst (fst j)) js ++ rest ->
    exists l',
      work (repeat Released (length js) ++ later) w =
      work later (mkWorker rest (outbox w ++ map snd js) (log w ++ l')) /\
      waits l' = repeat IDLE_TIMEOUT (length js).
Proof.
  induction js as [|[[msg [fn args]] reply] js IH]; intros later w rest Hall Hin.
  - exists []. simpl in *. rewrite !app_nil_r. destruct w; simpl in *; subst.
    split; reflexivity.
  - inversion Hall as [|? ? Hj Hall']; subst. destruct Hj as [Hl Hd].
    cbn [length repeat app].
    rewrite (work_released call iscoroutine qualname loads_job dumps_outcome
               (repeat Released (length js) ++ later) w msg reply
               (map (fun j => fst (fst j)) js ++ rest) fn args Hin Hl Hd).
    destruct (IH later
                (mkWorker (map (fun j => fst (fst j)) js ++ rest)
                   (outbox w ++ [reply])
                   (log w ++ [EvBarrierWait IDLE_TIMEOUT; EvRecv] ++
                    job_closes call iscoroutine fn args ++
                    [EvSend (outcome fn args)]))
                rest Hall' eq_refl) as (l' & Hw & Hn).
    eexists. split.
    + rewrite Hw. cbn [outbox log map snd].
      rewrite <- !app_assoc. reflexivity.
    + rewrite !waits_app, Hn, (waits_job_closes call iscoroutine). reflexivity.
Qed.
End WorkMore.

(** X6.  One reply per job, in the order of the jobs: a worker that is
    released once for each of the jobs in its pipe, every job and every
    envelope being picklable, sends exactly the envelopes of these jobs in
    order, leaves what follows in the pipe unread, waits on the barrier
    once per job and once more, and when that last wait finds the barrier
    broken it returns (exit code 0). *)
Theorem work_serves_jobs_in_order {Fn Args Val : Type}
    (call : Fn -> Args -> Result Val) (iscoroutine : Val -> bool)
    (qualname : Fn -> string)
    (loads_job : bytes -> Result (Fn * Args))
    (dumps_outcome : Outcome Val -> Result bytes)
    (js : list (bytes * (Fn * Args) * bytes))
    (later : list BarrierResult) (w : @WorkerSt Val) (rest : list bytes) :
  Forall (well_coded call iscoroutine qualname loads_job dumps_outcome) js ->
  inbox w = map (fun j => fst (fst j)) js ++ rest ->
  exists final,
    _work call iscoroutine qualname loads_job dumps_outcome
      (repeat Released (length js) ++ Broken :: later) w = (Ok tt, final) /\
    inbox final = rest /\
    outbox final = outbox w ++ map snd js /\
    waits (log final) =
      waits (log w) ++ repeat IDLE_TIMEOUT (Datatypes.S (length js)).
Proof.
  intros Hall Hin.
  destruct (work_serves_all call iscoroutine qualname loads_job dumps_outcome
              js (Broken :: later) w rest Hall Hin) as (l' & Hw & Hn).
  eexists. split; [rewrite Hw; apply work_broken|].
  cbn [inbox outbox log]. split; [reflexivity|]. split; [reflexivity|].
  assert (Hrep : forall k, repeat IDLE_TIMEOUT k ++ [IDLE_TIMEOUT] =
                           repeat IDLE_TIMEOUT (Datatypes.S k)).
  { induction k as [|k IH]; [reflexivity|]. simpl in *. rewrite IH. reflexivity. }
  rewrite !waits_app, Hn.
  change (waits [EvBarrierWait IDLE_TIMEOUT]) with [IDLE_TIMEOUT].
  rewrite <- app_assoc, Hrep. reflexivity.
Qed.

Lemma work_serves_jobs_in_order_witness :
  exists final,
    Toy.work (repeat Released 2 ++ [Broken])
      (mkWorker [[x00; x07]; [x01; x02]; [x00; x03]] [] []) = (Ok tt, final) /\
    inbox final = [[x00; x03]] /\
    outbox final = [] ++ [[x00; x31]; [x02; x00]] /\
    waits (log final) = [] ++ repeat IDLE_TIMEOUT 3.
Proof.
  apply (work_serves_jobs_in_order Toy.call Toy.iscoroutine Toy.qualname
           Toy.loads_job Toy.dumps_outcome
           [([x00; x07], (0%nat, 7), [x00; x31]);
            ([x01; x02], (1%nat, 2), [x02; x00])]
           [] (mkWorker [[x00; x07]; [x01; x02]; [x00; x03]] [] [])
           [[x00; x03]]).
  - repeat constructor.
  - reflexivity.
Defined.

(** X7.  What the loop does not capture: [capture] wraps only the call.
    A closed pipe ([EOFError] from [recv]), a job that cannot be
    unpickled, and an envelope that cannot be pickled each end [_work]
    with that exception (exit code 1, whatever the barrier would do
    next); nothing is sent for that job and no later job is read. *)
Theorem work_ends_on_pipe_or_codec_error {Fn Args Val : Type}
    (call : Fn -> Args -> Result Val) (iscoroutine : Val -> bool)
    (qualname : Fn -> string)
    (loads_job : bytes -> Result (Fn * Args))
    (dumps_outcome : Outcome Val -> Result bytes)
    (later : list BarrierResult) (w : @WorkerSt Val) :
  let run := _work call iscoroutine qualname loads_job dumps_outcome
               (Released :: later) w in
  (inbox w = [] ->
     fst run = Raise EOFError /\ exitcode (fst run) = 1 /\
     outbox (snd run) = outbox w) /\
  (forall msg rest e,
     inbox w = msg :: rest -> loads_job msg = Raise e ->
     fst run = Raise e /\ exitcode (fst run) = 1 /\
     outbox (snd run) = outbox w /\ inbox (snd run) = rest) /\
  (forall msg rest fn args e,
     inbox w = msg :: rest -> loads_job msg = Ok (fn, args) ->
     dumps_outcome (job_outcome call iscoroutine qualname fn args) = Raise e ->
     fst run = Raise e /\ exitcode (fst run) = 1 /\
     outbox (snd run) = outbox w /\ inbox (snd run) = rest).
Proof.
  cbn zeta. cbn [_work]. unfold bind at 1. unfold emit, modify.
  unfold bind at 1. unfold serve_one, bind, pipe_recv. cbn [inbox outbox log].
  split; [|split].
  - intros Hin. rewrite Hin. repeat split.
  - intros msg rest e Hin Hl. rewrite Hin, Hl. repeat split.
  - intros msg rest fn args e Hin Hl Hd. rewrite Hin, Hl. cbn [fst snd].
    rewrite capture_checker. unfold pipe_send, bind, lift. rewrite Hd.
    repeat split.
Qed.

Example work_undecodable_job :
  Toy.work [Released; Released; Broken] (mkWorker [[x00]; [x00; x07]] [] []) =
  (Raise (UserError "UnpicklingError" "bad job"),
   mkWorker [[x00; x07]] [] [EvBarrierWait 600; EvRecv]).
Proof. reflexivity. Qed.

(* ===================================================================== *)
(** * More of the handle: reuse, and [wake_up]                           *)
(* ===================================================================== *)

Section WakeFacts.
Import Handle Wake.

(** The barrier part of [wake_up] on a started handle leaves it started
    and starts nothing. *)
Lemma barrier_wait_started (wait : BarrierResult) (alive : bool) (s : Started) :
  _started (handle s) = true ->
  _started (handle (snd (barrier_wait wait alive s))) = true /\
  starts (snd (barrier_wait wait alive s)) = starts s.
Proof.
  intros Hs. unfold barrier_wait. destruct wait; [auto|].
  destruct alive; [|auto].
  destruct (HandleFacts.kill_streams (handle s)) as (_ & _ & Hst).
  destruct (kill (handle s)) as [[[]|e] h']; cbn in *; split; congruence.
Qed.

Lemma wake_up_on_started (start : option PyExc) (wait : BarrierResult)
    (alive : bool) (s : Started) :
  _started (handle s) = true ->
  wake_up start wait alive s = barrier_wait wait alive s.
Proof. intros Hs. unfold wake_up, bind, start_process. rewrite Hs. reflexivity. Qed.

Lemma wake_up_first_start (wait : BarrierResult) (alive : bool) (s : Started) :
  _started (handle s) = false ->
  wake_up None wait alive s =
  barrier_wait wait alive
    (mkStarted (mark_started (handle s)) (Datatypes.S (starts s)) (joins s)).
Proof. intros Hs. unfold wake_up, bind, start_process. rewrite Hs. reflexivity. Qed.

Lemma wake_up_start_fails (e : PyExc) (wait : BarrierResult) (alive : bool)
    (s : Started) :
  _started (handle s) = false ->
  wake_up (Some e) wait alive s =
  (Raise e, mkStarted (handle s) (Datatypes.S (starts s)) (joins s)).
Proof. intros Hs. unfold wake_up, bind, start_process. rewrite Hs. reflexivity. Qed.

Lemma wake_ups_started (calls : list (option PyExc * BarrierResult * bool)) :
  forall s, _started (handle s) = true ->
            starts (wake_ups calls s) = starts s /\
            _started (handle (wake_ups calls s)) = true.
Proof.
  induction calls as [|[[start wait] alive] later IH]; intros s Hs; [auto|].
  cbn [wake_ups]. rewrite (wake_up_on_started start wait alive s Hs).
  destruct (barrier_wait_started wait alive s Hs) as [H1 H2].
  destruct (IH _ H1) as [H3 H4]. split; [congruence|exact H4].
Qed.

Lemma wake_ups_failing (calls : list (option PyExc * BarrierResult * bool)) :
  Forall (fun c => fst (fst c) <> None) calls ->
  forall s, _started (handle s) = false ->
            wake_ups calls s =
            mkStarted (handle s) (length calls + starts s) (joins s).
Proof.
  induction 1 as [|[[start wait] alive] later Hc _ IH]; intros s Hs.
  - destruct s; reflexivity.
  - cbn [wake_ups]. cbn in Hc. destruct start as [e|]; [|contradiction].
    rewrite (wake_up_start_fails e wait alive s Hs). cbn [snd].
    rewrite IH by exact Hs. cbn. f_equal. lia.
Qed.

End WakeFacts.

(** X8.  A handle serves one job after the other: after a [run_sync] that
    ended cleanly (also one that re-raised the job's own exception), the
    next [run_sync] on the same handle sends its job behind the first on
    the same pipe and gets the next reply; nothing is killed and the two
    frames sit on the wire in the order of the calls. *)
Theorem handle_serves_next_job {Fn Args Val : Type}
    (dumps_job : Fn * Args -> Result bytes)
    (loads_outcome : bytes -> Result (Outcome Val))
    (b : Handle.Barrier) (p : Handle.Process) (st : bool)
    (w0 : list bytes) (rest : bytes) (sch : list ReadEv) (r : nat)
    (fn1 fn2 : Fn) (args1 args2 : Args)
    (job1 job2 reply1 reply2 : bytes) (o1 o2 : Outcome Val) :
  Handle.n_waiting b = 0%nat -> fault_free sch = true ->
  dumps_job (fn1, args1) = Ok job1 -> dumps_job (fn2, args2) = Ok job2 ->
  loads_outcome reply1 = Ok o1 -> loads_outcome reply2 = Ok o2 ->
  len job1 < 2 ^ 64 -> len job2 < 2 ^ 64 ->
  len reply1 < 2 ^ 64 -> len reply2 < 2 ^ 64 ->
  exists h1 h2,
    Handle.run_sync dumps_job loads_outcome fn1 args1
      (Handle.mkHandle b p st (mkSend w0 [])
         (mkRecv (frame reply1 ++ frame reply2 ++ rest) sch r)) =
      (unwrap o1, h1) /\
    Handle.run_sync dumps_job loads_outcome fn2 args2 h1 = (unwrap o2, h2) /\
    Handle._barrier h2 = b /\ Handle._proc h2 = p /\
    wire (Handle._send_stream h2) = concat w0 ++ frame job1 ++ frame job2 /\
    pending (Handle._recv_stream h2) = rest.
Proof.
  intros Hn Hff Hd1 Hd2 Hl1 Hl2 Hj1 Hj2 Hr1 Hr2.
  destruct (HandleFacts.exchange_healthy dumps_job loads_outcome b p st w0
              (frame reply2 ++ rest) sch r fn1 args1 job1 reply1 o1
              Hd1 Hj1 Hr1 Hff Hl1) as (ws1 & sch1 & r1 & Hex1 & Hc1 & Hff1).
  destruct (HandleFacts.exchange_healthy dumps_job loads_outcome b p st
              (w0 ++ ws1) rest sch1 r1 fn2 args2 job2 reply2 o2
              Hd2 Hj2 Hr2 Hff1 Hl2) as (ws2 & sch2 & r2 & Hex2 & Hc2 & _).
  eexists _, _.
  rewrite HandleFacts.run_sync_by_exchange by exact Hn. rewrite Hex1.
  split; [reflexivity|].
  rewrite HandleFacts.run_sync_by_exchange by exact Hn. rewrite Hex2.
  split; [reflexivity|]. cbn. repeat split.
  unfold wire. cbn. rewrite !concat_app, Hc1, Hc2, <- app_assoc. reflexivity.
Qed.

Lemma handle_serves_next_job_witness :
  exists h1 h2,
    Handle.run_sync Toy.dumps_job Toy.loads_outcome 1%nat 2
      (Handle.mkHandle (Handle.mkBarrier 0 false)
         (Handle.mkProcess "worker 0" true []) true (mkSend [] [])
         (mkRecv (frame [x02; x00] ++ frame [x00; x31] ++ []) [Deliver 1] 0)) =
      (unwrap (Error (UserError "ZeroDivisionError" "division by zero")), h1) /\
    Handle.run_sync Toy.dumps_job Toy.loads_outcome 0%nat 7 h1 =
      (unwrap (Value 49), h2) /\
    Handle._barrier h2 = Handle.mkBarrier 0 false /\
    Handle._proc h2 = Handle.mkProcess "worker 0" true [] /\
    wire (Handle._send_stream h2) =
      concat [] ++ frame [x01; x02] ++ frame [x00; x07] /\
    pending (Handle._recv_stream h2) = [].
Proof.
  apply (handle_serves_next_job Toy.dumps_job Toy.loads_outcome
           (Handle.mkBarrier 0 false) (Handle.mkProcess "worker 0" true [])
           true [] [] [Deliver 1] 0%nat 1%nat 0%nat 2 7
           [x01; x02] [x00; x07] [x02; x00] [x00; x31]);
    reflexivity.
Defined.

(** X9.  [wake_up] keeps trying to start the process until a start
    goes through, and starts it once: on a handle that is not started, a
    call whose [start()] raises raises that exception, waits on no
    barrier and leaves the handle unstarted, so the next call calls
    [start()] again; after the first call whose [start()] goes through
    the handle is marked started and no later call, whatever it meets,
    calls [start()] again.  A call that gets to the barrier raises
    exactly when its wait finds the barrier broken, and then what it
    raises is [BrokenWorkerError]; the process is killed and joined then
    if and only if it is still alive. *)
Theorem wake_up_starts_until_started (h : Handle.WorkerProc)
    (failing later : list (option PyExc * BarrierResult * bool))
    (wait : BarrierResult) (alive : bool) :
  let s0 := Wake.mkStarted h 0 0 in
  (Handle._started h = false ->
   Forall (fun c => fst (fst c) <> None) failing ->
     Wake.wake_ups failing s0 = Wake.mkStarted h (length failing) 0 /\
     (forall e, fst (Wake.wake_up (Some e) wait alive s0) = Raise e) /\
     Wake.starts
       (Wake.wake_ups (failing ++ (None, wait, alive) :: later) s0) =
       Datatypes.S (length failing) /\
     Handle._started
       (Wake.handle
          (Wake.wake_ups (failing ++ (None, wait, alive) :: later) s0)) = true) /\
  (forall start, Handle._started h = true \/ start = None ->
     let s1 := snd (Wake.wake_up start wait alive s0) in
     (wait = Released ->
        fst (Wake.wake_up start wait alive s0) = Ok tt /\
        Handle.signals (Handle._proc (Wake.handle s1)) =
          Handle.signals (Handle._proc h) /\
        Wake.joins s1 = 0%nat) /\
     (wait = Broken ->
        (exists msg,
           fst (Wake.wake_up start wait alive s0) = Raise (BrokenWorkerError msg)) /\
        (alive = true ->
           Handle.killed (Wake.handle s1) /\ Wake.joins s1 = 1%nat) /\
        (alive = false ->
           Handle.signals (Handle._proc (Wake.handle s1)) =
             Handle.signals (Handle._proc h) /\
           Wake.joins s1 = 0%nat))).
Proof.
  cbn zeta. split.
  - intros Hs Hfail.
    pose proof (wake_ups_failing failing Hfail (Wake.mkStarted h 0 0) Hs) as Hf.
    cbn [Wake.handle Wake.starts Wake.joins] in Hf. rewrite Nat.add_0_r in Hf.
    split; [exact Hf|]. split.
    { intros e. rewrite wake_up_start_fails by exact Hs. reflexivity. }
    assert (Hsplit : forall a b s, Wake.wake_ups (a ++ b) s =
                                   Wake.wake_ups b (Wake.wake_ups a s)).
    { induction a as [|[[st w] al] a IH]; intros b s; [reflexivity|].
      cbn [app Wake.wake_ups]. apply IH. }
    rewrite Hsplit, Hf. cbn [Wake.wake_ups].
    rewrite wake_up_first_start by exact Hs.
    cbn [Wake.handle Wake.starts Wake.joins].
    set (s1 := Wake.mkStarted (Wake.mark_started h)
                 (Datatypes.S (length failing)) 0).
    destruct (barrier_wait_started wait alive s1 eq_refl) as [H1 H2].
    destruct (wake_ups_started later _ H1) as [H3 H4].
    split; [rewrite H3, H2; reflexivity|exact H4].
  - intros start Hstart.
    assert (Hw : exists s', Handle._started (Wake.handle s') = true /\
                 Handle._proc (Wake.handle s') = Handle._proc h /\
                 Wake.joins s' = 0%nat /\
                 Wake.wake_up start wait alive (Wake.mkStarted h 0 0) =
                 Wake.barrier_wait wait alive s').
    { destruct (Handle._started h) eqn:Hs.
      - exists (Wake.mkStarted h 0 0). repeat split; [exact Hs|].
        apply wake_up_on_started. exact Hs.
      - destruct Hstart as [Hs'| ->]; [discriminate|].
        eexists. split; [|split; [|split; [|apply wake_up_first_start; exact Hs]]];
          reflexivity. }
    destruct Hw as (s' & Hst & Hproc & Hj & ->).
    split.
    + intros ->. cbn. rewrite Hproc, Hj. repeat split.
    + intros ->. unfold Wake.barrier_wait.
      destruct (HandleFacts.kill_killed (Wake.handle s') Hst) as [Hk1 Hk2].
      split; [|split].
      * destruct alive; [|eexists; reflexivity].
        destruct (Handle.kill (Wake.handle s')) as [[[]|e] h'];
          [eexists; reflexivity|discriminate].
      * intros ->.
        destruct (Handle.kill (Wake.handle s')) as [[[]|e] h'];
          [|discriminate]. cbn in *. rewrite Hj. split; [exact Hk2|reflexivity].
      * intros ->. cbn. rewrite Hproc, Hj. split; reflexivity.
Qed.

(** Two refused starts, a third that goes through, a later call that
    finds the barrier broken and the process alive. *)
Example wake_up_four_times :
  let h := Handle.mkHandle (Handle.mkBarrier 0 false)
             (Handle.mkProcess "worker 0" true []) false (mkSend [] [])
             (mkRecv [] [] 0) in
  let refused := Some (UserError "OSError" "cannot allocate memory") in
  let s := Wake.wake_ups
             [(refused, Released, true); (refused, Released, true);
              (refused, Released, true); (None, Released, true);
              (refused, Broken, true)]
             (Wake.mkStarted h 0 0) in
  Wake.starts s = 4%nat /\ Wake.joins s = 1%nat /\
  Handle._started (Wake.handle s) = true /\
  Handle.signals (Handle._proc (Wake.handle s)) = [Handle.SIGKILL].
Proof. repeat split. Qed.

(* ===================================================================== *)
(** * More of [ProcCache]: [prune], and how the operations compose       *)
(* ===================================================================== *)

Section CacheMore.
Context {H : Type}.
Variable is_alive : H -> bool.

Local Abbreviation pop := (Cache.pop is_alive).
Local Abbreviation prune := (Cache.prune is_alive).
Local Abbreviation dead := (fun p : H => is_alive p = false).

Lemma prune_split (c : list H) :
  exists dropped, c = dropped ++ prune c /\ Forall dead dropped.
Proof.
  induction c as [|x c IH]; [exists []; split; [reflexivity|constructor]|].
  cbn [Cache.prune]. destruct (is_alive x) eqn:Hx.
  - exists []. split; [reflexivity|constructor].
  - destruct IH as (d & Hc & Hd). exists (x :: d).
    split; [simpl; congruence|constructor; assumption].
Qed.

Lemma prune_head (c : list H) :
  match prune c with [] => Forall dead c | p :: _ => is_alive p = true end.
Proof.
  induction c as [|x c IH]; [constructor|].
  cbn [Cache.prune]. destruct (is_alive x) eqn:Hx; [exact Hx|].
  destruct (prune c); [constructor; assumption|exact IH].
Qed.

Lemma prune_idempotent (c : list H) : prune (prune c) = prune c.
Proof.
  pose proof (prune_head c) as Hh.
  destruct (prune c) as [|p rest]; [reflexivity|].
  cbn [Cache.prune]. rewrite Hh. reflexivity.
Qed.

Lemma prune_keeps_live (c : list H) :
  List.filter is_alive (prune c) = List.filter is_alive c.
Proof.
  induction c as [|x c IH]; [reflexivity|].
  cbn [Cache.prune]. destruct (is_alive x) eqn:Hx; [reflexivity|].
  simpl. rewrite Hx. exact IH.
Qed.

Lemma pop_cons_dead (x : H) (c : list H) :
  is_alive x = false -> fst (pop (x :: c)) = fst (pop c).
Proof.
  intros Hx. induction c as [|y c IH] using rev_ind.
  - change [x] with ([] ++ [x]). rewrite pop_snoc, Hx. reflexivity.
  - rewrite app_comm_cons, !pop_snoc. destruct (is_alive y); [reflexivity|exact IH].
Qed.

Lemma pop_after_prune (c : list H) : fst (pop (prune c)) = fst (pop c).
Proof.
  induction c as [|x c IH]; [reflexivity|].
  cbn [Cache.prune]. destruct (is_alive x) eqn:Hx; [reflexivity|].
  rewrite IH. symmetry. apply pop_cons_dead. exact Hx.
Qed.

Lemma filter_dead (l : list H) : Forall dead l -> List.filter is_alive l = [].
Proof.
  induction 1 as [|x l Hx _ IH]; [reflexivity|]. simpl. rewrite Hx. exact IH.
Qed.

Lemma pops_pushed (hs : list H) :
  forall c, Forall (fun p => is_alive p = true) hs ->
            CacheOps.pops is_alive (length hs) (fold_left Cache.push hs c) =
            (rev hs, c).
Proof.
  induction hs as [|h hs IH] using rev_ind; intros c Hall; [reflexivity|].
  apply Forall_app in Hall. destruct Hall as [Hhs Hh].
  inversion Hh as [|? ? Hlive _]; subst.
  rewrite List.length_app, Nat.add_comm. cbn [length Nat.add CacheOps.pops].
  rewrite fold_left_app. cbn [fold_left]. unfold Cache.push at 1, Deque.append.
  rewrite pop_snoc, Hlive, (IH c Hhs), rev_app_distr. reflexivity.
Qed.

End CacheMore.

(** X10.  [prune] removes dead handles from the old end only, up to the
    first live one: what it removes is a run of dead handles at the left
    of the cache and the rest is kept as it is (dead handles behind a live
    one stay); a pruned cache is empty or starts with a live handle;
    pruning twice changes nothing more; and no live handle is ever lost. *)
Theorem prune_drops_leading_dead {H : Type} (is_alive : H -> bool)
    (_cache : list H) :
  (exists dropped,
      _cache = dropped ++ Cache.prune is_alive _cache /\
      Forall (fun p => is_alive p = false) dropped) /\
  match Cache.prune is_alive _cache with
  | [] => Forall (fun p => is_alive p = false) _cache
  | oldest :: _ => is_alive oldest = true
  end /\
  Cache.prune is_alive (Cache.prune is_alive _cache) =
    Cache.prune is_alive _cache /\
  List.filter is_alive (Cache.prune is_alive _cache) =
    List.filter is_alive _cache.
Proof.
  split; [apply prune_split|]. split; [apply prune_head|].
  split; [apply prune_idempotent|apply prune_keeps_live].
Qed.

(** X11.  The cache is last in, first out: live handles pushed one after
    the other come back, by as many [pop]s, in the reverse order of the
    pushes, and the cache is then what it was before them. *)
Theorem pops_return_pushes_reversed {H : Type} (is_alive : H -> bool)
    (pushed : list H) (_cache : list H) :
  Forall (fun p => is_alive p = true) pushed ->
  CacheOps.pops is_alive (length pushed) (fold_left Cache.push pushed _cache) =
  (rev pushed, _cache).
Proof. apply pops_pushed. Qed.

Lemma pops_return_pushes_reversed_witness :
  CacheOps.pops (fun p => (p <? 9)%nat) (length [1%nat; 2%nat; 3%nat])
    (fold_left Cache.push [1%nat; 2%nat; 3%nat] [7%nat; 9%nat]) =
  (rev [1%nat; 2%nat; 3%nat], [7%nat; 9%nat]).
Proof.
  apply (pops_return_pushes_reversed (fun p => (p <? 9)%nat)
           [1%nat; 2%nat; 3%nat] [7%nat; 9%nat]).
  repeat constructor.
Defined.

(** X12.  [pop] and [prune] agree and lose no live handle: pruning first
    does not change what [pop] returns or raises; when [pop] returns a
    handle, the live handles of the cache are those it leaves followed by
    the one returned; when it raises, the cache had no live handle. *)
Theorem pop_loses_no_live_handle {H : Type} (is_alive : H -> bool)
    (_cache : list H) :
  fst (Cache.pop is_alive (Cache.prune is_alive _cache)) =
    fst (Cache.pop is_alive _cache) /\
  match Cache.pop is_alive _cache with
  | (Ok proc, rest) =>
      List.filter is_alive _cache = List.filter is_alive rest ++ [proc]
  | (Raise _, rest) => List.filter is_alive _cache = [] /\ rest = []
  end.
Proof.
  split; [apply pop_after_prune|].
  destruct (pop_scan is_alive _cache)
    as [(older & h & newer & -> & Hh & Hd & Hp)|[Hd Hp]]; rewrite Hp.
  - rewrite List.filter_app. simpl. rewrite Hh, (filter_dead is_alive newer Hd).
    reflexivity.
  - split; [apply filter_dead; exact Hd|reflexivity].
Qed.

(* ===================================================================== *)
(** * More of [_impl.py]: the whole [cache_scope], and the dispatcher    *)
(* ===================================================================== *)

Section ScopeMore.
Import Impl Scope.
Context {W WorkerClass E : Type}.
Variable WORKER_MAP : WorkerType -> WorkerClass.
Variable cache_clear : list W -> M E (list W).

Local Abbreviation Host := (@Impl.Host W WorkerClass E).

Lemma cache_scope_exit_context (ctx token : @WorkerContext WorkerClass) (h : Host) :
  _worker_context_var (snd (cache_scope_exit cache_clear ctx token h)) = token.
Proof.
  unfold cache_scope_exit, bind, modify, get, on_env, set_cache. cbn.
  destruct (cache_clear _ (env h)) as [[c|e] e']; reflexivity.
Qed.

Lemma cache_scope_exit_result (ctx token : @WorkerContext WorkerClass) (h : Host) :
  fst (cache_scope_exit cache_clear ctx token h) =
  match fst (cache_clear (cache_of ctx h) (env h)) with
  | Ok _ => Ok tt
  | Raise e => Raise e
  end.
Proof.
  unfold cache_scope_exit, bind, modify, get, on_env, set_cache, cache_of. cbn.
  destruct (cache_clear _ (env h)) as [[c|e] e']; reflexivity.
Qed.

End ScopeMore.

(** X13.  A cache scope is properly nested, whatever its body does: with
    valid arguments the body runs in a host where the context variable
    holds the new context, whose cache is a new object (it did not
    exist), empty, all other caches and the environment being as before;
    and when the scope is left, the body having returned or raised, the
    context variable is again what it was before the scope.  The body's
    result or exception is the scope's, unless clearing the cache
    raises. *)
Theorem cache_scope_restores_context {A W WorkerClass E : Type}
    (WORKER_MAP : Impl.WorkerType -> WorkerClass)
    (cache_clear : list W -> M E (list W))
    (timeout : Q) (f : Impl.Retire) (wt : Impl.WorkerType)
    (body : M (@Impl.Host W WorkerClass E) A) (h : @Impl.Host W WorkerClass E) :
  ~ (timeout < 0)%Q ->
  exists ctx h1,
    Impl.idle_timeout ctx = timeout /\ Impl.retire ctx = f /\
    Impl.worker_class ctx = WORKER_MAP wt /\
    Impl.caches h !! Impl.worker_cache ctx = None /\
    Impl._worker_context_var h1 = ctx /\
    Impl.caches h1 = <[Impl.worker_cache ctx := []]> (Impl.caches h) /\
    Impl.env h1 = Impl.env h /\ Impl.run h1 = Impl.run h /\
    let after := Scope.cache_scope WORKER_MAP cache_clear timeout
                   (Impl.Callable f) (Impl.Member wt) body h in
    Impl._worker_context_var (snd after) = Impl._worker_context_var h /\
    (fst after = fst (body h1) \/
     exists e, fst after = Raise e /\
       fst (cache_clear (Impl.cache_of ctx (snd (body h1)))
              (Impl.env (snd (body h1)))) = Raise e).
Proof.
  intros Hvalid.
  pose proof (enter_valid (W := W) (E := E) WORKER_MAP timeout f wt h Hvalid)
    as Henter. cbn zeta in Henter.
  exists (Impl.mkContext timeout f (WORKER_MAP wt) (fresh (dom (Impl.caches h)))).
  exists (Impl.mkHost (Impl.run h)
            (Impl.mkContext timeout f (WORKER_MAP wt)
               (fresh (dom (Impl.caches h))))
            (<[fresh (dom (Impl.caches h)) := []]> (Impl.caches h))
            (Impl.env h)).
  cbn [Impl.idle_timeout Impl.retire Impl.worker_class Impl.worker_cache
       Impl._worker_context_var Impl.caches Impl.env Impl.run].
  repeat (split; [reflexivity|]).
  split; [apply not_elem_of_dom, is_fresh|].
  repeat (split; [reflexivity|]).
  cbn zeta. unfold Scope.cache_scope. rewrite Henter.
  destruct (body _) as [r h2] eqn:Hbody.
  pose proof (cache_scope_exit_context cache_clear
                (Impl.mkContext timeout f (WORKER_MAP wt)
                   (fresh (dom (Impl.caches h))))
                (Impl._worker_context_var h) h2) as Hctx.
  pose proof (cache_scope_exit_result cache_clear
                (Impl.mkContext timeout f (WORKER_MAP wt)
                   (fresh (dom (Impl.caches h))))
                (Impl._worker_context_var h) h2) as Hres.
  destruct (Scope.cache_scope_exit _ _ _ h2) as [[[]|e] h3]; cbn in *.
  - split; [exact Hctx|]. left. reflexivity.
  - split; [exact Hctx|]. right. exists e. split; [reflexivity|].
    destruct (fst (cache_clear _ (Impl.env h2))); [discriminate|congruence].
Qed.

Lemma cache_scope_restores_context_witness :
  Impl._worker_context_var
    (snd (Scope.cache_scope (W := nat) (E := nat) (fun _ => tt)
            (fun c => ret []) (1 # 10) (Impl.Callable (fun _ => true))
            (Impl.Member Impl.FORK)
            (raise (A := unit) (UserError "KeyError" "x"))
            (ToyHost.host [5%nat]))) =
  Impl.mkContext 600 (fun _ => false) tt 0%nat.
Proof.
  destruct (cache_scope_restores_context (A := unit) (W := nat) (E := nat)
              (fun _ => tt) (fun c => ret []) (1 # 10) (fun _ => true)
              Impl.FORK (raise (UserError "KeyError" "x"))
              (ToyHost.host [5%nat]))
    as (ctx & h1 & _ & _ & _ & _ & _ & _ & _ & _ & Hafter & _).
  - intros Hneg. discriminate Hneg.
  - cbn zeta in Hafter. exact Hafter.
Defined.

(* ===================================================================== *)
(** * A call end to end: dispatcher, handle, pipes, child                *)
(* ===================================================================== *)

Section PoolFacts.
Import Handle.
Context {Fn Args Val T : Type}.
Variable call : Fn -> Args -> Result Val.
Variable iscoroutine : Val -> bool.
Variable qualname : Fn -> string.
Variable loads_job : bytes -> Result (Fn * Args).
Variable dumps_outcome : Outcome Val -> Result bytes.
Variable dumps_job : Fn * Args -> Result bytes.
Variable loads_outcome : bytes -> Result (Outcome Val).
Variable os_cpu_count : option N.
Variable checkpoint_if_cancelled : M T unit.
Variable limiter_enter : nat -> M T unit.
Variable limiter_exit : nat -> option PyExc -> M T bool.

Local Abbreviation outcome := (job_outcome call iscoroutine qualname).
Local Abbreviation coded :=
  (well_coded call iscoroutine qualname loads_job dumps_outcome).
Local Abbreviation healthy :=
  (Pool.healthy call iscoroutine qualname loads_job dumps_outcome).
Local Abbreviation replies :=
  (Pool.replies call iscoroutine qualname loads_job dumps_outcome).
Local Abbreviation Host := (@Impl.Host nat Impl.WorkerType (@Pool.World T)).
Local Abbreviation dispatch :=
  (Pool.dispatch call iscoroutine qualname loads_job dumps_outcome dumps_job
     loads_outcome os_cpu_count checkpoint_if_cancelled limiter_enter
     limiter_exit).
Local Abbreviation proc_run_sync :=
  (@Pool.proc_run_sync Fn Args Val T call iscoroutine qualname loads_job
     dumps_outcome dumps_job loads_outcome).
Local Abbreviation msgs := (map (fun j : bytes * (Fn * Args) * bytes => fst (fst j))).

(** The envelope of a job whose call gives no coroutine. *)
Lemma job_outcome_sync (fn : Fn) (args : Args) :
  (forall v, call fn args = Ok v -> iscoroutine v = false) ->
  outcome fn args = envelope_of (call fn args).
Proof.
  intros Hsync. unfold job_outcome, envelope_of.
  destruct (call fn args) as [v|e] eqn:Hc; [|reflexivity].
  rewrite (Hsync v eq_refl). reflexivity.
Qed.

(** The child reads the message the host framed. *)
Lemma unframe_frame (buf : bytes) :
  len buf < 2 ^ 64 -> Pool.unframe (frame buf) = Ok buf.
Proof.
  intros Hmax. unfold Pool.unframe.
  destruct (recv_frame buf [] [] 0 Hmax eq_refl) as (sch' & r' & Hrecv & _).
  rewrite app_nil_r in Hrecv. rewrite Hrecv. reflexivity.
Qed.

(** A child that was sent well-coded jobs has answered each, in order. *)
Lemma replies_served (js : list (bytes * (Fn * Args) * bytes)) :
  Forall coded js -> replies (msgs js) = map snd js.
Proof.
  intros Hall. unfold Pool.replies, Pool.child. rewrite length_map.
  destruct (work_serves_all call iscoroutine qualname loads_job dumps_outcome
              js [] (mkWorker (msgs js) [] []) [] Hall) as (l' & Hw & _).
  { cbn. rewrite app_nil_r. reflexivity. }
  rewrite app_nil_r in Hw. rewrite Hw. reflexivity.
Qed.

Lemma replies_one_more (js : list (bytes * (Fn * Args) * bytes))
    (fn : Fn) (args : Args) (payload reply : bytes) :
  Forall coded js ->
  loads_job payload = Ok (fn, args) ->
  dumps_outcome (outcome fn args) = Ok reply ->
  replies (msgs js ++ [payload]) = replies (msgs js) ++ [reply].
Proof.
  intros Hall Hl Hd.
  assert (Hall' : Forall coded (js ++ [(payload, (fn, args), reply)])).
  { apply Forall_app. split; [exact Hall|]. constructor; [|constructor].
    split; assumption. }
  pose proof (replies_served _ Hall') as Hr.
  rewrite !map_app in Hr. cbn [map fst snd] in Hr.
  rewrite Hr, (replies_served _ Hall). reflexivity.
Qed.
(** [send_job] on a sound stream: the frame of the pickled job goes out
    whole. *)
Lemma send_job_sound (b : Barrier) (p : Process) (st : bool)
    (w0 : list bytes) (rs : FdRecvStream) (fn : Fn) (args : Args)
    (payload : bytes) :
  dumps_job (fn, args) = Ok payload -> len payload < 2 ^ 64 ->
  exists writes,
    Pool.send_job dumps_job fn args (mkHandle b p st (mkSend w0 []) rs) =
    (Ok (frame payload), mkHandle b p st (mkSend (w0 ++ writes) []) rs) /\
    concat writes = frame payload.
Proof.
  intros Hd Hmax.
  destruct (send_then_frame payload w0 Hmax) as (writes & Hsend & Hcat).
  exists writes. split; [|exact Hcat].
  unfold Pool.send_job, bind, lift. rewrite Hd.
  unfold on_send_stream. cbn [_send_stream _barrier _proc _started _recv_stream].
  rewrite Hsend. unfold wire. cbn [written _send_stream].
  rewrite concat_app, Hcat, skipn_app, skipn_all, Nat.sub_diag. reflexivity.
Qed.

(** One exchange with a worker in working order. *)
Lemma exchange_in_order (b : Barrier) (p : Process) (st : bool)
    (w0 : list bytes) (sch : list ReadEv) (nr ns nj : nat)
    (sf : option PyExc) (js : list (bytes * (Fn * Args) * bytes))
    (it : Q) (rt : Impl.Retire) (fn : Fn) (args : Args)
    (payload reply : bytes) :
  Forall coded js -> fault_free sch = true ->
  dumps_job (fn, args) = Ok payload -> loads_job payload = Ok (fn, args) ->
  dumps_outcome (outcome fn args) = Ok reply ->
  loads_outcome reply = Ok (outcome fn args) ->
  len payload < 2 ^ 64 -> len reply < 2 ^ 64 ->
  exists writes sch' nr',
    Pool.exchange call iscoroutine qualname loads_job dumps_outcome
      dumps_job loads_outcome fn args
      (Pool.mkPoolWorker
         (Wake.mkStarted
            (mkHandle b p st (mkSend w0 []) (mkRecv [] sch nr)) ns nj)
         sf (msgs js) it rt) =
    (Ok (outcome fn args),
     Pool.mkPoolWorker
       (Wake.mkStarted
          (mkHandle b p st (mkSend (w0 ++ writes) []) (mkRecv [] sch' nr'))
          ns nj)
       sf (msgs js ++ [payload]) it rt) /\
    concat writes = frame payload /\ fault_free sch' = true.
Proof.
  intros Hall Hff Hdj Hlj Hdo Hlo Hlp Hlr.
  destruct (send_job_sound b p st w0 (mkRecv [] sch nr) fn args payload Hdj Hlp)
    as (writes & Hsend & Hcat).
  destruct (recv_frame reply [] sch nr Hlr Hff) as (sch' & nr' & Hrecv & Hff').
  rewrite app_nil_r in Hrecv.
  exists writes, sch', nr'. split; [|split; assumption].
  unfold Pool.exchange, bind, Pool.on_handle, Pool.on_state.
  cbn [Pool.state Wake.handle Wake.starts Wake.joins Pool.start_fault
       Pool.requests Pool.idle_timeout Pool.retire].
  rewrite Hsend.
  unfold Pool.child_turn. rewrite (unframe_frame _ Hlp).
  cbn [Pool.requests Pool.handle_of Pool.state Wake.handle Wake.starts
       Wake.joins Pool.start_fault Pool.idle_timeout Pool.retire
       _barrier _proc _started _send_stream _recv_stream pending schedule
       n_reads].
  rewrite (replies_one_more js fn args payload reply Hall Hlj Hdo).
  rewrite skipn_app, skipn_all, Nat.sub_diag.
  cbn [skipn app map concat].
  unfold Pool.recv_result, bind, on_recv_stream.
  cbn [_barrier _proc _started _send_stream _recv_stream].
  rewrite app_nil_r, Hrecv. unfold lift. rewrite Hlo. reflexivity.
Qed.
(** The handle's [run_sync] on a worker in working order: it answers
    with the envelope of the job; the worker is in working order still,
    started, with the same barrier and process; the child has read one
    more message, the pickled job, and sent one more, the pickled
    envelope; the frame of the job went out on the request pipe. *)
Lemma run_sync_in_order (w : Pool.Worker) (fn : Fn) (args : Args)
    (payload reply : bytes) :
  healthy w ->
  dumps_job (fn, args) = Ok payload -> loads_job payload = Ok (fn, args) ->
  dumps_outcome (outcome fn args) = Ok reply ->
  loads_outcome reply = Ok (outcome fn args) ->
  len payload < 2 ^ 64 -> len reply < 2 ^ 64 ->
  exists w',
    Pool.run_sync call iscoroutine qualname loads_job dumps_outcome
      dumps_job loads_outcome fn args w = (Ok (Some (outcome fn args)), w') /\
    healthy w' /\
    _started (Pool.handle_of w') = true /\
    _barrier (Pool.handle_of w') = _barrier (Pool.handle_of w) /\
    _proc (Pool.handle_of w') = _proc (Pool.handle_of w) /\
    Pool.requests w' = Pool.requests w ++ [payload] /\
    replies (Pool.requests w') = replies (Pool.requests w) ++ [reply] /\
    wire (_send_stream (Pool.handle_of w')) =
      wire (_send_stream (Pool.handle_of w)) ++ frame payload.
Proof.
  destruct w as [[[b p st [w0 fs] [pend sch nr]] ns nj] sf rq it rt].
  intros (Hst & Hb & Hfs & Hp & Hff & js & Hall & Hrq)
         Hdj Hlj Hdo Hlo Hlp Hlr.
  unfold Pool.handle_of in *.
  cbn [Pool.state Wake.handle _barrier _proc _started _send_stream
       _recv_stream send_faults pending schedule Pool.start_fault
       Pool.requests] in *.
  subst fs pend rq.
  assert (Hwake : exists ns',
            Pool.on_state (Wake.wake_up sf Released false)
              (Pool.mkPoolWorker
                 (Wake.mkStarted
                    (mkHandle b p st (mkSend w0 []) (mkRecv [] sch nr)) ns nj)
                 sf (msgs js) it rt) =
            (Ok tt,
             Pool.mkPoolWorker
               (Wake.mkStarted
                  (mkHandle b p true (mkSend w0 []) (mkRecv [] sch nr)) ns' nj)
               sf (msgs js) it rt)).
  { destruct st.
    - exists ns. reflexivity.
    - destruct Hst as [Hst|Hst]; [discriminate|]. subst sf.
      exists (S ns). reflexivity. }
  destruct Hwake as [ns' Hwake].
  destruct (exchange_in_order b p true w0 sch nr ns' nj sf js it rt fn args
              payload reply Hall Hff Hdj Hlj Hdo Hlo Hlp Hlr)
    as (writes & sch' & nr' & Hex & Hcat & Hff').
  eexists. split.
  { unfold Pool.run_sync, Pool.handle_of.
    cbn [Pool.state Wake.handle _barrier Pool.start_fault].
    rewrite Hb, Hwake. unfold try_except, bind. rewrite Hex. reflexivity. }
  unfold Pool.healthy, Pool.handle_of.
  cbn [Pool.state Wake.handle _barrier _proc _started _send_stream
       _recv_stream send_faults pending schedule Pool.start_fault
       Pool.requests].
  repeat split; try assumption; try reflexivity.
  - left. reflexivity.
  - exists (js ++ [(payload, (fn, args), reply)]). split.
    + apply Forall_app. split; [exact Hall|]. constructor; [|constructor].
      split; assumption.
    + rewrite map_app. reflexivity.
  - apply (replies_one_more js fn args payload reply Hall Hlj Hdo).
  - unfold wire. cbn [written]. rewrite concat_app, Hcat. reflexivity.
Qed.
(** A new worker is in working order. *)
Lemma new_worker_healthy (timeout : Q) (rt : Impl.Retire) :
  healthy (Pool.new_worker timeout rt).
Proof.
  unfold Pool.healthy. cbn. repeat split; try reflexivity.
  - right. reflexivity.
  - exists []. split; [constructor|reflexivity].
Qed.

(** A handle that is alive is a worker of the pool. *)
Lemma is_alive_known (ws : @Pool.World T) (proc : nat) :
  Pool.is_alive ws proc = true -> exists w, Pool.workers ws !! proc = Some w.
Proof.
  unfold Pool.is_alive. destruct (Pool.workers ws !! proc) as [w|]; [eauto|].
  discriminate.
Qed.

(** The last three steps of a call, from the moment a handle in working
    order is taken. *)
Lemma dispatch_in_order (fuel : nat) (fn : Fn) (args : Args) (c : bool)
    (limiter : option nat) (l : nat) (h h0 h1 h2 ha hb : Host)
    (proc : nat) (w : Pool.Worker) (payload reply : bytes)
    (suppress : bool) (t : T) :
  dumps_job (fn, args) = Ok payload -> loads_job payload = Ok (fn, args) ->
  dumps_outcome (outcome fn args) = Ok reply ->
  loads_outcome reply = Ok (outcome fn args) ->
  len payload < 2 ^ 64 -> len reply < 2 ^ 64 ->
  Impl.pick_limiter os_cpu_count limiter h = (Ok l, h0) ->
  Impl.on_env (Pool.on_trio (limiter_enter l)) h0 = (Ok tt, h1) ->
  Impl.prune_cache Pool.cache_prune (Impl._worker_context_var h0) h1 =
    (Ok tt, h2) ->
  Impl.on_env (Pool.on_trio checkpoint_if_cancelled) h2 = (Ok tt, ha) ->
  Impl.take_worker Pool.worker_new Pool.is_alive (Impl._worker_context_var h0)
    ha = (Ok proc, hb) ->
  Pool.workers (Impl.env hb) !! proc = Some w ->
  healthy w ->
  limiter_exit l None (Pool.trio (Impl.env hb)) = (Ok suppress, t) ->
  exists h' w',
    dispatch (S fuel) fn args c limiter h = Some (unwrap (outcome fn args), h') /\
    Impl.cache_of (Impl._worker_context_var h0) h' =
      Impl.cache_of (Impl._worker_context_var h0) hb ++ [proc] /\
    Pool.workers (Impl.env h') !! proc = Some w' /\
    healthy w' /\
    Pool.requests w' = Pool.requests w ++ [payload] /\
    replies (Pool.requests w') = replies (Pool.requests w) ++ [reply] /\
    Pool.trio (Impl.env h') = t.
Proof.
  intros Hdj Hlj Hdo Hlo Hlp Hlr Hpick Henter Hprune Hck Htake Hlook Hw Hexit.
  destruct (run_sync_in_order w fn args payload reply Hw Hdj Hlj Hdo Hlo Hlp Hlr)
    as (w' & Hrun & Hw' & _ & _ & _ & Hrq & Hrp & _).
  set (ws' := Pool.mkWorld (<[proc := w']> (Pool.workers (Impl.env hb)))
                (Pool.trio (Impl.env hb))).
  assert (Hrun' : Impl.on_env (proc_run_sync proc fn args (negb c)) hb =
                  (Ok (Some (outcome fn args)),
                   Impl.mkHost (Impl.run hb) (Impl._worker_context_var hb)
                     (Impl.caches hb) ws')).
  { unfold Impl.on_env, Pool.proc_run_sync. rewrite Hlook, Hrun. reflexivity. }
  assert (Hexit' : Impl.on_env (Pool.on_trio (limiter_exit l None))
                     (Impl.mkHost (Impl.run hb) (Impl._worker_context_var hb)
                        (Impl.caches hb) ws') =
                   (Ok suppress,
                    Impl.mkHost (Impl.run hb) (Impl._worker_context_var hb)
                      (Impl.caches hb)
                      (Pool.mkWorld (Pool.workers ws') t))).
  { unfold Impl.on_env, Pool.on_trio. cbn [Impl.env Pool.trio ws'].
    rewrite Hexit. reflexivity. }
  eexists _, w'. split.
  { unfold Pool.dispatch.
    apply (dispatch_clean os_cpu_count Pool.worker_new proc_run_sync
             Pool.is_alive Pool.cache_prune
             (Pool.on_trio checkpoint_if_cancelled)
             (fun limiter => Pool.on_trio (limiter_enter limiter))
             (fun limiter exc => Pool.on_trio (limiter_exit limiter exc))
             fuel fn args c limiter l h h0 h1 h2 ha hb _ _ proc _ suppress
             Hpick Henter Hprune Hck Htake Hrun' Hexit'). }
  split; [apply cache_of_set|].
  cbn [Impl.set_cache modify snd Impl.env Pool.workers Pool.trio ws'].
  rewrite lookup_insert_eq.
  split; [reflexivity|]. split; [exact Hw'|]. split; [exact Hrq|].
  split; [exact Hrp|reflexivity].
Qed.
End PoolFacts.



(** S1 and S2 of the scenarios, end to end: the square of 7 on a new
    worker, which is cached afterwards; a job that raises, on the cached
    worker, which stays cached. *)
Example dispatch_square :
  exists h',
    ToyPool.dispatch 1 0%nat 7 false None (ToyPool.host [] ∅) =
      Some (Ok 49, h') /\
    Impl.caches h' !! 0%nat = Some [0%nat] /\
    Pool.is_alive (Impl.env h') 0%nat = true.
Proof. eexists. vm_compute. repeat split. Qed.

Example dispatch_division_by_zero :
  exists h',
    ToyPool.dispatch 1 1%nat 7 false None
      (ToyPool.host [5%nat] {[ 5%nat := ToyPool.idle_worker ]}) =
      Some (Raise (UserError "ZeroDivisionError" "division by zero"), h') /\
    Impl.caches h' !! 0%nat = Some [5%nat] /\
    Pool.is_alive (Impl.env h') 5%nat = true.
Proof. eexists. vm_compute. repeat split. Qed.

(** An async function: the child closes the coroutine and the caller
    gets the [TypeError]; the worker lives on. *)
Example dispatch_async_fn :
  exists h',
    ToyPool.dispatch 1 2%nat 7 false None
      (ToyPool.host [5%nat] {[ 5%nat := ToyPool.idle_worker ]}) =
      Some (Raise (TypeError (async_message Toy.qualname 2%nat)), h') /\
    Impl.caches h' !! 0%nat = Some [5%nat] /\
    Pool.is_alive (Impl.env h') 5%nat = true.
Proof. eexists. vm_compute. repeat split. Qed.

(** C2 (the code, where the claim fails).  The cache holds handle 5; the
    caller is cancelled while the handle's [run_sync] awaits the reply.
    The handle does what the claim says: it kills the worker and the
    cancellation propagates.  Under a limiter whose [__aexit__] returns
    false (limiter 3, as a [CapacityLimiter]) the call raises the
    cancellation and the cache has lost the handle.  Under a limiter
    whose [__aexit__] returns true (limiter 77), Python swallows the
    cancellation at the end of the [async with] block and goes on to the
    two statements after it: [ctx.worker_cache.append(proc)] puts the
    killed handle back in the cache, and [result.unwrap()], [result]
    being [None] still, raises [AttributeError]. *)
Theorem swallowing_limiter_returns_killed_handle :
  let cached := ToyPool.host [5%nat] {[ 5%nat := ToyPool.doomed_worker ]} in
  (exists h' w',
     ToyPool.dispatch 1 0%nat 7 true (Some 3%nat) cached =
       Some (Raise Cancelled, h') /\
     Impl.caches h' !! 0%nat = Some [] /\
     Pool.workers (Impl.env h') !! 5%nat = Some w' /\
     Handle.killed (Pool.handle_of w')) /\
  (exists h' w',
     ToyPool.dispatch 1 0%nat 7 true (Some 77%nat) cached =
       Some (Raise (AttributeError
                      "'NoneType' object has no attribute 'unwrap'"), h') /\
     Impl.caches h' !! 0%nat = Some [5%nat] /\
     Pool.workers (Impl.env h') !! 5%nat = Some w' /\
     Handle.killed (Pool.handle_of w') /\
     Pool.is_alive (Impl.env h') 5%nat = false).
Proof.
  split.
  - eexists _, _. vm_compute.
    split; [reflexivity|]. split; [reflexivity|]. split; [reflexivity|].
    split; [reflexivity|discriminate].
  - eexists _, _. vm_compute.
    split; [reflexivity|]. split; [reflexivity|]. split; [reflexivity|].
    split; [|reflexivity]. split; [reflexivity|discriminate].
Qed.

(** The handle's [run_sync] raises in the dispatcher, under a limiter
    that lets the exception pass: handle 13, taken from the cache
    [[5; 13]], is not put back. *)
Example dispatch_broken_worker :
  let r := ToyHost.run_sync 1 0%nat 7 false None (ToyHost.host [5%nat; 13%nat]) in
  option_map fst r =
    Some (Raise (BrokenWorkerError "worker 13 died unexpectedly")) /\
  ToyHost.cache_after r = Some [5%nat].
Proof. vm_compute. split; reflexivity. Qed.

(** Handle 11 is dead: it is dropped on the way to handle 5, which runs
    the job and goes back to the cache. *)
Example dispatch_skips_dead_handle :
  let r := ToyHost.run_sync 1 0%nat 7 false None (ToyHost.host [5%nat; 11%nat]) in
  option_map fst r = Some (Ok 49) /\
  ToyHost.cache_after r = Some [5%nat].
Proof. vm_compute. split; reflexivity. Qed.

(* ===================================================================== *)
(** * More of the dispatcher                                             *)
(* ===================================================================== *)

Section TakeFacts.
Import Impl.
Context {W WorkerClass E : Type}.
Variable worker_new : WorkerClass -> Q -> Retire -> M E W.
Variable is_alive : E -> W -> bool.

Local Abbreviation Host := (@Impl.Host W WorkerClass E).
Local Abbreviation Ctx := (@Impl.WorkerContext WorkerClass).
Local Abbreviation take := (@take_worker W WorkerClass E worker_new is_alive).

Lemma pop_live (alive : W -> bool) (older newer : list W) (p : W) :
  alive p = true -> Forall (fun q => alive q = false) newer ->
  Cache.pop alive (older ++ p :: newer) = (Ok p, older).
Proof.
  intros Hp. induction newer as [|x newer IH] using rev_ind; intros Hd.
  - change (older ++ [p]) with (older ++ [p]). rewrite pop_snoc, Hp.
    reflexivity.
  - apply Forall_app in Hd. destruct Hd as [Hd Hx].
    inversion Hx as [|? ? Hx' _]; subst.
    rewrite app_comm_cons, app_assoc, pop_snoc, Hx'. apply IH. exact Hd.
Qed.

Lemma pop_dead (alive : W -> bool) (c : list W) :
  Forall (fun q => alive q = false) c ->
  Cache.pop alive c = (Raise (IndexError "pop from an empty deque"), []).
Proof.
  induction c as [|x c IH] using rev_ind; intros Hd; [apply pop_empty|].
  apply Forall_app in Hd. destruct Hd as [Hd Hx].
  inversion Hx as [|? ? Hx' _]; subst.
  rewrite pop_snoc, Hx'. apply IH. exact Hd.
Qed.

(** The newest live handle of the cache is the one taken; it and the
    dead handles appended after it leave the cache. *)
Lemma take_worker_pops (ctx : Ctx) (h : Host) (older newer : list W) (p : W) :
  cache_of ctx h = older ++ p :: newer ->
  is_alive (env h) p = true ->
  Forall (fun q => is_alive (env h) q = false) newer ->
  take ctx h = (Ok p, snd (set_cache ctx older h)).
Proof.
  intros Hc Hp Hd. unfold take_worker, WorkerCache_pop.
  rewrite Hc, (pop_live _ older newer p Hp Hd). reflexivity.
Qed.

(** With no live handle in the cache, the cache is emptied and a worker
    is created. *)
Lemma take_worker_creates (ctx : Ctx) (h : Host) :
  Forall (fun q => is_alive (env h) q = false) (cache_of ctx h) ->
  take ctx h =
  on_env (worker_new (worker_class ctx) (idle_timeout ctx) (retire ctx))
    (snd (set_cache ctx [] h)).
Proof.
  intros Hd. unfold take_worker, WorkerCache_pop.
  rewrite (pop_dead _ _ Hd). reflexivity.
Qed.
End TakeFacts.

(** X14.  [run_sync] keeps to its context: whenever it ends, returning or
    raising, the context variable is as before and every cache other than
    the cache of the current context holds what it held (so a call made
    inside a scope never touches the workers cached outside it, and the
    other way round); and when a limiter is passed, or the default
    limiter of the run exists already, no limiter is created. *)
Theorem run_sync_touches_only_its_cache {Fn Args Val W WorkerClass E : Type}
    (os_cpu_count : option N)
    (worker_new : WorkerClass -> Q -> Impl.Retire -> M E W)
    (proc_run_sync : W -> Fn -> Args -> bool -> M E (option (Outcome Val)))
    (is_alive : E -> W -> bool)
    (cache_prune : list W -> M E (list W))
    (checkpoint_if_cancelled : M E unit)
    (limiter_enter : nat -> M E unit)
    (limiter_exit : nat -> option PyExc -> M E bool)
    (fuel : nat) (fn : Fn) (args : Args) (cancellable : bool)
    (limiter : option nat) (h h' : @Impl.Host W WorkerClass E)
    (r : Result Val) :
  Impl.run_sync os_cpu_count worker_new proc_run_sync is_alive cache_prune
    checkpoint_if_cancelled limiter_enter limiter_exit
    fuel fn args cancellable limiter h = Some (r, h') ->
  Impl._worker_context_var h' = Impl._worker_context_var h /\
  (forall c, c <> Impl.worker_cache (Impl._worker_context_var h) ->
             Impl.caches h' !! c = Impl.caches h !! c) /\
  (limiter <> None \/ Impl._limiter_local (Impl.run h) <> None ->
     Impl.run h' = Impl.run h).
Proof.
  intros Hrun.
  destruct (pick_limiter_ok (W := W) (WorkerClass := WorkerClass) (E := E)
              os_cpu_count limiter h) as (l & h0 & Hpick & Hv & Hc & _ & Hr).
  destruct (framed_dispatch_from os_cpu_count worker_new proc_run_sync
              is_alive cache_prune checkpoint_if_cancelled limiter_enter
              limiter_exit fuel fn args cancellable limiter l h h0 h' r
              Hpick Hrun)
    as (Fv & Fr & Fc).
  split; [congruence|]. split.
  - intros c Hne. rewrite Fc by (rewrite Hv; exact Hne). rewrite Hc. reflexivity.
  - intros Hl. rewrite Fr. apply Hr. exact Hl.
Qed.

Lemma run_sync_touches_only_its_cache_witness :
  let h := ToyHost.host [] in
  let h' := Impl.mkHost (Impl.mkRun ∅ None)
              (Impl.mkContext 600 (fun _ => false) tt 0%nat)
              {[ 0%nat := [100%nat] ]} 101%nat in
  Impl._worker_context_var h' = Impl._worker_context_var h /\
  (forall c, c <> Impl.worker_cache (Impl._worker_context_var h) ->
             Impl.caches h' !! c = Impl.caches h !! c) /\
  (Some 3%nat <> None \/ Impl._limiter_local (Impl.run h) <> None ->
     Impl.run h' = Impl.run h).
Proof.
  apply (run_sync_touches_only_its_cache (Some 4%N) ToyHost.worker_new
           ToyHost.proc_run_sync ToyHost.is_alive ToyHost.cache_prune
           ToyHost.checkpoint_if_cancelled ToyHost.limiter_enter
           ToyHost.limiter_exit 1 0%nat 7 false (Some 3%nat)
           (ToyHost.host [])
           (Impl.mkHost (Impl.mkRun ∅ None)
              (Impl.mkContext 600 (fun _ => false) tt 0%nat)
              {[ 0%nat := [100%nat] ]} 101%nat)
           (Ok 49)).
  vm_compute. reflexivity.
Defined.

(** X15.  A cancellation seen at the checkpoint of the first turn costs
    no worker: no handle is popped, created or run, and the block is
    left with the exception [e] of the checkpoint.  What the call then
    does lies with the limiter's [__aexit__], which is given [e]: if
    it raises, the call raises that; if it returns false (as a
    [CapacityLimiter] does), the call raises [e]; if it returns true,
    [e] is swallowed and [ctx.worker_cache.append(proc)] raises
    [UnboundLocalError], no turn having bound [proc].  In each case the
    cache is the pruned cache, untouched. *)
Theorem cancelled_before_taking_a_worker {Fn Args Val W WorkerClass E : Type}
    (os_cpu_count : option N)
    (worker_new : WorkerClass -> Q -> Impl.Retire -> M E W)
    (proc_run_sync : W -> Fn -> Args -> bool -> M E (option (Outcome Val)))
    (is_alive : E -> W -> bool)
    (cache_prune : list W -> M E (list W))
    (checkpoint_if_cancelled : M E unit)
    (limiter_enter : nat -> M E unit)
    (limiter_exit : nat -> option PyExc -> M E bool)
    (fuel : nat) (fn : Fn) (args : Args) (cancellable : bool)
    (limiter : option nat) (l : nat)
    (h h0 h1 h2 ha : @Impl.Host W WorkerClass E) (e : PyExc) :
  Impl.pick_limiter os_cpu_count limiter h = (Ok l, h0) ->
  Impl.on_env (limiter_enter l) h0 = (Ok tt, h1) ->
  Impl.prune_cache cache_prune (Impl._worker_context_var h0) h1 = (Ok tt, h2) ->
  Impl.on_env checkpoint_if_cancelled h2 = (Raise e, ha) ->
  Impl.run_sync os_cpu_count worker_new proc_run_sync is_alive cache_prune
    checkpoint_if_cancelled limiter_enter limiter_exit
    (Datatypes.S fuel) fn args cancellable limiter h =
  Some (match fst (Impl.on_env (limiter_exit l (Some e)) ha) with
        | Raise e' => Raise e'
        | Ok true => Raise (UnboundLocalError "proc")
        | Ok false => Raise e
        end,
        snd (Impl.on_env (limiter_exit l (Some e)) ha)) /\
  Impl.cache_of (Impl._worker_context_var h0)
    (snd (Impl.on_env (limiter_exit l (Some e)) ha)) =
  Impl.cache_of (Impl._worker_context_var h0) h2.
Proof.
  intros Hpick Henter Hprune Hck.
  assert (Hloop : Impl.attempts worker_new proc_run_sync is_alive
                    checkpoint_if_cancelled (Datatypes.S fuel)
                    (Impl._worker_context_var h0) fn args cancellable None h2 =
                  Some (Raise e, None, ha)).
  { cbn [Impl.attempts]. unfold Impl.attempt. rewrite Hck. reflexivity. }
  rewrite (dispatch_steps os_cpu_count worker_new proc_run_sync is_alive
             cache_prune checkpoint_if_cancelled limiter_enter limiter_exit
             _ fn args cancellable limiter l h h0 h1 h2 ha _ _
             Hpick Henter Hprune Hloop).
  destruct (Impl.on_env (limiter_exit l (Some e)) ha) as [[[|]|e'] h4] eqn:Hexit;
    pose proof (cache_of_env _ (Impl._worker_context_var h0) _ _ _ Hexit) as Hc;
    pose proof (cache_of_env _ (Impl._worker_context_var h0) _ _ _ Hck) as Hc2;
    cbn [fst snd]; (split; [reflexivity|congruence]).
Qed.

Lemma cancelled_before_taking_a_worker_witness :
  @Impl.run_sync nat Z Z nat unit nat (Some 4%N) ToyHost.worker_new
    ToyHost.proc_run_sync ToyHost.is_alive ToyHost.cache_prune
    (raise Cancelled) ToyHost.limiter_enter ToyHost.limiter_exit
    1 0%nat 7 true (Some 77%nat) (ToyHost.host [5%nat]) =
  Some (Raise (UnboundLocalError "proc"), ToyHost.host [5%nat]) /\
  Impl.cache_of (Impl._worker_context_var (ToyHost.host [5%nat]))
    (ToyHost.host [5%nat]) = [5%nat].
Proof.
  apply (cancelled_before_taking_a_worker (Some 4%N) ToyHost.worker_new
           ToyHost.proc_run_sync ToyHost.is_alive ToyHost.cache_prune
           (raise Cancelled) ToyHost.limiter_enter ToyHost.limiter_exit
           0 0%nat 7 true (Some 77%nat) 77%nat (ToyHost.host [5%nat])
           (ToyHost.host [5%nat]) (ToyHost.host [5%nat])
           (ToyHost.host [5%nat]) (ToyHost.host [5%nat]) Cancelled);
    vm_compute; reflexivity.
Defined.

(** X16.  The loop the docstring of [cache_scope] warns of: when the
    runtime does not cancel, workers can always be created, and every
    handle's [run_sync] answers [None] for the job (as a worker that
    retires at once does), [run_sync] takes handle after handle and never
    returns: no number of turns gives a result. *)
Theorem run_sync_loops_when_every_worker_answers_none
    {Fn Args Val W WorkerClass E : Type}
    (os_cpu_count : option N)
    (worker_new : WorkerClass -> Q -> Impl.Retire -> M E W)
    (proc_run_sync : W -> Fn -> Args -> bool -> M E (option (Outcome Val)))
    (is_alive : E -> W -> bool)
    (cache_prune : list W -> M E (list W))
    (checkpoint_if_cancelled : M E unit)
    (limiter_enter : nat -> M E unit)
    (limiter_exit : nat -> option PyExc -> M E bool)
    (fn : Fn) (args : Args) (cancellable : bool) (limiter : option nat)
    (l : nat) (h h0 h1 h2 : @Impl.Host W WorkerClass E) :
  (forall e, fst (checkpoint_if_cancelled e) = Ok tt) ->
  (forall cls t rt e, exists w, fst (worker_new cls t rt e) = Ok w) ->
  (forall w sh e, fst (proc_run_sync w fn args sh e) = Ok None) ->
  Impl.pick_limiter os_cpu_count limiter h = (Ok l, h0) ->
  Impl.on_env (limiter_enter l) h0 = (Ok tt, h1) ->
  Impl.prune_cache cache_prune (Impl._worker_context_var h0) h1 = (Ok tt, h2) ->
  forall fuel : nat,
    Impl.run_sync os_cpu_count worker_new proc_run_sync is_alive cache_prune
      checkpoint_if_cancelled limiter_enter limiter_exit
      fuel fn args cancellable limiter h = None.
Proof.
  intros Hck Hnew Hrun Hpick Henter Hprune fuel.
  unfold Impl.run_sync. rewrite Hpick, Henter.
  unfold Impl.limited. rewrite Hprune.
  rewrite (attempts_never_end worker_new proc_run_sync is_alive
             checkpoint_if_cancelled _ fn args cancellable Hck Hnew Hrun).
  reflexivity.
Qed.

Lemma run_sync_loops_when_every_worker_answers_none_witness :
  @Impl.run_sync nat Z Z nat unit nat (Some 4%N) ToyHost.worker_new
    (fun _ _ _ _ => ret None) ToyHost.is_alive ToyHost.cache_prune
    ToyHost.checkpoint_if_cancelled ToyHost.limiter_enter ToyHost.limiter_exit
    50 0%nat 7 false (Some 3%nat) (ToyHost.host [5%nat]) = None.
Proof.
  apply (run_sync_loops_when_every_worker_answers_none (Some 4%N)
           ToyHost.worker_new (fun _ _ _ _ => ret None) ToyHost.is_alive
           ToyHost.cache_prune ToyHost.checkpoint_if_cancelled
           ToyHost.limiter_enter ToyHost.limiter_exit 0%nat 7 false
           (Some 3%nat) 3%nat
           (ToyHost.host [5%nat]) (ToyHost.host [5%nat]) (ToyHost.host [5%nat])
           (ToyHost.host [5%nat])).
  - intros e. reflexivity.
  - intros cls t rt e. exists e. reflexivity.
  - intros w sh e. reflexivity.
  - reflexivity.
  - reflexivity.
  - vm_compute. reflexivity.
Defined.

(** X17.  Workers are reused last in, first out, the cache of the
    context being the cache section 4.D of the specification describes
    (its class is not among the sources).  At a turn that is not
    cancelled: if the pruned cache holds a live handle, the call runs the
    job on the live handle appended last; the dead handles appended
    after it are dropped, and after a clean return the cache is the
    handles appended before it, in their order, and then that handle.
    If the pruned cache holds no live handle, the call creates a worker
    with the context's class, timeout and predicate, and after a clean
    return the cache holds exactly that worker. *)
Theorem call_reuses_newest_live_handle {Fn Args Val W WorkerClass E : Type}
    (os_cpu_count : option N)
    (worker_new : WorkerClass -> Q -> Impl.Retire -> M E W)
    (proc_run_sync : W -> Fn -> Args -> bool -> M E (option (Outcome Val)))
    (is_alive : E -> W -> bool)
    (cache_prune : list W -> M E (list W))
    (checkpoint_if_cancelled : M E unit)
    (limiter_enter : nat -> M E unit)
    (limiter_exit : nat -> option PyExc -> M E bool)
    (fuel : nat) (fn : Fn) (args : Args) (cancellable : bool)
    (limiter : option nat) (l : nat)
    (h h0 h1 h2 ha : @Impl.Host W WorkerClass E) :
  Impl.pick_limiter os_cpu_count limiter h = (Ok l, h0) ->
  Impl.on_env (limiter_enter l) h0 = (Ok tt, h1) ->
  Impl.prune_cache cache_prune (Impl._worker_context_var h0) h1 = (Ok tt, h2) ->
  Impl.on_env checkpoint_if_cancelled h2 = (Ok tt, ha) ->
  let ctx := Impl._worker_context_var h0 in
  (forall older newest newer o hc h4 suppress,
     Impl.cache_of ctx h2 = older ++ newest :: newer ->
     is_alive (Impl.env ha) newest = true ->
     Forall (fun q => is_alive (Impl.env ha) q = false) newer ->
     Impl.on_env (proc_run_sync newest fn args (negb cancellable))
       (snd (Impl.set_cache ctx older ha)) = (Ok (Some o), hc) ->
     Impl.on_env (limiter_exit l None) hc = (Ok suppress, h4) ->
     exists h',
       Impl.run_sync os_cpu_count worker_new proc_run_sync is_alive
         cache_prune checkpoint_if_cancelled limiter_enter limiter_exit
         (Datatypes.S fuel) fn args cancellable limiter h =
       Some (unwrap o, h') /\
       Impl.cache_of ctx h' = older ++ [newest]) /\
  (forall w hb o hc h4 suppress,
     Forall (fun q => is_alive (Impl.env ha) q = false) (Impl.cache_of ctx h2) ->
     Impl.on_env (worker_new (Impl.worker_class ctx) (Impl.idle_timeout ctx)
                    (Impl.retire ctx))
       (snd (Impl.set_cache ctx [] ha)) = (Ok w, hb) ->
     Impl.on_env (proc_run_sync w fn args (negb cancellable)) hb =
       (Ok (Some o), hc) ->
     Impl.on_env (limiter_exit l None) hc = (Ok suppress, h4) ->
     exists h',
       Impl.run_sync os_cpu_count worker_new proc_run_sync is_alive
         cache_prune checkpoint_if_cancelled limiter_enter limiter_exit
         (Datatypes.S fuel) fn args cancellable limiter h =
       Some (unwrap o, h') /\
       Impl.cache_of ctx h' = [w]).
Proof.
  intros Hpick Henter Hprune Hck ctx.
  pose proof (cache_of_env _ ctx _ _ _ Hck) as Hca.
  split.
  - intros older newest newer o hc h4 suppress Hcache Hlive Hdead Hrun Hexit.
    assert (Htake : Impl.take_worker worker_new is_alive ctx ha =
                    (Ok newest, snd (Impl.set_cache ctx older ha))).
    { apply (take_worker_pops worker_new is_alive ctx ha older newer newest);
        [rewrite Hca; exact Hcache|exact Hlive|exact Hdead]. }
    eexists. split.
    + apply (dispatch_clean os_cpu_count worker_new proc_run_sync is_alive
               cache_prune checkpoint_if_cancelled limiter_enter limiter_exit
               fuel fn args cancellable limiter l h h0 h1 h2 ha _ hc h4
               newest o suppress Hpick Henter Hprune Hck Htake Hrun Hexit).
    + fold ctx. rewrite !cache_of_set. reflexivity.
  - intros w hb o hc h4 suppress Hdead Hnew Hrun Hexit.
    assert (Htake : Impl.take_worker worker_new is_alive ctx ha = (Ok w, hb)).
    { rewrite take_worker_creates by (rewrite Hca; exact Hdead). exact Hnew. }
    eexists. split.
    + apply (dispatch_clean os_cpu_count worker_new proc_run_sync is_alive
               cache_prune checkpoint_if_cancelled limiter_enter limiter_exit
               fuel fn args cancellable limiter l h h0 h1 h2 ha hb hc h4
               w o suppress Hpick Henter Hprune Hck Htake Hrun Hexit).
    + fold ctx. rewrite cache_of_set, (cache_of_env _ ctx _ _ _ Hnew),
        cache_of_set. reflexivity.
Qed.

Lemma call_reuses_newest_live_handle_witness :
  exists h',
    ToyHost.run_sync 1 0%nat 7 false (Some 3%nat)
      (ToyHost.host [13%nat; 5%nat; 11%nat]) = Some (Ok 49, h') /\
    Impl.cache_of (Impl.mkContext 600 (fun _ => false) tt 0%nat) h' =
      [13%nat; 5%nat].
Proof.
  destruct (call_reuses_newest_live_handle (Some 4%N) ToyHost.worker_new
              ToyHost.proc_run_sync ToyHost.is_alive ToyHost.cache_prune
              ToyHost.checkpoint_if_cancelled ToyHost.limiter_enter
              ToyHost.limiter_exit 0 0%nat 7 false (Some 3%nat) 3%nat
              (ToyHost.host [13%nat; 5%nat; 11%nat])
              (ToyHost.host [13%nat; 5%nat; 11%nat])
              (ToyHost.host [13%nat; 5%nat; 11%nat])
              (ToyHost.host [13%nat; 5%nat; 11%nat])
              (ToyHost.host [13%nat; 5%nat; 11%nat])
              eq_refl eq_refl eq_refl eq_refl) as [Hreuse _].
  destruct (Hreuse [13%nat] 5%nat [11%nat] (Value 49)
              (ToyHost.host [13%nat]) (ToyHost.host [13%nat]) false
              eq_refl eq_refl
              (@List.Forall_cons _ _ 11%nat [] eq_refl (@List.Forall_nil _ _))
              eq_refl eq_refl) as (h' & Hrun & Hcache).
  exists h'. split; [exact Hrun|exact Hcache].
Defined.

(** X21.  A failure in the handle's [run_sync] of [_proc.py], on a woken
    worker.  Whenever the [try] block (pickle, send, receive, unpickle)
    raises [e]: if the process was started, the handle is killed (the
    barrier aborted, the process signalled, the streams left as the
    failure left them) and what is raised is [BrokenWorkerError] for an
    [EndOfChannel], and [e] itself for anything else, a cancellation
    included; if the process was never started, [kill()] has nothing to
    signal and it is its [AttributeError] that leaves [run_sync], the
    barrier aborted. *)
Theorem handle_failure_kills {Fn Args Val : Type}
    (dumps_job : Fn * Args -> Result bytes)
    (loads_outcome : bytes -> Result (Outcome Val))
    (fn : Fn) (args : Args) (h h1 : Handle.WorkerProc) (e : PyExc) :
  Handle.n_waiting (Handle._barrier h) = 0%nat ->
  Handle.exchange dumps_job loads_outcome fn args h = (Raise e, h1) ->
  (Handle._started h = true ->
     Handle.run_sync dumps_job loads_outcome fn args h =
       (Raise (if is_EndOfChannel e
               then BrokenWorkerError (Handle.died_unexpectedly h)
               else e),
        snd (Handle.kill h1)) /\
     Handle.killed (snd (Handle.kill h1)) /\
     Handle._send_stream (snd (Handle.kill h1)) = Handle._send_stream h1 /\
     Handle._recv_stream (snd (Handle.kill h1)) = Handle._recv_stream h1) /\
  (Handle._started h = false ->
     exists msg,
       Handle.run_sync dumps_job loads_outcome fn args h =
         (Raise (AttributeError msg), snd (Handle.kill h1)) /\
       Handle.broken (Handle._barrier (snd (Handle.kill h1))) = true /\
       Handle.signals (Handle._proc (snd (Handle.kill h1))) =
         Handle.signals (Handle._proc h)).
Proof.
  intros Hn Hex.
  destruct (HandleFacts.exchange_started dumps_job loads_outcome h h1 fn args
              _ Hex) as (Hst & _ & Hp).
  rewrite HandleFacts.run_sync_by_exchange by exact Hn. rewrite Hex.
  split; intros Hs; rewrite <- Hst in Hs.
  - destruct (HandleFacts.kill_killed h1 Hs) as [Hk Hkilled].
    destruct (HandleFacts.kill_streams h1) as (Hss & Hrs & _).
    destruct (Handle.kill h1) as [rk h2]. cbn [fst snd] in *. subst rk.
    repeat split; assumption || apply Hkilled.
  - destruct (HandleFacts.kill_never_started h1 Hs) as ([msg Hk] & Hb & Hpr).
    destruct (Handle.kill h1) as [rk h2]. cbn [fst snd] in *. subst rk.
    exists msg. split; [reflexivity|]. split; [exact Hb|].
    rewrite Hpr, Hp. reflexivity.
Qed.

Lemma handle_failure_kills_witness :
  let h := Handle.mkHandle (Handle.mkBarrier 0 false)
             (Handle.mkProcess "worker 0" false []) true (mkSend [] [])
             (mkRecv [] [ReadFails Cancelled] 0) in
  let h1 := snd (Handle.exchange Toy.dumps_job Toy.loads_outcome 0%nat 7 h) in
  Handle.run_sync Toy.dumps_job Toy.loads_outcome 0%nat 7 h =
    (Raise Cancelled, snd (Handle.kill h1)) /\
  Handle.signals (Handle._proc (snd (Handle.kill h1))) = [Handle.SIGTERM].
Proof.
  intros h h1.
  destruct (handle_failure_kills Toy.dumps_job Toy.loads_outcome 0%nat 7 h h1
              Cancelled eq_refl eq_refl) as [Hstarted _].
  destruct (Hstarted eq_refl) as (Hrun & _).
  split; [exact Hrun|reflexivity].
Defined.

(** The worker dies mid-reply (two header bytes, then the end of the
    pipe): the handle is killed and [BrokenWorkerError] is raised. *)
Example run_sync_worker_died :
  let h := Handle.mkHandle (Handle.mkBarrier 0 false)
             (Handle.mkProcess "worker 0" true []) true (mkSend [] [])
             (mkRecv [x00; x00] [] 0) in
  let '(r, h') := Handle.run_sync Toy.dumps_job Toy.loads_outcome 0%nat 7 h in
  r = Raise (BrokenWorkerError "worker 0 died unexpectedly") /\
  Handle.signals (Handle._proc h') = [Handle.SIGKILL] /\
  Handle.broken (Handle._barrier h') = true.
Proof. vm_compute. repeat split. Qed.

(** The same on a handle whose process was never started: the barrier is
    aborted, nothing is signalled, and [AttributeError] is what the
    caller sees. *)
Example run_sync_never_started :
  let h := Handle.mkHandle (Handle.mkBarrier 0 false)
             (Handle.mkProcess "worker 0" true []) false (mkSend [] [])
             (mkRecv [x00; x00] [] 0) in
  let '(r, h') := Handle.run_sync Toy.dumps_job Toy.loads_outcome 0%nat 7 h in
  r = Raise (AttributeError "'NoneType' object has no attribute 'terminate'") /\
  Handle.signals (Handle._proc h') = [] /\
  Handle.broken (Handle._barrier h') = true.
Proof. vm_compute. repeat split. Qed.

(** X22.  A failure of the awaited [proc.run_sync] in the dispatcher,
    at the first turn, by what the limiter's [__aexit__] does with the
    exception [e].  If it returns false (every [CapacityLimiter] does),
    the call raises [e] and the cache is what taking the handle left:
    the handle is not in it again.  If it raises, the call raises that,
    the cache being the same.  If it returns true, [e] is swallowed and
    the statements after the block run: the handle is appended to the
    cache and [result.unwrap()] with [result] still [None] raises
    [AttributeError]. *)
Theorem failed_handle_and_the_limiter {Fn Args Val W WorkerClass E : Type}
    (os_cpu_count : option N)
    (worker_new : WorkerClass -> Q -> Impl.Retire -> M E W)
    (proc_run_sync : W -> Fn -> Args -> bool -> M E (option (Outcome Val)))
    (is_alive : E -> W -> bool)
    (cache_prune : list W -> M E (list W))
    (checkpoint_if_cancelled : M E unit)
    (limiter_enter : nat -> M E unit)
    (limiter_exit : nat -> option PyExc -> M E bool)
    (fuel : nat) (fn : Fn) (args : Args) (cancellable : bool)
    (limiter : option nat) (l : nat)
    (h h0 h1 h2 ha hb hc : @Impl.Host W WorkerClass E) (proc : W)
    (e : PyExc) :
  Impl.pick_limiter os_cpu_count limiter h = (Ok l, h0) ->
  Impl.on_env (limiter_enter l) h0 = (Ok tt, h1) ->
  Impl.prune_cache cache_prune (Impl._worker_context_var h0) h1 = (Ok tt, h2) ->
  Impl.on_env checkpoint_if_cancelled h2 = (Ok tt, ha) ->
  Impl.take_worker worker_new is_alive (Impl._worker_context_var h0) ha =
    (Ok proc, hb) ->
  Impl.on_env (proc_run_sync proc fn args (negb cancellable)) hb =
    (Raise e, hc) ->
  let ctx := Impl._worker_context_var h0 in
  let call :=
    Impl.run_sync os_cpu_count worker_new proc_run_sync is_alive cache_prune
      checkpoint_if_cancelled limiter_enter limiter_exit
      (Datatypes.S fuel) fn args cancellable limiter h in
  (forall h4,
     Impl.on_env (limiter_exit l (Some e)) hc = (Ok false, h4) ->
     call = Some (Raise e, h4) /\
     Impl.cache_of ctx h4 = Impl.cache_of ctx hb) /\
  (forall e' h4,
     Impl.on_env (limiter_exit l (Some e)) hc = (Raise e', h4) ->
     call = Some (Raise e', h4) /\
     Impl.cache_of ctx h4 = Impl.cache_of ctx hb) /\
  (forall h4,
     Impl.on_env (limiter_exit l (Some e)) hc = (Ok true, h4) ->
     exists msg h',
       call = Some (Raise (AttributeError msg), h') /\
       Impl.cache_of ctx h' = Impl.cache_of ctx hb ++ [proc]).
Proof.
  intros Hpick Henter Hprune Hck Htake Hrun ctx call.
  pose proof (attempt_steps worker_new proc_run_sync is_alive
                checkpoint_if_cancelled ctx fn args cancellable None
                h2 ha hb hc proc _ Hck Htake Hrun) as Hat.
  assert (Hloop : Impl.attempts worker_new proc_run_sync is_alive
                    checkpoint_if_cancelled (Datatypes.S fuel) ctx fn args
                    cancellable None h2 = Some (Raise e, Some proc, hc)).
  { cbn [Impl.attempts]. rewrite Hat. reflexivity. }
  pose proof (dispatch_steps os_cpu_count worker_new proc_run_sync is_alive
                cache_prune checkpoint_if_cancelled limiter_enter limiter_exit
                _ fn args cancellable limiter l h h0 h1 h2 hc _ _
                Hpick Henter Hprune Hloop) as Hd.
  fold call in Hd.
  pose proof (cache_of_env _ ctx _ _ _ Hrun) as Hc.
  split; [|split].
  - intros h4 Hexit. rewrite Hd, Hexit. split; [reflexivity|].
    rewrite (cache_of_env _ ctx _ _ _ Hexit). exact Hc.
  - intros e' h4 Hexit. rewrite Hd, Hexit. split; [reflexivity|].
    rewrite (cache_of_env _ ctx _ _ _ Hexit). exact Hc.
  - intros h4 Hexit. rewrite Hd, Hexit. eexists _, _. split; [reflexivity|].
    fold ctx. unfold Impl.after_block, bind, get. cbn.
    change (Impl.cache_of ctx
              (snd (Impl.set_cache ctx
                      (Impl.WorkerCache_append (Impl.cache_of ctx h4) proc) h4)) =
            Impl.cache_of ctx hb ++ [proc]).
    rewrite cache_of_set, (cache_of_env _ ctx _ _ _ Hexit), Hc. reflexivity.
Qed.

Lemma failed_handle_and_the_limiter_witness :
  ToyHost.run_sync 1 0%nat 7 false (Some 3%nat) (ToyHost.host [5%nat; 13%nat]) =
    Some (Raise (BrokenWorkerError "worker 13 died unexpectedly"),
          ToyHost.host [5%nat]) /\
  Impl.cache_of (Impl.mkContext 600 (fun _ => false) tt 0%nat)
    (ToyHost.host [5%nat]) = [5%nat].
Proof.
  destruct (failed_handle_and_the_limiter (Some 4%N) ToyHost.worker_new
              ToyHost.proc_run_sync ToyHost.is_alive ToyHost.cache_prune
              ToyHost.checkpoint_if_cancelled ToyHost.limiter_enter
              ToyHost.limiter_exit 0 0%nat 7 false (Some 3%nat) 3%nat
              (ToyHost.host [5%nat; 13%nat]) (ToyHost.host [5%nat; 13%nat])
              (ToyHost.host [5%nat; 13%nat]) (ToyHost.host [5%nat; 13%nat])
              (ToyHost.host [5%nat; 13%nat]) (ToyHost.host [5%nat])
              (ToyHost.host [5%nat]) 13%nat
              (BrokenWorkerError "worker 13 died unexpectedly")
              eq_refl eq_refl eq_refl eq_refl eq_refl eq_refl)
    as [Hpass _].
  exact (Hpass (ToyHost.host [5%nat]) eq_refl).
Defined.

(** The same failure under the limiter that swallows: the broken handle
    13 is in the cache again. *)
Example dispatch_broken_worker_swallowed :
  let r := ToyHost.run_sync 1 0%nat 7 false (Some 77%nat)
             (ToyHost.host [5%nat; 13%nat]) in
  option_map fst r =
    Some (Raise (AttributeError "'NoneType' object has no attribute 'unwrap'")) /\
  ToyHost.cache_after r = Some [5%nat; 13%nat].
Proof. vm_compute. split; reflexivity. Qed.

(* ===================================================================== *)
(** * [_worker_processes.py]: the earlier limiter and dispatcher         *)
(* ===================================================================== *)

Section LegacyFacts.
Context {Fn Args Val W E : Type}.
Variable os_cpu_count : option N.
Variable is_alive : E -> W -> bool.
Variable spawn : M E W.
Variable proc_run_sync : W -> Fn -> Args -> bool -> M E Val.
Variable limiter_enter : nat -> M E unit.
Variable limiter_exit : nat -> M E unit.

Local Abbreviation Host := (@Legacy.Host W E).
Local Abbreviation take := (@Legacy.take_worker W E is_alive spawn).
Local Abbreviation turn :=
  (@Legacy.turn Fn Args Val W E is_alive spawn proc_run_sync).
Local Abbreviation turns :=
  (@Legacy.turns Fn Args Val W E is_alive spawn proc_run_sync).

Lemma on_world_cache {A} (m : M E A) (h h' : Host) (r : Result A) :
  Legacy.on_world m h = (r, h') -> Legacy.PROC_CACHE h' = Legacy.PROC_CACHE h.
Proof.
  unfold Legacy.on_world. destruct (m (Legacy.world h)) as [r0 e0].
  intros Heq. injection Heq as <- <-. reflexivity.
Qed.

(** Taking a worker: a handle that answered alive, leaving a shorter
    cache; or, from a cache with no live handle, a new one, leaving the
    cache empty. *)
Lemma take_worker_cases (h h' : Host) (r : Result W) :
  take h = (r, h') ->
  (exists proc, r = Ok proc /\
     is_alive (Legacy.world h) proc = true /\
     Legacy.world h' = Legacy.world h /\
     (length (Legacy.PROC_CACHE h') < length (Legacy.PROC_CACHE h))%nat) \/
  (Forall (fun p => is_alive (Legacy.world h) p = false) (Legacy.PROC_CACHE h) /\
   Legacy.PROC_CACHE h' = []).
Proof.
  unfold Legacy.take_worker.
  destruct (pop_scan (is_alive (Legacy.world h)) (Legacy.PROC_CACHE h))
    as [(older & p & newer & Hc & Hp & Hd & Hpop)|[Hd Hpop]]; rewrite Hpop.
  - intros Heq. injection Heq as <- <-. left. exists p. cbn.
    repeat split; [exact Hp|]. rewrite Hc, List.length_app. simpl. lia.
  - intros Heq. right. split; [exact Hd|].
    apply on_world_cache in Heq. exact Heq.
Qed.

Lemma put_back_cache (proc : W) (h : Host) :
  Legacy.world (Legacy.put_back is_alive proc h) = Legacy.world h /\
  (Legacy.PROC_CACHE (Legacy.put_back is_alive proc h) = Legacy.PROC_CACHE h /\
   is_alive (Legacy.world h) proc = false \/
   Legacy.PROC_CACHE (Legacy.put_back is_alive proc h) =
     Legacy.PROC_CACHE h ++ [proc] /\
   is_alive (Legacy.world h) proc = true).
Proof.
  unfold Legacy.put_back. destruct (is_alive (Legacy.world h) proc) eqn:Ha.
  - split; [reflexivity|]. right. split; reflexivity.
  - split; [reflexivity|]. left. split; reflexivity.
Qed.

(** A turn never makes a non-empty cache longer, and leaves at most one
    handle in a cache it found without a live handle. *)
Lemma turn_cache_bound (fn : Fn) (args : Args) (c : bool) (h h' : Host)
    (r : Result (option Val)) :
  turn fn args c h = (r, h') ->
  (length (Legacy.PROC_CACHE h') <=
   Nat.max (length (Legacy.PROC_CACHE h)) 1)%nat.
Proof.
  unfold Legacy.turn, bind.
  destruct (take h) as [[proc|e] hb] eqn:Htake.
  - destruct (Legacy.on_world _ hb) as [rr hc] eqn:Hrun.
    pose proof (on_world_cache _ _ _ _ Hrun) as Hc.
    destruct (put_back_cache proc hc) as [_ Hput].
    assert (Hlen : (length (Legacy.PROC_CACHE (Legacy.put_back is_alive proc hc))
                    <= Datatypes.S (length (Legacy.PROC_CACHE hb)))%nat).
    { destruct Hput as [[-> _]|[-> _]]; rewrite ?List.length_app, Hc; simpl; lia. }
    assert (Hb : (Datatypes.S (length (Legacy.PROC_CACHE hb)) <=
                  Nat.max (length (Legacy.PROC_CACHE h)) 1)%nat).
    { destruct (take_worker_cases h hb _ Htake)
        as [(p & _ & _ & _ & Hlt)|[_ ->]]; simpl; lia. }
    intros Heq.
    assert (h' = Legacy.put_back is_alive proc hc) as ->.
    { destruct rr as [v|e]; [|destruct (Legacy.is_BrokenResourceError e)];
        injection Heq as _ <-; reflexivity. }
    lia.
  - intros Heq. injection Heq as _ <-.
    destruct (take_worker_cases h hb _ Htake)
      as [(p & Hp & _)|[_ ->]]; [discriminate|simpl; lia].
Qed.

Lemma turns_cache_bound (fn : Fn) (args : Args) (c : bool) (fuel : nat) :
  forall (h h' : Host) (r : Result Val),
    turns fuel fn args c h = Some (r, h') ->
    (length (Legacy.PROC_CACHE h') <=
     Nat.max (length (Legacy.PROC_CACHE h)) 1)%nat.
Proof.
  induction fuel as [|fuel IH]; intros h h' r; [discriminate|].
  cbn [Legacy.turns].
  destruct (turn fn args c h) as [[[v|]|e] h1] eqn:Hturn;
    pose proof (turn_cache_bound fn args c h h1 _ Hturn) as Hb.
  - intros Heq. injection Heq as _ <-. exact Hb.
  - intros Hrest. apply IH in Hrest. lia.
  - intros Heq. injection Heq as _ <-. exact Hb.
Qed.

Lemma prune_shorter (alive : W -> bool) (c : list W) :
  (length (Cache.prune alive c) <= length c)%nat.
Proof.
  destruct (prune_split alive c) as (d & Hc & _).
  rewrite Hc at 2. rewrite List.length_app. lia.
Qed.

End LegacyFacts.

(** X18.  Within one run, the earlier [current_default_process_limiter]
    returns one limiter: when the module's run-local variable is set the
    call returns its value and changes nothing; when it is unset and the
    CPU count is known and positive the call makes a new limiter (an
    object that did not exist) with that many tokens, stores it, and
    every further call returns it.  When [os.cpu_count()] gives nothing
    or zero, the call raises and stores nothing, so the next call raises
    again: this module has no fallback to one token. *)
Theorem process_limiter_idempotent (os_cpu_count : option N) (r : Legacy.Run) :
  (forall l, Legacy._limiter_local r = Some l ->
     Legacy.current_default_process_limiter os_cpu_count r = (Ok l, r)) /\
  (forall n, os_cpu_count = Some n -> (1 <= n)%N ->
     Legacy._limiter_local r = None ->
     exists l r',
       Legacy.current_default_process_limiter os_cpu_count r = (Ok l, r') /\
       Legacy.limiters r !! l = None /\
       Legacy.limiters r' !! l = Some (Impl.mkLimiter (Z.of_N n)) /\
       Legacy._limiter_local r' = Some l /\
       Legacy.current_default_process_limiter os_cpu_count r' = (Ok l, r')) /\
  (os_cpu_count = None \/ os_cpu_count = Some 0%N ->
     Legacy._limiter_local r = None ->
     exists e,
       Legacy.current_default_process_limiter os_cpu_count r = (Raise e, r)).
Proof.
  unfold Legacy.current_default_process_limiter, try_except, Legacy.RunVar_get.
  split; [|split].
  - intros l Hl. rewrite Hl. reflexivity.
  - intros n -> Hn Hnone. rewrite Hnone.
    unfold bind, Legacy.CapacityLimiter_of, Legacy.DEFAULT_LIMIT.
    destruct (N.ltb_spec n 1) as [|_]; [lia|].
    eexists _, _. split; [reflexivity|]. cbn.
    split; [apply not_elem_of_dom, is_fresh|].
    split; [apply lookup_insert_eq|]. split; reflexivity.
  - intros Hcpu Hnone. rewrite Hnone.
    unfold bind, Legacy.CapacityLimiter_of, Legacy.DEFAULT_LIMIT.
    destruct Hcpu as [->| ->]; eexists; reflexivity.
Qed.

Example process_limiter_no_cpu_count :
  fst (Legacy.current_default_process_limiter None (Legacy.mkRun ∅ None)) =
    Raise (TypeError "total_tokens must be an int or math.inf") /\
  fst (Impl.current_default_worker_limiter None (Impl.mkRun ∅ None)) = Ok 0%nat.
Proof. split; reflexivity. Qed.


(** X19.  A call of [to_process_run_sync] that ends, with a value or an
    exception, leaves [PROC_CACHE] no longer than it found it, except
    that an empty cache may hold one handle after: however many turns
    the retry loop takes, each takes a handle out before it may put one
    back. *)
Theorem to_process_run_sync_cache_never_grows {Fn Args Val W E : Type}
    (os_cpu_count : option N) (is_alive : E -> W -> bool) (spawn : M E W)
    (proc_run_sync : W -> Fn -> Args -> bool -> M E Val)
    (limiter_enter limiter_exit : nat -> M E unit)
    (fuel : nat) (fn : Fn) (args : Args) (cancellable : bool)
    (limiter : option nat) (h h' : @Legacy.Host W E) (r : Result Val) :
  Legacy.to_process_run_sync os_cpu_count is_alive spawn proc_run_sync
    limiter_enter limiter_exit fuel fn args cancellable limiter h
    = Some (r, h') ->
  (length (Legacy.PROC_CACHE h') <=
   Nat.max (length (Legacy.PROC_CACHE h)) 1)%nat.
Proof.
  unfold Legacy.to_process_run_sync.
  assert (Hpick : forall x h0,
            Legacy.pick_limiter os_cpu_count limiter h = (x, h0) ->
            Legacy.PROC_CACHE h0 = Legacy.PROC_CACHE h).
  { intros x h0. unfold Legacy.pick_limiter. destruct limiter as [l|].
    - intros Heq. injection Heq as _ <-. reflexivity.
    - unfold Legacy.on_run.
      destruct (Legacy.current_default_process_limiter _ _) as [x0 r0].
      intros Heq. injection Heq as _ <-. reflexivity. }
  destruct (Legacy.pick_limiter os_cpu_count limiter h)
    as [[l|e] h0] eqn:Hl;
    [pose proof (Hpick _ _ eq_refl) as Hl'|pose proof (Hpick _ _ eq_refl) as Hl'];
    clear Hpick Hl; rename Hl' into Hl.
  2:{ intros Heq. injection Heq as _ <-. rewrite Hl. lia. }
  destruct (Legacy.on_world (limiter_enter l) h0) as [[[]|e] h1] eqn:Hen;
    apply on_world_cache in Hen.
  2:{ intros Heq. injection Heq as _ <-. rewrite Hen, Hl. lia. }
  destruct (Legacy.turns _ _ _ _ _ _ _ _) as [[body h2]|] eqn:Hturns;
    [|discriminate].
  apply turns_cache_bound in Hturns.
  assert (Hp : (length (Legacy.PROC_CACHE (snd (Legacy.prune_cache is_alive h1)))
                <= length (Legacy.PROC_CACHE h))%nat).
  { cbn. rewrite <- Hl, <- Hen. apply prune_shorter. }
  destruct (Legacy.on_world (limiter_exit l) h2) as [[[]|e] h3] eqn:Hex;
    apply on_world_cache in Hex;
    intros Heq; injection Heq as _ <-; rewrite Hex; lia.
Qed.

Lemma to_process_run_sync_cache_never_grows_witness :
  (length (Legacy.PROC_CACHE
             (Legacy.mkHost
                (Legacy.mkRun {[ 0%nat := Impl.mkLimiter 4 ]} (Some 0%nat))
                [5%nat]
                (ToyLegacy.mkWorld 100 [13%nat]))) <=
   Nat.max (length (Legacy.PROC_CACHE (ToyLegacy.host [5%nat; 13%nat]))) 1)%nat.
Proof.
  apply (to_process_run_sync_cache_never_grows (Some 4%N) ToyLegacy.is_alive
           ToyLegacy.spawn ToyLegacy.proc_run_sync ToyLegacy.limiter_enter
           ToyLegacy.limiter_exit 2 0%nat 7 false None
           (ToyLegacy.host [5%nat; 13%nat]) _ (Ok 49)).
  vm_compute. reflexivity.
Defined.

(** X20.  What a turn of the earlier retry loop does with the handle it
    took.  When the newest cached handle is alive it is the one used;
    after the call the handle goes back to the newest end of the cache
    exactly if its process is still alive then, whatever the call did: a
    value is returned, [BrokenResourceError] starts the next turn (with
    the same handle again if it survived), and any other exception
    leaves the function, the worker that raised it staying cached. *)
Theorem legacy_turn_puts_live_handle_back {Fn Args Val W E : Type}
    (is_alive : E -> W -> bool) (spawn : M E W)
    (proc_run_sync : W -> Fn -> Args -> bool -> M E Val)
    (fuel : nat) (fn : Fn) (args : Args) (cancellable : bool)
    (h : @Legacy.Host W E) (older : list W) (proc : W)
    (r : Result Val) (w' : E) :
  Legacy.PROC_CACHE h = older ++ [proc] ->
  is_alive (Legacy.world h) proc = true ->
  proc_run_sync proc fn args (negb cancellable) (Legacy.world h) = (r, w') ->
  let after :=
    Legacy.mkHost (Legacy.run h)
      (if is_alive w' proc then older ++ [proc] else older) w' in
  Legacy.turns is_alive spawn proc_run_sync (Datatypes.S fuel) fn args
    cancellable h =
  match r with
  | Ok v => Some (Ok v, after)
  | Raise e =>
      if Legacy.is_BrokenResourceError e
      then Legacy.turns is_alive spawn proc_run_sync fuel fn args
             cancellable after
      else Some (Raise e, after)
  end.
Proof.
  intros Hc Ha Hrun after. subst after.
  cbn [Legacy.turns]. unfold Legacy.turn, bind, Legacy.take_worker.
  rewrite Hc, pop_snoc, Ha.
  unfold Legacy.on_world. cbn [Legacy.world Legacy.run Legacy.PROC_CACHE].
  rewrite Hrun. unfold Legacy.put_back, Cache.push, Deque.append.
  cbn [Legacy.world Legacy.run Legacy.PROC_CACHE].
  destruct (is_alive w' proc); destruct r as [v|e];
    try destruct (Legacy.is_BrokenResourceError e); reflexivity.
Qed.

Lemma legacy_turn_puts_live_handle_back_witness :
  Legacy.turns ToyLegacy.is_alive ToyLegacy.spawn ToyLegacy.proc_run_sync
    2 1%nat 7 false (ToyLegacy.host [5%nat; 8%nat]) =
  Some (Raise (UserError "ZeroDivisionError" "division by zero"),
        ToyLegacy.host [5%nat; 8%nat]).
Proof.
  exact (legacy_turn_puts_live_handle_back ToyLegacy.is_alive ToyLegacy.spawn
           ToyLegacy.proc_run_sync 1 1%nat 7 false
           (ToyLegacy.host [5%nat; 8%nat]) [5%nat] 8%nat
           (Raise (UserError "ZeroDivisionError" "division by zero"))
           (ToyLegacy.mkWorld 100 [])
           eq_refl eq_refl eq_refl).
Defined.

Example legacy_retry_after_timeout :
  option_map fst
    (ToyLegacy.to_process_run_sync 2 0%nat 7 false None
       (ToyLegacy.host [5%nat; 13%nat])) = Some (Ok 49) /\
  ToyLegacy.to_process_run_sync 1 0%nat 7 false None
    (ToyLegacy.host [5%nat; 13%nat]) = None.
Proof. split; vm_compute; reflexivity. Qed.
